(** * trucks-front: route planner front end

    A shallow embedding of the response reconciliation and route-geometry
    pipeline of the front end (src/App.tsx, components/MapView.tsx,
    components/CityAutocomplete.tsx and api.ts), with the properties its
    specification states about it, and of the form, the marker labels, the
    map tiles, the stop markers and the autocomplete input, with further
    properties read off the code.

    JavaScript numbers are IEEE 754 binary64 values and are modelled by the
    primitive floats of the kernel; values of type [any] coming out of
    [JSON.parse] are modelled by [JsVal].  Two numbers that only ever hold
    small integers are modelled by natural numbers: the request counter
    [reqIdRef.current], which is incremented by one per issued request
    (binary64 is exact on the integers below 2^53), and the HTTP status
    code.  Strings are sequences of code units; [slice], [length] and
    concatenation act on code units. *)

From Stdlib Require Import Floats DecimalString.
From stdpp Require Import base gmap sets list strings.

Open Scope string_scope.
Set Warnings "-register-all,-inexact-float".

(** ** JavaScript values and the fragment of the language the program uses *)
Module Js.

Inductive JsVal : Type :=
| JUndefined
| JNull
| JBool (b : bool)
| JNum (x : float)
| JStr (s : string)
| JArr (items : list JsVal)
| JObj (props : list (string * JsVal)).

(** What a [throw] carries.  [ErrorObj] is an object with a [name] and a
    [message] ([new Error(msg)], the [DOMException] of an aborted fetch, a
    network [TypeError]).  [EngineTypeError] is a [TypeError] raised by the
    engine itself; its message text belongs to the engine, the model keeps
    the place that raised it. *)
Inductive Thrown : Type :=
| ErrorObj (name message : string)
| EngineTypeError (site : string).

Inductive Completion (A : Type) : Type :=
| Normal (a : A)
| Throw (e : Thrown).
Arguments Normal {A} a.
Arguments Throw {A} e.

(** Sequencing: a [throw] skips what follows it. *)
#[export] Instance completion_bind : MBind Completion :=
  fun A B k c =>
    match c with
    | Normal a => k a
    | Throw e => Throw e
    end.
#[export] Instance completion_ret : MRet Completion := @Normal.

(** ToBoolean *)
Definition truthy (v : JsVal) : bool :=
  match v with
  | JUndefined | JNull => false
  | JBool b => b
  | JNum x => negb (PrimFloat.is_zero x || PrimFloat.is_nan x)
  | JStr s => negb (String.eqb s "")
  | JArr _ | JObj _ => true
  end.

Definition nullish (v : JsVal) : bool :=
  match v with
  | JUndefined | JNull => true
  | _ => false
  end.

(** [Array.isArray(v)] *)
Definition isArray (v : JsVal) : bool :=
  match v with
  | JArr _ => true
  | _ => false
  end.

(** [typeof v === 'number'] *)
Definition isNumber (v : JsVal) : bool :=
  match v with
  | JNum _ => true
  | _ => false
  end.

(** Own data property of an object produced by [JSON.parse]; the property
    names of such an object are distinct. *)
Fixpoint own (props : list (string * JsVal)) (p : string) : JsVal :=
  match props with
  | [] => JUndefined
  | (k, v) :: rest => if String.eqb k p then v else own rest p
  end.

(** [v.p] for the data property names the program reads ([error], [route],
    [geometry], [coordinates], [stops], [summary], [station_id], [lat], ...).
    None of them is defined on the prototypes of booleans, numbers, strings
    or arrays, so there the read gives [undefined]; on [undefined] and [null]
    the engine throws. *)
Definition get (v : JsVal) (p : string) : Completion JsVal :=
  match v with
  | JUndefined | JNull => Throw (EngineTypeError ("read " +:+ p))
  | JObj props => Normal (own props p)
  | _ => Normal JUndefined
  end.

(** Decimal spelling of an index or of an integer status code. *)
Definition dec (n : nat) : string := NilZero.string_of_uint (Nat.to_uint n).

(** [v[i]] for a literal index [i]. *)
Definition index (v : JsVal) (i : nat) : Completion JsVal :=
  match v with
  | JUndefined | JNull => Throw (EngineTypeError ("read " +:+ dec i))
  | JArr items => Normal (nth i items JUndefined)
  | JStr s =>
      Normal (match String.get i s with
              | Some c => JStr (String c "")
              | None => JUndefined
              end)
  | JObj props => Normal (own props (dec i))
  | _ => Normal JUndefined
  end.

End Js.
Export Js.

(** ** Geometry Normalizer: [toLatLngs] of App.tsx *)
Module Geometry.

(** An element of the array [toLatLngs] returns: the two-element array
    [[lat, lon]].  The declared type is [[number, number]]; nothing checks
    the components, so they are arbitrary values. *)
Definition LatLng : Type := JsVal * JsVal.

(** [Array.isArray(pt) && pt.length >= 2] *)
Definition isPoint (pt : JsVal) : bool :=
  match pt with
  | JArr items => bool_decide (2 <= length items)
  | _ => false
  end.

(** The arrow function [([lon, lat]) => [lat, lon]]: array destructuring
    of the argument.  A string is iterable too; any other value is not. *)
Definition swapAxes (pt : JsVal) : Completion LatLng :=
  match pt with
  | JArr items => Normal (nth 1 items JUndefined, nth 0 items JUndefined)
  | JStr s =>
      lon ← index pt 0; lat ← index pt 1; Normal (lat, lon)
  | _ => Throw (EngineTypeError "destructure")
  end.

(** The inner loops of the multi-part branch: the points pushed to [flat]. *)
Definition linePoints (line : JsVal) : list JsVal :=
  match line with
  | JArr pts => filter (fun pt => isPoint pt = true) pts
  | _ => []
  end.

Definition toLatLngs (geometry : JsVal) : Completion (list LatLng) :=
  if negb (truthy geometry) then Normal []
  else
    coords ← get geometry "coordinates";
    if negb (truthy coords) then Normal []
    else
      c0 ← index coords 0;
      nested ← (if isArray c0
                then c00 ← index c0 0; Normal (isArray c00)
                else Normal false);
      if (nested : bool) then
        match coords with
        | JArr lines => mapM swapAxes (concat (map linePoints lines))
        | _ => Throw (EngineTypeError "coords is not iterable")
        end
      else
        match coords with
        | JArr pts => mapM swapAxes (filter (fun pt => isPoint pt = true) pts)
        | _ => Throw (EngineTypeError "coords.filter is not a function")
        end.

End Geometry.

(** ** Segment Classifier: the body of [MapView] (components/MapView.tsx) *)
Module MapView.

(** The component's props are typed: a point is a pair of numbers. *)
Definition LatLng : Type := float * float.

#[export] Instance LatLng_inhabited : Inhabited LatLng := populate (0%float, 0%float).

Definition dist2 (a b : LatLng) : float :=
  let dx := (a.1 - b.1)%float in
  let dy := (a.2 - b.2)%float in
  (dx * dx + dy * dy)%float.

Definition GREEN_THRESHOLD_DEG2 : float := (0.0005 * 0.0005)%float.

(** The variables of the classification loop.  [runs] is a ghost variable:
    it records every segment pushed to [greenSegments] or [redSegments],
    with its colour, in the order of the pushes.  A pushed array is never
    written again: [current] is rebound to a fresh array right after. *)
Record Loop : Type := {
  current : list LatLng;
  currentIsGreen : bool;
  greenSegments : list (list LatLng);
  redSegments : list (list LatLng);
  runs : list (bool * list LatLng)
}.

Definition init : Loop :=
  {| current := []; currentIsGreen := false;
     greenSegments := []; redSegments := []; runs := [] |}.

(** [if (current.length > 1) { if (currentIsGreen) greenSegments.push(current)
    else redSegments.push(current) }] *)
Definition flush (st : Loop) : Loop :=
  if bool_decide (1 < length (current st)) then
    if currentIsGreen st then
      {| current := current st; currentIsGreen := currentIsGreen st;
         greenSegments := greenSegments st ++ [current st];
         redSegments := redSegments st;
         runs := runs st ++ [(true, current st)] |}
    else
      {| current := current st; currentIsGreen := currentIsGreen st;
         greenSegments := greenSegments st;
         redSegments := redSegments st ++ [current st];
         runs := runs st ++ [(false, current st)] |}
  else st.

Section Classifier.
Context (route : list LatLng) (baseRoute : option (list LatLng)).

(** [baseRoute && baseRoute.length > 1 ? baseRoute : null] *)
Definition base : option (list LatLng) :=
  match baseRoute with
  | Some b => if bool_decide (1 < length b) then Some b else None
  | None => None
  end.

(** [route && route.length > 1 ? route : null] *)
Definition detour : option (list LatLng) :=
  if bool_decide (1 < length route) then Some route else None.

(** The body of the scan loop of [minDist2ToBase], for [q = base[i]]. *)
Definition scanStep (p : LatLng) (best : float) (q : LatLng) : float :=
  let d2 := dist2 p q in
  if (d2 <? best)%float then d2 else best.

Definition minDist2ToBase (p : LatLng) : float :=
  match base with
  | None => infinity
  | Some b => fold_left (scanStep p) b infinity
  end.

Definition isNear (pt : LatLng) : bool :=
  (minDist2ToBase pt <=? GREEN_THRESHOLD_DEG2)%float.

(** One iteration of [for (let i = 0; i < detour.length; i++)]. *)
Definition body (d : list LatLng) (i : nat) (st : Loop) : Loop :=
  let pt := d !!! i in
  let near := isNear pt in
  if bool_decide (i = 0) then
    {| current := current st ++ [pt]; currentIsGreen := near;
       greenSegments := greenSegments st; redSegments := redSegments st;
       runs := runs st |}
  else if Bool.eqb near (currentIsGreen st) then
    {| current := current st ++ [pt]; currentIsGreen := currentIsGreen st;
       greenSegments := greenSegments st; redSegments := redSegments st;
       runs := runs st |}
  else
    let st' := flush st in
    {| current := [d !!! (i - 1); pt]; currentIsGreen := near;
       greenSegments := greenSegments st'; redSegments := redSegments st';
       runs := runs st' |}.

(** The loop variables after the first [k] iterations. *)
Definition iter (d : list LatLng) (k : nat) : Loop :=
  fold_left (fun st i => body d i st) (seq 0 k) init.

(** The loop variables when the [if (detour && base)] block is left. *)
Definition classifyLoop : Loop :=
  match detour, base with
  | Some d, Some _ => flush (iter d (length d))
  | _, _ => init
  end.

(** The two arrays the component draws: [(greenSegments, redSegments)]. *)
Definition classify : list (list LatLng) * list (list LatLng) :=
  (greenSegments classifyLoop, redSegments classifyLoop).

(** The pushed segments in the order of the pushes (ghost). *)
Definition classifyRuns : list (bool * list LatLng) := runs classifyLoop.

End Classifier.

(** Joining consecutive segments on their shared boundary point: every
    segment after the first loses its first point. *)
Definition joinSegments (segs : list (list LatLng)) : list LatLng :=
  match segs with
  | [] => []
  | s :: rest => s ++ concat (map (drop 1) rest)
  end.

(** Consecutive runs alternate in colour and the second starts on the point
    the first ends on. *)
Fixpoint linked (rs : list (bool * list LatLng)) : Prop :=
  match rs with
  | r1 :: (r2 :: _) as rest =>
      r1.1 = negb r2.1 /\ last r1.2 = head r2.2 /\ linked rest
  | _ => True
  end.

(** The colour lists are the pushes of each colour, in order. *)
Definition projected (st : Loop) : Prop :=
  greenSegments st = map snd (filter (fun r => r.1 = true) (runs st)) /\
  redSegments st = map snd (filter (fun r => r.1 = false) (runs st)).

Definition drawable (st : Loop) : Prop :=
  Forall (fun r => 2 <= length r.2) (runs st).

(** The loop invariant from the second iteration on. *)
Record Inv (d : list LatLng) (k : nat) (st : Loop) : Prop := {
  inv_len : 2 <= length (current st);
  inv_join : joinSegments (map snd (runs st) ++ [current st]) = take k d;
  inv_linked : linked (runs st ++ [(currentIsGreen st, current st)]);
  inv_last : last (current st) = d !! (k - 1)
}.

End MapView.

(** ** What the program takes from the JavaScript engine

    Built-in functions whose code is not part of the repository. *)
Record Engine : Type := {
  (** [JSON.parse(text)]; [None] when it throws a [SyntaxError]. *)
  JSON_parse : string -> option JsVal;
  (** The string a template literal puts for a number. *)
  Number_toString : float -> string;
  (** [x.toFixed(6)] *)
  Number_toFixed6 : float -> string;
  (** The message of the [TypeError] the engine raises at a given place. *)
  typeErrorMessage : string -> string;
  (** The message of the [SyntaxError] that parsing a text as JSON raises. *)
  syntaxErrorMessage : string -> string
}.

(** A number spelled by its sign, mantissa and binary exponent. *)
Definition spell (x : float) : string :=
  match Prim2SF x with
  | S754_nan => "NaN"
  | S754_infinity s => if s then "-Infinity" else "Infinity"
  | S754_zero _ => "0"
  | S754_finite s m e =>
      (if s then "-" else "")
      +:+ NilZero.string_of_uint (Pos.to_uint m)
      +:+ "p" +:+ NilZero.string_of_int (Z.to_int e)
  end.

(** A parser for a few JSON texts: the literals and the empty array and
    object.  Every other text is refused. *)
Definition parseLiteral (text : string) : option JsVal :=
  if String.eqb text "null" then Some JNull
  else if String.eqb text "true" then Some (JBool true)
  else if String.eqb text "false" then Some (JBool false)
  else if String.eqb text "[]" then Some (JArr [])
  else if String.eqb text "{}" then Some (JObj [])
  else None.

(** An engine to evaluate examples with: [JSON.parse] is [parseLiteral],
    numbers are spelled by [spell], and the message of a JSON
    [SyntaxError] is the one SpiderMonkey gives for a text that is wrong
    from its first character.  The properties below are proved for every
    engine. *)
Definition sampleEngine : Engine :=
  {| JSON_parse := parseLiteral;
     Number_toString := spell;
     Number_toFixed6 := spell;
     typeErrorMessage := fun site => "TypeError: " +:+ site;
     syntaxErrorMessage := fun _ =>
       "JSON.parse: unexpected character at line 1 column 1 of the JSON data" |}.

(** ** Stop records and the Stop Deduplicator (App.tsx, [onSubmit]) *)
Module Stops.

(** [interface StopPoint].  The numeric fields guarded by [typeof] are
    numbers or [undefined]; [lat] and [lon] may also come from [s.coord],
    and the text fields are copied as they are, so these hold any value. *)
Record StopPoint : Type := {
  station_id : option float;
  lat : JsVal;
  lon : JsVal;
  name : JsVal;
  city : JsVal;
  state : JsVal;
  price : option float;
  address : JsVal;
  gallons_purchased : option float;
  cost : option float;
  mile_on_route : option float
}.

(** [typeof v === 'number' ? v : undefined] *)
Definition numberOrUndefined (v : JsVal) : option float :=
  match v with
  | JNum x => Some x
  | _ => None
  end.

(** [typeof s.p === 'number' ? s.p : Array.isArray(s.coord) ? s.coord[i] : undefined] *)
Definition coordinate (s : JsVal) (p : string) (i : nat) : Completion JsVal :=
  v ← get s p;
  if isNumber v then Normal v
  else
    c ← get s "coord";
    if isArray c then index c i else Normal JUndefined.

(** The callback of [res.stops.map]. *)
Definition toStopPoint (s : JsVal) : Completion StopPoint :=
  sid ← get s "station_id";
  la ← coordinate s "lat" 1;
  lo ← coordinate s "lon" 0;
  nm ← get s "name";
  ci ← get s "city";
  st ← get s "state";
  pr ← get s "price";
  ad ← get s "address";
  ga ← get s "gallons_purchased";
  co ← get s "cost";
  mi ← get s "mile_on_route";
  Normal {| station_id := numberOrUndefined sid; lat := la; lon := lo;
            name := nm; city := ci; state := st;
            price := numberOrUndefined pr; address := ad;
            gallons_purchased := numberOrUndefined ga;
            cost := numberOrUndefined co;
            mile_on_route := numberOrUndefined mi |}.

(** [Array.isArray(res.stops) ? res.stops.map(...) : []] *)
Definition stopPoints (res : JsVal) : Completion (list StopPoint) :=
  stops ← get res "stops";
  match stops with
  | JArr items => mapM toStopPoint items
  | _ => Normal []
  end.

Section WithEngine.
Context (E : Engine).

(** [v?.toFixed?.(6) ?? ''].  Only numbers inherit [toFixed]; an object
    parsed from JSON may own a property of that name, which is then called
    although it is no function. *)
Definition fixed6 (v : JsVal) : Completion string :=
  match v with
  | JNum x => Normal (Number_toFixed6 E x)
  | JObj props =>
      if nullish (own props "toFixed") then Normal ""
      else Throw (EngineTypeError "toFixed is not a function")
  | _ => Normal ""
  end.

(** The identity key of a stop. *)
Definition key (s : StopPoint) : Completion string :=
  match station_id s with
  | Some n => Normal ("id:" +:+ Number_toString E n)
  | None =>
      a ← fixed6 (lat s);
      o ← fixed6 (lon s);
      Normal ("ll:" +:+ a +:+ "," +:+ o)
  end.

(** The loop [for (const s of stopPts)] with its two accumulators. *)
Fixpoint dedupeLoop (stopPts : list StopPoint) (seen : gset string)
    (dedup : list StopPoint) : Completion (list StopPoint) :=
  match stopPts with
  | [] => Normal dedup
  | s :: rest =>
      k ← key s;
      if decide (k ∈ seen) then dedupeLoop rest seen dedup
      else dedupeLoop rest ({[k]} ∪ seen) (dedup ++ [s])
  end.

Definition dedupe (stopPts : list StopPoint) : Completion (list StopPoint) :=
  dedupeLoop stopPts ∅ [].

(** The key of a stop whose key computation does not throw. *)
Definition keyOf (s : StopPoint) : string :=
  match key s with
  | Normal k => k
  | Throw _ => ""
  end.

End WithEngine.

(** A stop as the interface declares it: position fields are numbers or
    [undefined]. *)
Definition typed (s : StopPoint) : Prop :=
  (isNumber (lat s) = true \/ lat s = JUndefined) /\
  (isNumber (lon s) = true \/ lon s = JUndefined).

End Stops.

(** ** API client (api.ts) *)
Module Api.

(** What [fetch] and [res.text()] give back for one call. *)
Inductive FetchOutcome : Type :=
| FetchRejected (e : Thrown)
| BodyRejected (status : nat) (e : Thrown)
| Responded (status : nat) (text : string).

(** [res.ok] *)
Definition ok (status : nat) : bool :=
  bool_decide (200 <= status <= 299).

(** [new Error(message)] *)
Definition Error (message : string) : Thrown := ErrorObj "Error" message.

Section WithEngine.
Context (E : Engine).

(** POST /api/plan-route/, from [await fetch(...)] on. *)
Definition planRoute (out : FetchOutcome) : Completion JsVal :=
  match out with
  | FetchRejected e => Throw e
  | BodyRejected _ e => Throw e
  | Responded status text =>
      if negb (ok status) then
        Throw (Error ("Request failed (" +:+ dec status +:+ "): " +:+ text))
      else
        match JSON_parse E text with
        | Some v => Normal v
        | None =>
            Throw (Error ("Invalid JSON response: "
                          +:+ String.substring 0 200 text))
        end
  end.


End WithEngine.

End Api.

(** ** Request Reconciler: the component [App] (App.tsx) *)
Module App.
Import Stops.

(** The component's state cells and refs.  [aborted] and [pending] belong
    to the environment: the controllers on which [abort()] was called, and
    the calls of [planRoute] whose promise has not settled yet.  A call and
    its [AbortController] are named by the token minted for the call. *)
Record AppState : Type := {
  start : string;
  finish : string;
  startEmpty : bool;
  loading : bool;
  error : JsVal;
  route : list Geometry.LatLng;
  stops : list StopPoint;
  summary : JsVal;
  abortRef : option nat;
  reqIdRef : nat;
  aborted : list nat;
  pending : list nat
}.

Definition initial : AppState :=
  {| start := ""; finish := ""; startEmpty := true; loading := false;
     error := JNull; route := []; stops := []; summary := JNull;
     abortRef := None; reqIdRef := 0; aborted := []; pending := [] |}.

Definition setStart (v : string) (s : AppState) : AppState :=
  {| start := v; finish := finish s; startEmpty := startEmpty s;
     loading := loading s; error := error s; route := route s;
     stops := stops s; summary := summary s; abortRef := abortRef s;
     reqIdRef := reqIdRef s; aborted := aborted s; pending := pending s |}.

Definition setFinish (v : string) (s : AppState) : AppState :=
  {| start := start s; finish := v; startEmpty := startEmpty s;
     loading := loading s; error := error s; route := route s;
     stops := stops s; summary := summary s; abortRef := abortRef s;
     reqIdRef := reqIdRef s; aborted := aborted s; pending := pending s |}.

Definition setStartEmpty (v : bool) (s : AppState) : AppState :=
  {| start := start s; finish := finish s; startEmpty := v;
     loading := loading s; error := error s; route := route s;
     stops := stops s; summary := summary s; abortRef := abortRef s;
     reqIdRef := reqIdRef s; aborted := aborted s; pending := pending s |}.

Definition setLoading (v : bool) (s : AppState) : AppState :=
  {| start := start s; finish := finish s; startEmpty := startEmpty s;
     loading := v; error := error s; route := route s;
     stops := stops s; summary := summary s; abortRef := abortRef s;
     reqIdRef := reqIdRef s; aborted := aborted s; pending := pending s |}.

Definition setError (v : JsVal) (s : AppState) : AppState :=
  {| start := start s; finish := finish s; startEmpty := startEmpty s;
     loading := loading s; error := v; route := route s;
     stops := stops s; summary := summary s; abortRef := abortRef s;
     reqIdRef := reqIdRef s; aborted := aborted s; pending := pending s |}.

Definition setRoute (v : list Geometry.LatLng) (s : AppState) : AppState :=
  {| start := start s; finish := finish s; startEmpty := startEmpty s;
     loading := loading s; error := error s; route := v;
     stops := stops s; summary := summary s; abortRef := abortRef s;
     reqIdRef := reqIdRef s; aborted := aborted s; pending := pending s |}.

Definition setStops (v : list StopPoint) (s : AppState) : AppState :=
  {| start := start s; finish := finish s; startEmpty := startEmpty s;
     loading := loading s; error := error s; route := route s;
     stops := v; summary := summary s; abortRef := abortRef s;
     reqIdRef := reqIdRef s; aborted := aborted s; pending := pending s |}.

Definition setSummary (v : JsVal) (s : AppState) : AppState :=
  {| start := start s; finish := finish s; startEmpty := startEmpty s;
     loading := loading s; error := error s; route := route s;
     stops := stops s; summary := v; abortRef := abortRef s;
     reqIdRef := reqIdRef s; aborted := aborted s; pending := pending s |}.

(** [abortRef.current?.abort()] *)
Definition abortCurrent (s : AppState) : AppState :=
  match abortRef s with
  | None => s
  | Some ac =>
      {| start := start s; finish := finish s; startEmpty := startEmpty s;
         loading := loading s; error := error s; route := route s;
         stops := stops s; summary := summary s; abortRef := abortRef s;
         reqIdRef := reqIdRef s; aborted := ac :: aborted s;
         pending := pending s |}
  end.

(** [const ac = new AbortController(); abortRef.current = ac;
    const myId = ++reqIdRef.current], and the call of [planRoute] with
    [ac.signal], which stays pending until its promise settles. *)
Definition issue (s : AppState) : AppState :=
  let myId := S (reqIdRef s) in
  {| start := start s; finish := finish s; startEmpty := startEmpty s;
     loading := loading s; error := error s; route := route s;
     stops := stops s; summary := summary s; abortRef := Some myId;
     reqIdRef := myId; aborted := aborted s; pending := myId :: pending s |}.

Definition settle (myId : nat) (s : AppState) : AppState :=
  {| start := start s; finish := finish s; startEmpty := startEmpty s;
     loading := loading s; error := error s; route := route s;
     stops := stops s; summary := summary s; abortRef := abortRef s;
     reqIdRef := reqIdRef s; aborted := aborted s;
     pending := filter (fun t => t <> myId) (pending s) |}.

(** [onSubmit] up to its [await]. *)
Definition onSubmit (s : AppState) : AppState :=
  let s := setStops [] (setRoute [] (setSummary JNull (setError JNull s))) in
  if String.eqb (start s) "" || String.eqb (finish s) "" then
    setError (JStr "Please enter both Start and Finish.") s
  else
    setLoading true (issue (abortCurrent s)).

(** Statements that write the state and may throw. *)
Definition Eff (A : Type) : Type := AppState -> AppState * Completion A.

#[export] Instance eff_ret : MRet Eff := fun A a s => (s, Normal a).
#[export] Instance eff_bind : MBind Eff :=
  fun A B k m s =>
    match m s with
    | (s', Normal a) => k a s'
    | (s', Throw e) => (s', Throw e)
    end.

Definition lift {A} (c : Completion A) : Eff A := fun s => (s, c).
Definition write (f : AppState -> AppState) : Eff unit :=
  fun s => (f s, Normal tt).
Definition readReqId : Eff nat := fun s => (s, Normal (reqIdRef s)).

Section WithEngine.
Context (E : Engine).

(** [err?.message || String(err)] for a thrown error object. *)
Definition errorText (e : Thrown) : string :=
  match e with
  | ErrorObj n m => if String.eqb m "" then n else m
  | EngineTypeError site =>
      if String.eqb (typeErrorMessage E site) "" then "TypeError"
      else typeErrorMessage E site
  end.

(** [res.route?.geometry] *)
Definition routeGeometry (res : JsVal) : Completion JsVal :=
  rt ← get res "route";
  if nullish rt then Normal JUndefined else get rt "geometry".

(** The [try] block of [onSubmit] from the point where [await planRoute]
    settles with [r], for the call that captured [myId]. *)
Definition afterAwait (myId : nat) (r : Completion JsVal) : Eff unit :=
  res ← lift r;
  err ← lift (get res "error");
  _ ← (if truthy err then write (setError err) else mret tt);
  cur ← readReqId;
  if negb (Nat.eqb cur myId) then mret tt
  else
    geometry ← lift (routeGeometry res);
    latlngs ← lift (Geometry.toLatLngs geometry);
    _ ← write (setRoute latlngs);
    stopPts ← lift (stopPoints res);
    dedup ← lift (dedupe E stopPts);
    _ ← write (setStops dedup);
    sm ← lift (get res "summary");
    write (setSummary (if truthy sm then sm else JNull)).

(** The whole continuation: [try { ... } catch (err) { setError(...) }
    finally { setLoading(false) }]. *)
Definition onSettled (myId : nat) (r : Completion JsVal) (s : AppState)
    : AppState :=
  let '(s1, c) := afterAwait myId r s in
  let s2 := match c with
            | Normal _ => s1
            | Throw e => setError (JStr (errorText e)) s1
            end in
  setLoading false s2.

(** What can happen to the component: the inputs change, the form is
    submitted, or a pending call of [planRoute] settles. *)
Inductive Event : Type :=
| ChangeStart (v : string)
| ChangeFinish (v : string)
| ChangeStartEmpty (v : bool)
| Submit
| Settle (myId : nat) (r : Completion JsVal).

Definition step (s : AppState) (ev : Event) : AppState :=
  match ev with
  | ChangeStart v => setStart v s
  | ChangeFinish v => setFinish v s
  | ChangeStartEmpty v => setStartEmpty v s
  | Submit => onSubmit s
  | Settle myId r =>
      if bool_decide (myId ∈ pending s) then onSettled myId r (settle myId s)
      else s
  end.

Definition run (s : AppState) (evs : list Event) : AppState :=
  fold_left step evs s.

End WithEngine.

(** The displayed result: route, stops and summary. *)
Definition display (s : AppState)
    : list Geometry.LatLng * list StopPoint * JsVal :=
  (route s, stops s, summary s).

Definition isSubmit (ev : Event) : bool :=
  match ev with
  | Submit => true
  | _ => false
  end.

Definition settles (myId : nat) (ev : Event) : bool :=
  match ev with
  | Settle t _ => Nat.eqb t myId
  | _ => false
  end.

(** An event that submits nothing and does not settle the call [b]. *)
Definition quiet (b : nat) (ev : Event) : Prop :=
  isSubmit ev = false /\ settles b ev = false.

(** The cells the continuation of a call never writes. *)
Definition sameRefs (s s' : AppState) : Prop :=
  start s' = start s /\ finish s' = finish s /\
  startEmpty s' = startEmpty s /\ abortRef s' = abortRef s /\
  reqIdRef s' = reqIdRef s /\ aborted s' = aborted s /\
  pending s' = pending s.

End App.

(** ** Suggestion lookup: the [catch]/[finally] of [CityAutocomplete] *)
Module CityAutocomplete.

Record AcState : Type := {
  open : bool;
  loading : bool;
  error : JsVal;
  items : list string;
  activeIndex : Z
}.

(** [err?.name] *)
Definition errorName (e : Thrown) : string :=
  match e with
  | ErrorObj n _ => n
  | EngineTypeError _ => "TypeError"
  end.

(** [catch (err) { if (err?.name === 'AbortError') return; setError(...);
    setItems([]); setOpen(false) } finally { setLoading(false) }] *)
Definition onLookupFailed (E : Engine) (e : Thrown) (s : AcState) : AcState :=
  if String.eqb (errorName e) "AbortError" then
    {| open := open s; loading := false; error := error s;
       items := items s; activeIndex := activeIndex s |}
  else
    {| open := false; loading := false;
       error := JStr (App.errorText E e);
       items := []; activeIndex := activeIndex s |}.

(** The lookup from [await fetch(url, { signal })] on, up to the parsed
    body: an unsuccessful status throws with the body text, and
    [res.json()] rejects with the engine's [SyntaxError] when the body is
    no JSON. *)
Definition lookup (E : Engine) (out : Api.FetchOutcome) : Completion JsVal :=
  match out with
  | Api.FetchRejected e => Throw e
  | Api.BodyRejected _ e => Throw e
  | Api.Responded status text =>
      if negb (Api.ok status) then
        Throw (Api.Error ("Autocomplete failed (" +:+ dec status +:+ "): "
                          +:+ text))
      else
        match JSON_parse E text with
        | Some v => Normal v
        | None => Throw (ErrorObj "SyntaxError" (syntaxErrorMessage E text))
        end
  end.

End CityAutocomplete.

(** ** The outbound calls of the front end *)
Module Outbound.





End Outbound.

(** ** Vocabulary of the specification *)
Module Spec.
Import Geometry.

(** Shape detection as the payload description has it: the first element's
    first element is itself a sequence. *)
Definition isNested (coords : list JsVal) : bool :=
  match coords with
  | JArr (JArr _ :: _) :: _ => true
  | _ => false
  end.

(** The elements of a line. *)
Definition elements (line : JsVal) : list JsVal :=
  match line with
  | JArr pts => pts
  | _ => []
  end.

(** The source points of a payload: the elements of a flat list, or of
    every line of a nested one, in order. *)
Definition sourcePoints (coords : list JsVal) : list JsVal :=
  if isNested coords then concat (map elements coords) else coords.

(** The number of numeric components of a point. *)
Definition numericComponents (pt : JsVal) : nat :=
  match pt with
  | JArr items => length (filter (fun c => isNumber c = true) items)
  | _ => 0
  end.

(** A point with at least two numeric components. *)
Definition hasTwoNumeric (pt : JsVal) : Prop := 2 <= numericComponents pt.

#[export] Instance hasTwoNumeric_dec pt : Decision (hasTwoNumeric pt).
Proof. unfold hasTwoNumeric. apply _. Defined.

(** A point whose components, if it is a sequence, are all numbers. *)
Definition numbersOnly (pt : JsVal) : Prop :=
  match pt with
  | JArr items => Forall (fun c => isNumber c = true) items
  | _ => True
  end.

(** A source point's [i]-th component. *)
Definition component (i : nat) (pt : JsVal) : JsVal :=
  match pt with
  | JArr items => nth i items JUndefined
  | _ => JUndefined
  end.

(** Order-preserving deduplication in which the first occurrence of each
    key wins: keep the head, and drop from the rest every record with the
    head's key. *)
Fixpoint firstOccurrences {A} (kf : A -> string) (l : list A) : list A :=
  match l with
  | [] => []
  | s :: rest =>
      s :: filter (fun t => kf t <> kf s) (firstOccurrences kf rest)
  end.

(** The spelling of a position field in the identity key: the number
    rounded to six decimals, and nothing for a field that holds no
    number. *)
Definition rounded (E : Engine) (v : JsVal) : string :=
  match v with
  | JNum x => Number_toFixed6 E x
  | _ => ""
  end.

(** The identity key of a stop record, in the words of the Stop
    Deduplicator's description: "id:" and the station id when the station
    id is a number; otherwise "ll:", the latitude rounded to six decimals,
    a comma and the longitude rounded to six decimals, on the literal,
    possibly undefined, values. *)
Definition identityKey (E : Engine) (s : Stops.StopPoint) : string :=
  match Stops.station_id s with
  | Some n => "id:" +:+ Number_toString E n
  | None =>
      "ll:" +:+ rounded E (Stops.lat s) +:+ "," +:+ rounded E (Stops.lon s)
  end.




(** A Coordinate of the data model: both components are finite numbers. *)
Definition finitePoint (p : MapView.LatLng) : Prop :=
  is_finite p.1 = true /\ is_finite p.2 = true.

(** Axis swap: latitude (second component) first. *)
Definition swapped (pt : JsVal) : LatLng := (component 1 pt, component 0 pt).

End Spec.

(** ** The plan-route scenario of the specification *)

(** The geometry of the plan-route scenario of the specification. *)
Definition scenarioGeometry : JsVal :=
  JObj [("type", JStr "LineString");
        ("coordinates",
         JArr [JArr [JNum (-104.9)%float; JNum 39.7%float];
               JArr [JNum (-104.8)%float; JNum 39.8%float]])].

(** The two stops of the plan-route scenario of the specification. *)
Definition scenarioStop (label : string) : Stops.StopPoint :=
  {| Stops.station_id := Some 1%float;
     Stops.lat := JNum 39.75%float; Stops.lon := JNum (-104.85)%float;
     Stops.name := JStr label; Stops.city := JUndefined; Stops.state := JUndefined;
     Stops.price := None; Stops.address := JUndefined; Stops.gallons_purchased := None;
     Stops.cost := None; Stops.mile_on_route := None |}.

(** The response of the plan-route scenario of the specification. *)
Definition scenarioStopJson (label : string) : JsVal :=
  JObj [("station_id", JNum 1%float); ("lat", JNum 39.75%float);
        ("lon", JNum (-104.85)%float); ("name", JStr label)].

Definition scenarioResponse : JsVal :=
  JObj [("route", JObj [("geometry", scenarioGeometry)]);
        ("stops", JArr [scenarioStopJson "Stop A";
                        scenarioStopJson "Stop A dup"])].

Definition fillForm : list App.Event :=
  [App.ChangeStart "Denver, CO"; App.ChangeFinish "Kansas City, MO"].

(** ** Further vocabulary: segments of the classifier, states of the
    reconciler *)
Module Segments.
Import MapView.

(** A contiguous stretch of a route. *)
Definition stretchOf (route seg : list LatLng) : Prop :=
  exists pre post, route = (pre ++ seg ++ post)%list.

(** A run whose points after the first are all classified as the run is. *)
Definition classifiedAs (near : LatLng -> bool) (r : bool * list LatLng)
    : Prop :=
  Forall (fun p => near p = r.1) (drop 1 r.2).

(** What the classification loop keeps true while it walks the detour. *)
Record Walk (near : LatLng -> bool) (d : list LatLng) (k : nat) (st : Loop)
    : Prop := {
  walk_suffix : exists pre, take k d = (pre ++ current st)%list;
  walk_runs : Forall (fun r => stretchOf (take k d) r.2) (runs st);
  walk_colours : Forall (classifiedAs near) (runs st);
  walk_current :
    Forall (fun p => near p = currentIsGreen st) (drop 1 (current st))
}.

End Segments.

Module Reconciler.
Import App.

(** What the component keeps true of its tokens, its pending calls and its
    controllers. *)
Record reconciled (s : AppState) : Prop := {
  rec_nodup : NoDup (pending s);
  rec_minted : Forall (fun t => 1 <= t <= reqIdRef s) (pending s);
  rec_superseded :
    Forall (fun t => t = reqIdRef s \/ t ∈ aborted s) (pending s);
  rec_active :
    abortRef s = if Nat.eqb (reqIdRef s) 0 then None else Some (reqIdRef s);
  rec_latest_alive : Forall (fun t => t < reqIdRef s) (aborted s)
}.

End Reconciler.

Module FloatOrder.

(** The comparison of the magnitudes of two finite binary64 numbers of the
    same sign, exponent first, as [SFcompare] makes it. *)
Definition magnitude (e1 : Z) (m1 : positive) (e2 : Z) (m2 : positive)
    : comparison :=
  match Z.compare e1 e2 with
  | Lt => Lt
  | Gt => Gt
  | Eq => Pos.compare_cont Eq m1 m2
  end.

End FloatOrder.

(** ** Text: the string methods the components use

    The strings of this part hold code units below 256.  Among these the
    white space and line terminators that [trim] removes are the code
    units 9 to 13, 32 and 160; the word characters of a regular expression
    are the ASCII letters, the digits and the underscore. *)
Module Text.
Import Stdlib.Strings.Ascii.

Definition code (c : ascii) : nat := nat_of_ascii c.

Definition isSpace (c : ascii) : bool :=
  (Nat.leb 9 (code c) && Nat.leb (code c) 13)
  || Nat.eqb (code c) 32 || Nat.eqb (code c) 160.

(** The class of the regular expression of the API key: the single quote
    and the double quote. *)
Definition isQuote (c : ascii) : bool :=
  Nat.eqb (code c) 39 || Nat.eqb (code c) 34.

Definition isUpper (c : ascii) : bool :=
  Nat.leb 65 (code c) && Nat.leb (code c) 90.

Definition isLower (c : ascii) : bool :=
  Nat.leb 97 (code c) && Nat.leb (code c) 122.

(** The class [[A-Za-z]]. *)
Definition isLetter (c : ascii) : bool := isUpper c || isLower c.

(** The class [\w]. *)
Definition isWord (c : ascii) : bool :=
  isLetter c || (Nat.leb 48 (code c) && Nat.leb (code c) 57)
  || Nat.eqb (code c) 95.

(** The longest suffix that does not start with a character of the class. *)
Fixpoint dropStart (p : ascii -> bool) (s : string) : string :=
  match s with
  | EmptyString => EmptyString
  | String c rest => if p c then dropStart p rest else s
  end.

(** The longest prefix that does not end with a character of the class. *)
Fixpoint dropEnd (p : ascii -> bool) (s : string) : string :=
  match s with
  | EmptyString => EmptyString
  | String c rest =>
      match dropEnd p rest with
      | EmptyString => if p c then EmptyString else String c EmptyString
      | kept => String c kept
      end
  end.

(** [s.trim()] *)
Definition trim (s : string) : string := dropEnd isSpace (dropStart isSpace s).

(** [s.replace(re, '')] for the global regular expression [re] of the API
    key, whose two alternatives are a run of quotes anchored at the start
    and a run of quotes anchored at the end: the first alternative matches
    the run of quotes the string starts with, the second one the run of
    quotes it ends with; every other position matches neither. *)
Definition stripQuotes (s : string) : string :=
  dropEnd isQuote (dropStart isQuote s).

(** [s.split(sep)] for a separator of one character. *)
Fixpoint split (sep : ascii) (s : string) : list string :=
  match s with
  | EmptyString => [EmptyString]
  | String c rest =>
      if Ascii.eqb c sep then EmptyString :: split sep rest
      else
        match split sep rest with
        | part :: parts => String c part :: parts
        | [] => [String c EmptyString]
        end
  end.

(** [toUpperCase] on a character; the program applies it to ASCII letters
    only. *)
Definition upper (c : ascii) : ascii :=
  if isLower c then ascii_of_nat (code c - 32) else c.

Fixpoint toUpperCase (s : string) : string :=
  match s with
  | EmptyString => EmptyString
  | String c rest => String (upper c) (toUpperCase rest)
  end.

(** The first and the last character of a string. *)
Definition first (s : string) : option ascii :=
  match s with
  | EmptyString => None
  | String c _ => Some c
  end.

Fixpoint final (s : string) : option ascii :=
  match s with
  | EmptyString => None
  | String c EmptyString => Some c
  | String _ rest => final rest
  end.

(** Every character of a string is of a class. *)
Fixpoint all (p : ascii -> bool) (s : string) : bool :=
  match s with
  | EmptyString => true
  | String c rest => p c && all p rest
  end.

End Text.

(** ** The map tiles and the API key (MapView.tsx, CityAutocomplete.tsx) *)
Module Tiles.
Import Stdlib.Strings.Ascii Text.

(** [apiKeyRaw ? apiKeyRaw.trim().replace(re, '') : undefined] for the
    value of [import.meta.env.VITE_GEOAPIFY_API_KEY]. *)
Definition apiKey (apiKeyRaw : option string) : option string :=
  match apiKeyRaw with
  | None => None
  | Some raw =>
      if String.eqb raw "" then None else Some (stripQuotes (trim raw))
  end.

(** [Boolean(apiKey && apiKey.length > 0)]: [useGeoapify] in MapView,
    [canAutocomplete] in CityAutocomplete. *)
Definition useGeoapify (apiKeyRaw : option string) : bool :=
  match apiKey apiKeyRaw with
  | None => false
  | Some k => negb (String.eqb k "") && Nat.ltb 0 (String.length k)
  end.

Definition canAutocomplete (apiKeyRaw : option string) : bool :=
  match apiKey apiKeyRaw with
  | None => false
  | Some k => negb (String.eqb k "") && Nat.ltb 0 (String.length k)
  end.

Definition geoapifyTiles : string :=
  "https://maps.geoapify.com/v1/tile/osm-bright/{z}/{x}/{y}.png?apiKey=".

Definition openStreetMapTiles : string :=
  "https://{s}.tile.openstreetmap.org/{z}/{x}/{y}.png".

Definition tileUrl (apiKeyRaw : option string) : string :=
  if useGeoapify apiKeyRaw then
    match apiKey apiKeyRaw with
    | Some k => geoapifyTiles +:+ k
    | None => geoapifyTiles +:+ "undefined"
    end
  else openStreetMapTiles.

End Tiles.

(** ** Marker labels (App.tsx, [formatCityState]) *)
Module Labels.
Import Stdlib.Strings.Ascii Text.

(** Whether a string starts with a word character. *)
Definition startsWithWord (s : string) : bool :=
  match s with
  | EmptyString => false
  | String c _ => isWord c
  end.

(** [last.match(/\b([A-Za-z]{2})\b/)]: the first two letters that stand
    between two word boundaries; [prevWord] tells whether the character
    before the string is a word character. *)
Fixpoint stateMatch (prevWord : bool) (s : string) : option string :=
  match s with
  | String a ((String b rest) as tail) =>
      if negb prevWord && isLetter a && isLetter b
         && negb (startsWithWord rest)
      then Some (String a (String b EmptyString))
      else stateMatch (isWord a) tail
  | _ => None
  end.

(** [raw.split(',').map((p) => p.trim()).filter(Boolean)] *)
Definition parts (raw : string) : list string :=
  filter (fun p => p <> "") (map trim (split ","%char raw)).

Definition formatCityState (raw : option string) : option string :=
  match raw with
  | None => None
  | Some r =>
      if String.eqb r "" then Some r
      else
        let ps := parts r in
        if Nat.leb 2 (length ps) then
          let last := nth (length ps - 1) ps "" in
          let state := option_map toUpperCase (stateMatch false last) in
          let city := nth (length ps - 2) ps "" in
          match state with
          | Some st =>
              if negb (String.eqb city "") && negb (String.eqb st "")
              then Some (city +:+ ", " +:+ st)
              else Some r
          | None => Some r
          end
        else Some r
  end.

End Labels.

(** What the label formatter is to compute, said without the functions
    that compute it. *)
Module LabelSpec.
Import Stdlib.Strings.Ascii Text.

(** A text without a comma. *)
Definition commaFree (s : string) : Prop :=
  all (fun c => negb (Ascii.eqb c ","%char)) s = true.

(** [t] is [s] without the white space around it. *)
Definition trimmedOf (s t : string) : Prop :=
  exists before after,
    s = before +:+ t +:+ after /\
    all isSpace before = true /\ all isSpace after = true /\
    (forall c, first t = Some c -> isSpace c = false) /\
    (forall c, final t = Some c -> isSpace c = false).

(** The character at a position of a text is a word character. *)
Definition wordAt (s : string) (k : nat) : bool :=
  match String.get k s with
  | Some c => isWord c
  | None => false
  end.

(** The character before a position is a word character; [prev] tells it
    for the position 0. *)
Definition wordBefore (prev : bool) (s : string) (i : nat) : bool :=
  match i with
  | 0 => prev
  | S j => wordAt s j
  end.

(** A two-letter word stands at position [i] of a text: two letters, with
    no word character right before them and none right after them. *)
Definition twoLetterWordFrom (prev : bool) (s : string) (i : nat) : Prop :=
  (exists a b, String.get i s = Some a /\ String.get (S i) s = Some b /\
               isLetter a = true /\ isLetter b = true) /\
  wordBefore prev s i = false /\ wordAt s (S (S i)) = false.

Definition twoLetterWordAt (s : string) (i : nat) : Prop :=
  twoLetterWordFrom false s i.

(** [C] is the letter [c] in upper case. *)
Definition capitalOf (c C : ascii) : Prop :=
  isUpper C = true /\ (C = c \/ code c = code C + 32).

End LabelSpec.

(** ** Stop markers (MapView.tsx) *)
Module Markers.
Import Stops.

(** [typeof s.lat === 'number' && typeof s.lon === 'number'] *)
Definition placed (s : StopPoint) : bool :=
  isNumber (lat s) && isNumber (lon s).

(** [s.station_id ?? idx]: the station id, or else the index of the marker
    among the markers. *)
Inductive Key : Type :=
| ById (station_id : float)
| ByIndex (idx : nat).

Record Marker : Type := {
  key : Key;
  position : JsVal * JsVal;
  stop : StopPoint
}.

Definition marker (idx : nat) (s : StopPoint) : Marker :=
  {| key := match station_id s with
            | Some n => ById n
            | None => ByIndex idx
            end;
     position := (lat s, lon s);
     stop := s |}.

(** [stops?.filter(...).map((s, idx) => <Marker ... />)] *)
Definition markers (stops : option (list StopPoint)) : list Marker :=
  match stops with
  | None => []
  | Some l => imap marker (filter (fun s => placed s = true) l)
  end.

End Markers.

(** ** The autocomplete input (CityAutocomplete.tsx)

    The component with the environment it talks to.  A timer is named by
    the id [setTimeout] returned for it, a lookup and its [AbortController]
    by a number counted from 1 in the order of creation. *)
Module Suggest.
Import Text.

(** *** The suggestions for a response *)

(** Whether an object has an own property of a name. *)
Definition hasOwn (props : list (string * JsVal)) (p : string) : bool :=
  existsb (fun kv => String.eqb kv.1 p) props.

Section WithEngine.
Context (E : Engine).

(** ToString, as [Array.prototype.join] applies it to an element.  An
    array is joined with commas, [null] and [undefined] elements giving
    the empty string; an object gives [[object Object]], unless it has an
    own property [toString], which then is no function. *)
Fixpoint toStr (v : JsVal) : Completion string :=
  match v with
  | JUndefined => Normal "undefined"
  | JNull => Normal "null"
  | JBool b => Normal (if b then "true" else "false")
  | JNum x => Normal (Number_toString E x)
  | JStr s => Normal s
  | JArr elems =>
      let fix each (l : list JsVal) : Completion (list string) :=
        match l with
        | [] => Normal []
        | x :: rest =>
            match (if nullish x then Normal "" else toStr x) with
            | Normal t =>
                match each rest with
                | Normal ts => Normal (t :: ts)
                | Throw e => Throw e
                end
            | Throw e => Throw e
            end
        end in
      match each elems with
      | Normal ts => Normal (String.concat "," ts)
      | Throw e => Throw e
      end
  | JObj props =>
      if hasOwn props "toString"
      then Throw (EngineTypeError "convert object to primitive value")
      else Normal "[object Object]"
  end.

(** [a || b] *)
Definition orElse (a b : JsVal) : JsVal := if truthy a then a else b.

(** The callback of [results.map]: the label of a result, which the
    callback wraps in an object when it is truthy. *)
Definition labelOf (r : JsVal) : Completion JsVal :=
  c ← get r "city";
  n ← get r "name";
  let city := orElse (orElse c n) (JStr "") in
  sc ← get r "state_code";
  st ← get r "state";
  let state := orElse (orElse sc st) (JStr "") in
  texts ← mapM toStr (filter (fun v => truthy v = true) [city; state]);
  let joined := String.concat ", " texts in
  f ← get r "formatted";
  Normal (orElse (orElse (JStr joined) f) (JStr "")).

(** SameValueZero, the equality of the elements of a [Set].  Two arrays
    or objects that come from different places of a parsed text are
    different objects. *)
Definition sameValueZero (a b : JsVal) : bool :=
  match a, b with
  | JUndefined, JUndefined => true
  | JNull, JNull => true
  | JBool x, JBool y => Bool.eqb x y
  | JNum x, JNum y =>
      PrimFloat.eqb x y || (PrimFloat.is_nan x && PrimFloat.is_nan y)
  | JStr x, JStr y => String.eqb x y
  | _, _ => false
  end.

(** [Array.from(new Set(labels))]: the elements in the order of their
    first insertion. *)
Fixpoint uniqueFrom (kept labels : list JsVal) : list JsVal :=
  match labels with
  | [] => kept
  | l :: rest =>
      if existsb (sameValueZero l) kept then uniqueFrom kept rest
      else uniqueFrom (kept ++ [l]) rest
  end.

(** The labels of the suggestions for the parsed body [data]. *)
Definition suggestions (data : JsVal) : Completion (list JsVal) :=
  rs ← (if nullish data then Normal JUndefined else get data "results");
  let results := match rs with
                 | JArr l => l
                 | _ => []
                 end in
  labels ← mapM labelOf results;
  Normal (uniqueFrom [] (filter (fun l => truthy l = true) labels)).

End WithEngine.

(** *** The component *)

(** The state cells. *)
Record Cells : Type := {
  open : bool;
  loading : bool;
  error : JsVal;
  items : list JsVal;
  activeIndex : Z
}.

(** The component: the [value] it was last rendered with, its cells and
    refs, whether the effect of the last render returned its cleanup, and
    of the environment the timers that are set and have neither fired nor
    been cleared (with the query their callback holds), the controllers
    that were aborted, the lookups that have not settled (with their query)
    and the calls the component made of its [onChange] prop. *)
Record Widget : Type := {
  value : string;
  cells : Cells;
  acRef : option nat;
  debRef : option nat;
  cleanup : bool;
  timers : list (nat * string);
  timerIds : nat;
  controllers : nat;
  aborted : list nat;
  inflight : list (nat * string);
  changes : list JsVal
}.

Definition closed : Cells :=
  {| open := false; loading := false; error := JNull; items := [];
     activeIndex := (-1)%Z |}.

Definition pristine : Widget :=
  {| value := ""; cells := closed; acRef := None; debRef := None;
     cleanup := false; timers := []; timerIds := 0; controllers := 0;
     aborted := []; inflight := []; changes := [] |}.

Definition setCells (f : Cells -> Cells) (s : Widget) : Widget :=
  {| value := value s; cells := f (cells s); acRef := acRef s;
     debRef := debRef s; cleanup := cleanup s; timers := timers s;
     timerIds := timerIds s; controllers := controllers s;
     aborted := aborted s; inflight := inflight s; changes := changes s |}.

Definition setValue (v : string) (s : Widget) : Widget :=
  {| value := v; cells := cells s; acRef := acRef s;
     debRef := debRef s; cleanup := cleanup s; timers := timers s;
     timerIds := timerIds s; controllers := controllers s;
     aborted := aborted s; inflight := inflight s; changes := changes s |}.

Definition setCleanup (b : bool) (s : Widget) : Widget :=
  {| value := value s; cells := cells s; acRef := acRef s;
     debRef := debRef s; cleanup := b; timers := timers s;
     timerIds := timerIds s; controllers := controllers s;
     aborted := aborted s; inflight := inflight s; changes := changes s |}.

(** [window.clearTimeout(id)] *)
Definition clearTimeout (id : nat) (s : Widget) : Widget :=
  {| value := value s; cells := cells s; acRef := acRef s;
     debRef := debRef s; cleanup := cleanup s;
     timers := filter (fun t => t.1 <> id) (timers s);
     timerIds := timerIds s; controllers := controllers s;
     aborted := aborted s; inflight := inflight s; changes := changes s |}.

(** [if (debRef.current) window.clearTimeout(debRef.current)] *)
Definition clearDebounce (s : Widget) : Widget :=
  match debRef s with
  | Some id => clearTimeout id s
  | None => s
  end.

(** [debRef.current = window.setTimeout(callback, 200)], the callback
    holding the query [q]. *)
Definition setTimeout (q : string) (s : Widget) : Widget :=
  let id := S (timerIds s) in
  {| value := value s; cells := cells s; acRef := acRef s;
     debRef := Some id; cleanup := cleanup s;
     timers := (id, q) :: timers s;
     timerIds := id; controllers := controllers s;
     aborted := aborted s; inflight := inflight s; changes := changes s |}.

(** [acRef.current?.abort()] *)
Definition abortActive (s : Widget) : Widget :=
  match acRef s with
  | None => s
  | Some c =>
      {| value := value s; cells := cells s; acRef := acRef s;
         debRef := debRef s; cleanup := cleanup s; timers := timers s;
         timerIds := timerIds s; controllers := controllers s;
         aborted := c :: aborted s; inflight := inflight s;
         changes := changes s |}
  end.

(** [const ac = new AbortController(); acRef.current = ac] and the call
    of [fetch] with [ac.signal] for the query [q]. *)
Definition fetchWith (q : string) (s : Widget) : Widget :=
  let c := S (controllers s) in
  {| value := value s; cells := cells s; acRef := Some c;
     debRef := debRef s; cleanup := cleanup s; timers := timers s;
     timerIds := timerIds s; controllers := c;
     aborted := aborted s; inflight := (c, q) :: inflight s;
     changes := changes s |}.

Definition settled (c : nat) (s : Widget) : Widget :=
  {| value := value s; cells := cells s; acRef := acRef s;
     debRef := debRef s; cleanup := cleanup s; timers := timers s;
     timerIds := timerIds s; controllers := controllers s;
     aborted := aborted s;
     inflight := filter (fun l => l.1 <> c) (inflight s);
     changes := changes s |}.

(** [onChange(label)] *)
Definition callOnChange (label : JsVal) (s : Widget) : Widget :=
  {| value := value s; cells := cells s; acRef := acRef s;
     debRef := debRef s; cleanup := cleanup s; timers := timers s;
     timerIds := timerIds s; controllers := controllers s;
     aborted := aborted s; inflight := inflight s;
     changes := changes s ++ [label] |}.

Definition setOpen (b : bool) (c : Cells) : Cells :=
  {| open := b; loading := loading c; error := error c; items := items c;
     activeIndex := activeIndex c |}.

Definition setLoading (b : bool) (c : Cells) : Cells :=
  {| open := open c; loading := b; error := error c; items := items c;
     activeIndex := activeIndex c |}.

Definition setError (e : JsVal) (c : Cells) : Cells :=
  {| open := open c; loading := loading c; error := e; items := items c;
     activeIndex := activeIndex c |}.

Definition setItems (l : list JsVal) (c : Cells) : Cells :=
  {| open := open c; loading := loading c; error := error c; items := l;
     activeIndex := activeIndex c |}.

Definition setActiveIndex (i : Z) (c : Cells) : Cells :=
  {| open := open c; loading := loading c; error := error c;
     items := items c; activeIndex := i |}.

Inductive Key : Type := ArrowDown | ArrowUp | Enter | Escape | OtherKey.

(** What can happen to the component: it is rendered with a value, a timer
    fires, a lookup settles, a key is pressed in the input, the pointer
    enters or presses a row of the list, the input is focused, the pointer
    is pressed outside the component. *)
Inductive Event : Type :=
| Render (v : string)
| TimerFires (id : nat)
| Settles (c : nat) (out : Api.FetchOutcome)
| KeyDown (k : Key)
| MouseEnter (idx : nat)
| MouseDown (idx : nat)
| Focus
| ClickOutside.

Section Component.
Context (E : Engine) (apiKeyRaw : option string).

(** The body of the second effect, for the value the component is rendered
    with. *)
Definition effect (s : Widget) : Widget :=
  if negb (Tiles.canAutocomplete apiKeyRaw) then setCleanup false s
  else
    let q := trim (value s) in
    if Nat.ltb (String.length q) 2 then
      setCleanup false
        (abortActive
           (setCells (fun c => setError JNull (setLoading false
                                 (setOpen false (setItems [] c)))) s))
    else setCleanup true (setTimeout q (clearDebounce s)).

(** A render: the effect runs again when [value] has changed, after the
    cleanup the effect returned the time before, if it returned one. *)
Definition render (v : string) (s : Widget) : Widget :=
  if String.eqb v (value s) then s
  else effect (setValue v (if cleanup s then clearDebounce s else s)).

(** The callback of the timer, up to its [await fetch]. *)
Definition onTimer (q : string) (s : Widget) : Widget :=
  setCells (fun c => setError JNull (setLoading true c))
    (fetchWith q (abortActive s)).

(** The callback of the timer from the point where [fetch] settles. *)
Definition onSettled (out : Api.FetchOutcome) (c : Cells) : Cells :=
  match data ← CityAutocomplete.lookup E out; suggestions E data with
  | Normal unique =>
      setLoading false
        (setActiveIndex (-1)
           (setOpen (Nat.ltb 0 (length unique)) (setItems unique c)))
  | Throw e =>
      if String.eqb (CityAutocomplete.errorName e) "AbortError"
      then setLoading false c
      else
        setLoading false
          (setOpen false
             (setItems [] (setError (JStr (App.errorText E e)) c)))
  end.

(** [onKeyDown]: the cells after the key, the call of [onChange] it makes
    and whether it prevents the default action of the key. *)
Definition onKeyDown (k : Key) (c : Cells) : Cells * option JsVal * bool :=
  let n := Z.of_nat (length (items c)) in
  if negb (open c) || Z.eqb n 0 then (c, None, false)
  else
    match k with
    | ArrowDown =>
        (setActiveIndex (Z.rem (activeIndex c + 1) n) c, None, true)
    | ArrowUp =>
        (setActiveIndex (Z.rem (activeIndex c - 1 + n) n) c, None, true)
    | Enter =>
        if Z.leb 0 (activeIndex c) && Z.ltb (activeIndex c) n then
          (setActiveIndex (-1) (setOpen false c),
           Some (nth (Z.to_nat (activeIndex c)) (items c) JUndefined), true)
        else (c, None, false)
    | Escape => (setActiveIndex (-1) (setOpen false c), None, false)
    | OtherKey => (c, None, false)
    end.

Definition step (s : Widget) (ev : Event) : Widget :=
  match ev with
  | Render v => render v s
  | TimerFires id =>
      match list_find (fun t => t.1 = id) (timers s) with
      | Some (_, (_, q)) => onTimer q (clearTimeout id s)
      | None => s
      end
  | Settles c out =>
      if bool_decide (c ∈ map fst (inflight s))
      then setCells (onSettled out) (settled c s)
      else s
  | KeyDown k =>
      if Tiles.canAutocomplete apiKeyRaw then
        match onKeyDown k (cells s) with
        | (c, Some label, _) => callOnChange label (setCells (fun _ => c) s)
        | (c, None, _) => setCells (fun _ => c) s
        end
      else s
  | MouseEnter idx =>
      if open (cells s) && Nat.ltb idx (length (items (cells s)))
      then setCells (setActiveIndex (Z.of_nat idx)) s
      else s
  | MouseDown idx =>
      if open (cells s) && Nat.ltb idx (length (items (cells s)))
      then callOnChange (nth idx (items (cells s)) JUndefined)
             (setCells (fun c => setActiveIndex (-1) (setOpen false c)) s)
      else s
  | Focus =>
      if Tiles.canAutocomplete apiKeyRaw
         && Nat.ltb 0 (length (items (cells s)))
      then setCells (setOpen true) s
      else s
  | ClickOutside =>
      if Tiles.canAutocomplete apiKeyRaw
      then setCells (fun c => setActiveIndex (-1) (setOpen false c)) s
      else s
  end.

Definition run (s : Widget) (evs : list Event) : Widget :=
  fold_left step evs s.

(** The component once mounted with an empty value. *)
Definition mounted : Widget := effect pristine.

End Component.

End Suggest.

(** What the autocomplete input keeps true. *)
Module Wiring.
Import Text Suggest.

(** Of its timer, its controllers and its lookups. *)
Record wired (s : Widget) : Prop := {
  w_timers :
    timers s = [] \/
    exists id, timers s = [(id, trim (value s))] /\ debRef s = Some id /\
               cleanup s = true /\ 2 <= String.length (trim (value s));
  w_nodup : NoDup (map fst (inflight s));
  w_lookups :
    Forall (fun l => 1 <= l.1 <= controllers s /\
                     (acRef s = Some l.1 \/ l.1 ∈ aborted s) /\
                     2 <= String.length l.2 /\ trim l.2 = l.2)
      (inflight s);
  w_active :
    acRef s = if Nat.eqb (controllers s) 0 then None
              else Some (controllers s)
}.

(** Of its list. *)
Record tidy (c : Cells) : Prop := {
  t_open : open c = true -> items c <> [];
  t_index :
    items c <> [] ->
    (-1 <= activeIndex c < Z.of_nat (length (items c)))%Z
}.

(** A result as the geocoding service documents it: an object whose
    [city], [name], [state_code], [state] and [formatted] are strings or
    absent. *)
Definition textOrAbsent (v : JsVal) : Prop :=
  match v with
  | JStr _ | JUndefined | JNull => True
  | _ => False
  end.

Definition plainResult (r : JsVal) : Prop :=
  exists props, r = JObj props /\
    Forall (fun p => textOrAbsent (own props p))
      ["city"; "name"; "state_code"; "state"; "formatted"].

(** The text of a field, empty when the field is absent. *)
Definition text (v : JsVal) : string :=
  match v with
  | JStr t => t
  | _ => ""
  end.

(** The first of two fields that has a text. *)
Definition firstText (a b : JsVal) : string :=
  if String.eqb (text a) "" then text b else text a.

(** The label of a documented result, in words: "city, state" when the
    result names both, the one it names when it names one, and its
    formatted address when it names neither. *)
Definition labelText (r : JsVal) : string :=
  match r with
  | JObj props =>
      let city := firstText (own props "city") (own props "name") in
      let state := firstText (own props "state_code") (own props "state") in
      if String.eqb city "" then
        if String.eqb state "" then text (own props "formatted") else state
      else if String.eqb state "" then city
      else city +:+ ", " +:+ state
  | _ => ""
  end.

End Wiring.

(** ** The form (App.tsx, the returned markup) *)
Module Form.
Import App.

(** The submit button is rendered with [disabled={loading}], and a form
    whose submit button is disabled is not submitted, neither by a click
    nor by the Enter key in one of its inputs. *)
Definition enabled (s : AppState) (ev : Event) : bool :=
  match ev with
  | Submit => negb (loading s)
  | _ => true
  end.

(** An event as the form lets it through. *)
Definition throughForm (E : Engine) (s : AppState) (ev : Event) : AppState :=
  if enabled s ev then step E s ev else s.

Definition session (E : Engine) (evs : list Event) : AppState :=
  fold_left (throughForm E) evs initial.

End Form.

(** * Properties *)

(** ** Geometry Normalizer *)
Section GeometryProps.
Import Geometry Spec.

Lemma mapM_swapAxes (pts : list JsVal) :
  Forall (fun pt => isPoint pt = true) pts ->
  mapM swapAxes pts = Normal (map swapped pts).
Proof.
  induction 1 as [|pt pts Hpt _ IH]; [reflexivity|].
  destruct pt; try discriminate.
  cbn [mapM]. rewrite IH. reflexivity.
Qed.

Lemma filter_isPoint_concat (lines : list JsVal) :
  concat (map linePoints lines)
  = filter (fun pt => isPoint pt = true) (concat (map elements lines)).
Proof.
  induction lines as [|line lines IH]; [reflexivity|].
  cbn [map concat]. rewrite filter_app, <- IH.
  destruct line; reflexivity.
Qed.

Lemma isPoint_numbersOnly (pt : JsVal) :
  numbersOnly pt -> (isPoint pt = true <-> hasTwoNumeric pt).
Proof.
  unfold hasTwoNumeric.
  destruct pt; cbn; try (intros _; split; [discriminate | lia]).
  intros Hall. rewrite bool_decide_eq_true.
  enough (filter (fun c => isNumber c = true) items = items) as -> by tauto.
  induction Hall as [|c cs Hc _ IH]; [reflexivity|].
  rewrite filter_cons_True by done. by rewrite IH.
Qed.

(** The normalizer on a payload whose [coordinates] is an array. *)
Lemma toLatLngs_array (props : list (string * JsVal)) (coords : list JsVal) :
  own props "coordinates" = JArr coords ->
  toLatLngs (JObj props)
  = Normal (map swapped
              (filter (fun pt => isPoint pt = true) (sourcePoints coords))).
Proof.
  intros Hc.
  assert (Hflat : forall pts,
    mapM swapAxes (filter (fun pt => isPoint pt = true) pts)
    = Normal (map swapped (filter (fun pt => isPoint pt = true) pts))).
  { intros pts. apply mapM_swapAxes, list.Forall_forall. intros pt Hin.
    apply list_elem_of_filter in Hin. tauto. }
  unfold toLatLngs. cbn -[filter mapM]. rewrite Hc.
  unfold sourcePoints.
  destruct coords as [|[| | | | |[|[] ?]|] ?];
    cbn -[filter mapM linePoints elements concat map]; try apply Hflat.
  rewrite filter_isPoint_concat. apply Hflat.
Qed.

Lemma filter_isPoint_numeric (pts : list JsVal) :
  Forall numbersOnly pts ->
  filter (fun pt => isPoint pt = true) pts = filter hasTwoNumeric pts.
Proof.
  induction 1 as [|pt pts Hpt _ IH]; [reflexivity|].
  rewrite !filter_cons, IH.
  destruct (decide (isPoint pt = true)) as [Hp|Hp], (decide (hasTwoNumeric pt)) as [Hn|Hn];
    try reflexivity; apply isPoint_numbersOnly in Hpt; tauto.
Qed.

(** C4 (as amended).  On a payload whose [coordinates] is a flat list of
    points or a nested list of lines, [toLatLngs] returns a route with one
    coordinate per source point that is an array of at least two components,
    whatever the components are: the point's first two components, swapped
    from (lon, lat) to (lat, lon), in source order.  Points that are no
    array or have fewer than two components are skipped.  When the
    components of the source points are all numbers, the length of the
    route is the number of source points with at least two numeric
    components. *)
Theorem toLatLngs_points_swapped
    (props : list (string * JsVal)) (coords : list JsVal) :
  own props "coordinates" = JArr coords ->
  exists route,
    toLatLngs (JObj props) = Normal route /\
    length route
    = length (filter (fun pt => isPoint pt = true) (sourcePoints coords)) /\
    route
    = map swapped (filter (fun pt => isPoint pt = true) (sourcePoints coords)) /\
    (Forall numbersOnly (sourcePoints coords) ->
     length route = length (filter hasTwoNumeric (sourcePoints coords))).
Proof.
  intros Hc. eexists. split; [apply (toLatLngs_array _ _ Hc)|].
  rewrite length_map. split; [reflexivity|]. split; [reflexivity|].
  intros Hnum. by rewrite filter_isPoint_numeric.
Qed.

Lemma toLatLngs_points_swapped_witness :
  exists route,
    toLatLngs scenarioGeometry = Normal route /\
    length route = 2 /\
    route = [(JNum 39.7%float, JNum (-104.9)%float);
             (JNum 39.8%float, JNum (-104.8)%float)] /\
    (Forall numbersOnly
       [JArr [JNum (-104.9)%float; JNum 39.7%float];
        JArr [JNum (-104.8)%float; JNum 39.8%float]] ->
     length route = 2).
Proof.
  exact (toLatLngs_points_swapped
           [("type", JStr "LineString");
            ("coordinates",
             JArr [JArr [JNum (-104.9)%float; JNum 39.7%float];
                   JArr [JNum (-104.8)%float; JNum 39.8%float]])]
           [JArr [JNum (-104.9)%float; JNum 39.7%float];
            JArr [JNum (-104.8)%float; JNum 39.8%float]]
           eq_refl).
Defined.

(** C4, as first stated, fails: a point whose two components are strings
    has no numeric component, yet it is not skipped. *)
Lemma toLatLngs_keeps_non_numeric_point :
  let coords := [JArr [JStr "a"; JStr "b"]] in
  toLatLngs (JObj [("coordinates", JArr coords)])
  = Normal [(JStr "b", JStr "a")] /\
  length (filter hasTwoNumeric (sourcePoints coords)) = 0.
Proof. split; reflexivity. Qed.

(** C5.  [toLatLngs(undefined)] and [toLatLngs({})] are the empty route, and
    so is the result for every payload object whose [coordinates] is absent
    or falsy. *)
Theorem toLatLngs_absent_is_empty :
  toLatLngs JUndefined = Normal [] /\
  toLatLngs (JObj []) = Normal [] /\
  toLatLngs JNull = Normal [] /\
  (forall props, truthy (own props "coordinates") = false ->
                 toLatLngs (JObj props) = Normal []).
Proof.
  repeat split; try reflexivity.
  intros props Hc. unfold toLatLngs. cbn. by rewrite Hc.
Qed.

End GeometryProps.

(** ** Facts on binary64 arithmetic used by the classifier *)
Section FloatFacts.

Lemma finite_not_nan_inf (x : float) :
  is_finite x = true -> is_nan x = false /\ is_infinity x = false.
Proof.
  unfold is_finite. destruct (is_nan x), (is_infinity x); cbn; intuition congruence.
Qed.

Lemma SFcompare_refl (x : spec_float) :
  x <> S754_nan -> SFcompare x x = Some Eq.
Proof.
  destruct x as [s|s| |s m e]; try congruence; intros _; cbn.
  - reflexivity.
  - destruct s; reflexivity.
  - rewrite Z.compare_refl, Pos.compare_cont_refl. destruct s; reflexivity.
Qed.

Lemma is_nan_spec (x : float) : is_nan x = false <-> Prim2SF x <> S754_nan.
Proof.
  unfold is_nan. rewrite FloatAxioms.eqb_spec. unfold SFeqb. split.
  - intros H Hx. rewrite Hx in H. discriminate.
  - intros Hx. by rewrite SFcompare_refl.
Qed.

(** A finite number minus itself is [+0]. *)
Lemma sub_self (x : float) : is_finite x = true -> (x - x)%float = 0%float.
Proof.
  intros [Hnan Hinf]%finite_not_nan_inf.
  apply is_nan_spec in Hnan.
  unfold is_infinity in Hinf. rewrite FloatAxioms.eqb_spec, FloatAxioms.abs_spec in Hinf.
  change (Prim2SF infinity) with (S754_infinity false) in Hinf.
  apply Prim2SF_inj. rewrite FloatAxioms.sub_spec.
  change (Prim2SF 0) with (S754_zero false).
  destruct (Prim2SF x) as [s|s| |s m e]; try congruence.
  - destruct s; reflexivity.
  - discriminate.
  - unfold SF64sub, SFsub. cbv zeta. rewrite Z.sub_diag. reflexivity.
Qed.

(** Only a number compares below another one. *)
Lemma ltb_not_nan (d b : float) : (d <? b)%float = true -> is_nan d = false.
Proof.
  rewrite FloatAxioms.ltb_spec. intros H. apply is_nan_spec. intros Hd.
  rewrite Hd in H. discriminate.
Qed.

Lemma not_pos_le_zero (b : float) :
  is_nan b = false -> (0 <? b)%float = false -> (b <=? 0)%float = true.
Proof.
  rewrite is_nan_spec, FloatAxioms.ltb_spec, FloatAxioms.leb_spec.
  change (Prim2SF 0) with (S754_zero false).
  destruct (Prim2SF b) as [s|[]| |[] m e]; cbn; congruence.
Qed.

Lemma ltb_le_zero (d b : float) :
  (b <=? 0)%float = true -> (d <? b)%float = true -> (d <=? 0)%float = true.
Proof.
  rewrite FloatAxioms.ltb_spec, !FloatAxioms.leb_spec.
  change (Prim2SF 0) with (S754_zero false).
  destruct (Prim2SF b) as [sb|[]| |[] mb eb], (Prim2SF d) as [sd|[]| |[] md ed];
    cbn; congruence.
Qed.

Lemma SFleb_zero_positive (x : spec_float) (m : positive) (e : Z) :
  SFleb x (S754_zero false) = true -> SFleb x (S754_finite false m e) = true.
Proof. destruct x as [s|[]| |[] mx ex]; cbn; congruence. Qed.

Lemma threshold_positive :
  Prim2SF MapView.GREEN_THRESHOLD_DEG2
  = S754_finite false 4722366482869645 (-74).
Proof. vm_compute. reflexivity. Qed.

Lemma le_zero_le_threshold (b : float) :
  (b <=? 0)%float = true -> (b <=? MapView.GREEN_THRESHOLD_DEG2)%float = true.
Proof.
  rewrite !FloatAxioms.leb_spec, threshold_positive.
  change (Prim2SF 0) with (S754_zero false).
  apply SFleb_zero_positive.
Qed.

End FloatFacts.

(** ** Segment Classifier *)
Section ClassifierProps.
Import MapView.
Local Open Scope list_scope.

Lemma joinSegments_snoc (segs : list (list LatLng)) (s : list LatLng) :
  segs <> [] -> joinSegments (segs ++ [s]) = joinSegments segs ++ drop 1 s.
Proof.
  destruct segs as [|s0 rest]; [done|]. intros _. cbn [app joinSegments].
  rewrite map_app, concat_app. cbn. by rewrite app_nil_r, app_assoc.
Qed.

Lemma joinSegments_extend (segs : list (list LatLng)) (s : list LatLng) (x : LatLng) :
  s <> [] ->
  joinSegments (segs ++ [s ++ [x]]) = joinSegments (segs ++ [s]) ++ [x].
Proof.
  intros Hs. destruct segs as [|s0 rest].
  - cbn. by rewrite !app_nil_r.
  - rewrite !joinSegments_snoc by done.
    destruct s; [done|]. cbn. by rewrite drop_0, app_assoc.
Qed.

Lemma linked_extend (rs : list (bool * list LatLng)) c (s : list LatLng) (x : LatLng) :
  s <> [] -> linked (rs ++ [(c, s)]) -> linked (rs ++ [(c, s ++ [x])]).
Proof.
  intros Hs. induction rs as [|r1 rs IH]; [done|].
  destruct rs as [|r2 rs].
  - cbn. intros (Hc & Hl & _). repeat split; [done|].
    rewrite Hl. by destruct s.
  - cbn [app linked]. intros (Hc & Hl & Hrest). repeat split; [done..|].
    by apply IH.
Qed.

Lemma linked_snoc (rs : list (bool * list LatLng)) (r1 r2 : bool * list LatLng) :
  r1.1 = negb r2.1 -> last r1.2 = head r2.2 ->
  linked (rs ++ [r1]) -> linked (rs ++ [r1; r2]).
Proof.
  intros Hc Hl. induction rs as [|r0 rs IH]; [by cbn|].
  destruct rs as [|r0' rs].
  - cbn. intros (? & ? & _). by repeat split.
  - cbn [app linked]. intros (? & ? & Hrest). repeat split; [done..|].
    by apply IH.
Qed.

Lemma flush_projected (st : Loop) : projected st -> projected (flush st).
Proof.
  unfold projected, flush. intros [Hg Hr].
  case_bool_decide; [|done].
  destruct (currentIsGreen st); cbn [greenSegments redSegments runs];
    rewrite !filter_app, !map_app, <- Hg, <- Hr; cbn;
    rewrite ?app_nil_r; done.
Qed.

Lemma flush_drawable (st : Loop) : drawable st -> drawable (flush st).
Proof.
  unfold drawable, flush. intros H.
  case_bool_decide; [|done].
  destruct (currentIsGreen st); cbn [runs];
    apply Forall_app; split; try done; repeat constructor; cbn; lia.
Qed.

Lemma flush_runs (st : Loop) :
  2 <= length (current st) ->
  runs (flush st) = runs st ++ [(currentIsGreen st, current st)].
Proof.
  intros H. unfold flush. rewrite bool_decide_eq_true_2 by lia.
  by destruct (currentIsGreen st).
Qed.

Section WithBase.
Context (baseRoute : option (list LatLng)).

Lemma iter_S (d : list LatLng) (k : nat) :
  iter baseRoute d (S k) = body baseRoute d k (iter baseRoute d k).
Proof. unfold iter. by rewrite seq_S, fold_left_app. Qed.

Lemma body_projected (d : list LatLng) (i : nat) (st : Loop) :
  projected st -> projected (body baseRoute d i st).
Proof.
  intros H. pose proof (flush_projected st H) as Hf.
  unfold body. repeat case_match; done.
Qed.

Lemma body_drawable (d : list LatLng) (i : nat) (st : Loop) :
  drawable st -> drawable (body baseRoute d i st).
Proof.
  intros H. pose proof (flush_drawable st H) as Hf.
  unfold body. repeat case_match; done.
Qed.

Lemma iter_projected (d : list LatLng) (k : nat) :
  projected (iter baseRoute d k).
Proof.
  induction k as [|k IH]; [done|]. rewrite iter_S. by apply body_projected.
Qed.

Lemma iter_drawable (d : list LatLng) (k : nat) :
  drawable (iter baseRoute d k).
Proof.
  induction k as [|k IH]; [by constructor|].
  rewrite iter_S. by apply body_drawable.
Qed.

Lemma iter_1 (d : list LatLng) :
  iter baseRoute d 1
  = {| current := [d !!! 0]; currentIsGreen := isNear baseRoute (d !!! 0);
       greenSegments := []; redSegments := []; runs := [] |}.
Proof. reflexivity. Qed.

Lemma iter_2 (d : list LatLng) :
  2 <= length d -> Inv d 2 (iter baseRoute d 2).
Proof.
  intros Hd. destruct d as [|d0 [|d1 rest]]; cbn in Hd; try lia.
  rewrite iter_S, iter_1. unfold body. cbn -[isNear].
  destruct (Bool.eqb _ _); by constructor.
Qed.

Lemma body_Inv (d : list LatLng) (k : nat) (st : Loop) :
  2 <= k < length d -> Inv d k st -> Inv d (S k) (body baseRoute d k st).
Proof.
  intros Hk [Hlen Hjoin Hlink Hlast].
  assert (Hpt : d !! k = Some (d !!! k))
    by (apply list_lookup_lookup_total_lt; lia).
  assert (Hprev : d !! (k - 1) = Some (d !!! (k - 1)))
    by (apply list_lookup_lookup_total_lt; lia).
  assert (Hne : current st <> []) by (intros E; rewrite E in Hlen; cbn in Hlen; lia).
  unfold body. rewrite bool_decide_eq_false_2 by lia.
  destruct (Bool.eqb _ _) eqn:Heq.
  - constructor; cbn [current runs currentIsGreen].
    + rewrite length_app. lia.
    + rewrite joinSegments_extend, Hjoin by done.
      by rewrite (take_S_r _ _ _ Hpt).
    + by apply linked_extend.
    + rewrite last_snoc. by replace (S k - 1) with k by lia.
  - apply Bool.eqb_false_iff in Heq.
    assert (Hcol : currentIsGreen st = negb (isNear baseRoute (d !!! k)))
      by (destruct (currentIsGreen st), (isNear baseRoute (d !!! k)); cbn; congruence).
    rewrite Hcol in Hlink.
    set (near := isNear baseRoute (d !!! k)) in *.
    constructor; cbn [current currentIsGreen runs];
      rewrite ?flush_runs, ?Hcol by done.
    + cbn. lia.
    + rewrite map_app. cbn [map snd].
      rewrite joinSegments_snoc by (by destruct (map snd (runs st))).
      rewrite Hjoin. cbn. by rewrite (take_S_r _ _ _ Hpt).
    + rewrite <- app_assoc. cbn [app]. apply linked_snoc.
      * cbn. done.
      * cbn. by rewrite Hlast, Hprev.
      * done.
    + replace (S k - 1) with k by lia. by rewrite Hpt.
Qed.

Lemma iter_Inv (d : list LatLng) (k : nat) :
  2 <= k <= length d -> Inv d k (iter baseRoute d k).
Proof.
  induction k as [|k IH]; [lia|]. intros Hk.
  destruct (decide (k = 1)) as [->|]; [apply iter_2; lia|].
  rewrite iter_S. apply body_Inv; [lia|]. apply IH. lia.
Qed.

End WithBase.
Lemma classifyLoop_projected (route : list LatLng) (baseRoute : option (list LatLng)) :
  projected (classifyLoop route baseRoute).
Proof.
  unfold classifyLoop. repeat case_match; try done.
  apply flush_projected, iter_projected.
Qed.

Lemma classifyLoop_drawable (route : list LatLng) (baseRoute : option (list LatLng)) :
  drawable (classifyLoop route baseRoute).
Proof.
  unfold classifyLoop. repeat case_match; try by constructor.
  apply flush_drawable, iter_drawable.
Qed.

(** When the loop ran, the pushes are the runs before the last one and
    the last run. *)
Lemma classifyLoop_runs (route : list LatLng) (baseRoute : option (list LatLng)) :
  2 <= length route -> base baseRoute <> None ->
  let st := iter baseRoute route (length route) in
  Inv route (length route) st /\
  classifyRuns route baseRoute = runs st ++ [(currentIsGreen st, current st)].
Proof.
  intros Hlen Hb. cbv zeta.
  pose proof (iter_Inv baseRoute route (length route) ltac:(lia)) as HI.
  split; [done|]. unfold classifyRuns, classifyLoop, detour.
  rewrite bool_decide_eq_true_2 by lia.
  destruct (base baseRoute); [|done].
  apply flush_runs, HI.
Qed.

(** C7.  Every segment [classify] returns, in either list, has at least two
    points.  The two lists are the pushed runs of each colour in the order
    of the pushes; consecutive pushed runs have opposite colours and the
    later one starts on the point the earlier one ends on.  At every
    iteration where the classification changes, the new run is seeded with
    the previous point and the current point, and the previous point is the
    last point of the run being closed (also when that run is the single
    first point, which is not pushed). *)
Theorem classify_segments_drawable_and_linked
    (route : list LatLng) (baseRoute : option (list LatLng)) :
  Forall (fun seg => 2 <= length seg)
    ((classify route baseRoute).1 ++ (classify route baseRoute).2) /\
  (classify route baseRoute).1
  = map snd (filter (fun r => r.1 = true) (classifyRuns route baseRoute)) /\
  (classify route baseRoute).2
  = map snd (filter (fun r => r.1 = false) (classifyRuns route baseRoute)) /\
  linked (classifyRuns route baseRoute) /\
  (forall k, 1 <= k < length route ->
     isNear baseRoute (route !!! k)
     <> currentIsGreen (iter baseRoute route k) ->
     current (body baseRoute route k (iter baseRoute route k))
     = [route !!! (k - 1); route !!! k] /\
     last (current (iter baseRoute route k)) = Some (route !!! (k - 1))).
Proof.
  destruct (classifyLoop_projected route baseRoute) as [Hg Hr].
  pose proof (classifyLoop_drawable route baseRoute) as Hd.
  unfold classify, classifyRuns. cbn [fst snd].
  split; [|split; [done|split; [done|split]]].
  - rewrite Hg, Hr. apply Forall_app. unfold drawable in Hd.
    rewrite list.Forall_forall in Hd.
    split; apply list.Forall_forall;
      intros seg ([c s] & -> & Hin)%list_elem_of_fmap;
      apply list_elem_of_filter in Hin as [_ Hin]; apply (Hd _ Hin).
  - destruct (decide (2 <= length route)) as [Hlen|Hlen];
      [destruct (base baseRoute) eqn:Hb|].
    + destruct (classifyLoop_runs route baseRoute Hlen) as [HI Hruns];
        [congruence|].
      unfold classifyRuns in Hruns. rewrite Hruns. apply HI.
    + unfold classifyLoop. rewrite Hb. by destruct (detour route).
    + unfold classifyLoop, detour. by rewrite bool_decide_eq_false_2 by lia.
  - intros k Hk Hneq. split.
    + unfold body. rewrite bool_decide_eq_false_2 by lia.
      apply Bool.eqb_false_iff in Hneq. by rewrite Hneq.
    + destruct (decide (k = 1)) as [->|Hk1]; [done|].
      pose proof (iter_Inv baseRoute route k ltac:(lia)) as HI.
      destruct HI as [_ _ _ ->].
      apply list_lookup_lookup_total_lt. lia.
Qed.

Lemma elem_of_joinSegments (segs : list (list LatLng)) (p : LatLng) :
  p ∈ joinSegments segs -> exists seg, seg ∈ segs /\ p ∈ seg.
Proof.
  destruct segs as [|s rest]; cbn; [by intros ?%elem_of_nil|].
  intros [Hs|Hr]%elem_of_app.
  - exists s. split; [left|done].
  - apply list_elem_of_In, in_concat in Hr as (t & Ht & Hp).
    apply list_elem_of_In, list_elem_of_fmap in Ht as (seg & -> & Hseg).
    apply list_elem_of_In in Hp.
    exists seg. split; [by right|].
    destruct seg as [|q seg]; [done|]. cbn in Hp. rewrite drop_0 in Hp.
    by right.
Qed.

Lemma elem_of_colours (rs : list (bool * list LatLng)) (seg : list LatLng) :
  seg ∈ map snd rs ->
  seg ∈ map snd (filter (fun r => r.1 = true) rs)
        ++ map snd (filter (fun r => r.1 = false) rs).
Proof.
  intros ([c s] & -> & Hin)%list_elem_of_fmap. apply elem_of_app.
  destruct c; [left|right]; apply list_elem_of_fmap;
    [exists (true, s) | exists (false, s)];
    (split; [done|]); by apply list_elem_of_filter.
Qed.

(** C10.  When both routes have at least two points, joining the pushed
    segments in the order of the pushes, each after the first without its
    first point (the boundary point it shares with its predecessor), gives
    back the detour route; the returned lists are these segments by colour,
    and every point of the detour route lies on a returned segment. *)
Theorem classify_covers_detour (route b : list LatLng) :
  2 <= length b -> 2 <= length route ->
  joinSegments (map snd (classifyRuns route (Some b))) = route /\
  (classify route (Some b)).1
  = map snd (filter (fun r => r.1 = true) (classifyRuns route (Some b))) /\
  (classify route (Some b)).2
  = map snd (filter (fun r => r.1 = false) (classifyRuns route (Some b))) /\
  (forall p, p ∈ route ->
     exists seg,
       seg ∈ (classify route (Some b)).1 ++ (classify route (Some b)).2 /\
       p ∈ seg).
Proof.
  intros Hb Hlen.
  destruct (classifyLoop_projected route (Some b)) as [Hg Hr].
  destruct (classifyLoop_runs route (Some b) Hlen) as [HI Hruns].
  { unfold base. by rewrite bool_decide_eq_true_2 by lia. }
  assert (Hjoin : joinSegments (map snd (classifyRuns route (Some b))) = route).
  { rewrite Hruns, map_app. cbn [map snd].
    destruct HI as [_ -> _ _]. apply firstn_all. }
  split; [done|]. split; [done|]. split; [done|].
  intros p Hp. rewrite <- Hjoin in Hp.
  apply elem_of_joinSegments in Hp as (seg & Hseg & Hin).
  exists seg. split; [|done].
  unfold classify. cbn [fst snd]. rewrite Hg, Hr. by apply elem_of_colours.
Qed.

Lemma classify_covers_detour_witness :
  let route := [(0, 0); (1, 1); (1, 2); (0, 3); (0, 2)]%float in
  let b := [(0, 0); (0, 1); (0, 2); (0, 3)]%float in
  joinSegments (map snd (classifyRuns route (Some b))) = route /\
  (classify route (Some b)).1
  = map snd (filter (fun r => r.1 = true) (classifyRuns route (Some b))) /\
  (classify route (Some b)).2
  = map snd (filter (fun r => r.1 = false) (classifyRuns route (Some b))) /\
  (forall p, p ∈ route ->
     exists seg,
       seg ∈ (classify route (Some b)).1 ++ (classify route (Some b)).2 /\
       p ∈ seg).
Proof.
  apply (classify_covers_detour
           [(0, 0); (1, 1); (1, 2); (0, 3); (0, 2)]%float
           [(0, 0); (0, 1); (0, 2); (0, 3)]%float); cbn; lia.
Defined.

(** Distance of a finite point to itself. *)
Lemma dist2_self (p : LatLng) : Spec.finitePoint p -> dist2 p p = 0%float.
Proof.
  intros [H1 H2]. unfold dist2. cbv zeta. by rewrite !sub_self.
Qed.

Section Scan.
Context (p : LatLng).

Lemma scan_not_nan (l : list LatLng) (best : float) :
  is_nan best = false -> is_nan (fold_left (scanStep p) l best) = false.
Proof.
  revert best. induction l as [|q l IH]; [done|]. intros best Hb.
  cbn [fold_left]. apply IH. unfold scanStep. cbv zeta.
  destruct (_ <? _)%float eqn:Hlt; [by eapply ltb_not_nan|done].
Qed.

Lemma scan_le_zero (l : list LatLng) (best : float) :
  (best <=? 0)%float = true -> (fold_left (scanStep p) l best <=? 0)%float = true.
Proof.
  revert best. induction l as [|q l IH]; [done|]. intros best Hb.
  cbn [fold_left]. apply IH. unfold scanStep. cbv zeta.
  destruct (_ <? _)%float eqn:Hlt; [by eapply ltb_le_zero|done].
Qed.

Lemma scan_self (l : list LatLng) :
  Spec.finitePoint p -> p ∈ l ->
  (fold_left (scanStep p) l infinity <=? 0)%float = true.
Proof.
  intros Hp (l1 & l2 & ->)%list_elem_of_split.
  rewrite fold_left_app. cbn [fold_left]. apply scan_le_zero.
  pose proof (scan_not_nan l1 infinity eq_refl) as Hnan.
  unfold scanStep at 1. cbv zeta. rewrite (dist2_self p Hp).
  destruct (_ <? _)%float eqn:Hlt; [done|]. by apply not_pos_le_zero.
Qed.

End Scan.

(** A finite point of the base route is near the base route. *)
Lemma isNear_self (b : list LatLng) (p : LatLng) :
  2 <= length b -> Spec.finitePoint p -> p ∈ b -> isNear (Some b) p = true.
Proof.
  intros Hb Hp Hin. unfold isNear, minDist2ToBase, base.
  rewrite bool_decide_eq_true_2 by lia.
  apply le_zero_le_threshold, (scan_self p b Hp Hin).
Qed.

(** While every point is near, the loop only grows the first run. *)
Lemma iter_all_near (baseRoute : option (list LatLng)) (d : list LatLng) (k : nat) :
  (forall i, i < length d -> isNear baseRoute (d !!! i) = true) ->
  1 <= k <= length d ->
  iter baseRoute d k
  = {| current := take k d; currentIsGreen := true;
       greenSegments := []; redSegments := []; runs := [] |}.
Proof.
  intros Hnear. induction k as [|k IH]; [lia|]. intros Hk.
  destruct (decide (k = 0)) as [->|Hk0].
  - rewrite iter_1, Hnear by lia. destruct d; [cbn in Hk; lia|done].
  - rewrite iter_S, IH by lia. unfold body.
    rewrite bool_decide_eq_false_2 by done. cbn [currentIsGreen current].
    rewrite Hnear by lia. cbn [Bool.eqb].
    rewrite (take_S_r d k (d !!! k))
      by (apply list_lookup_lookup_total_lt; lia).
    done.
Qed.

(** C6 (as amended).  For a route [r] of at least two points with finite
    coordinates, passed as both base and detour, [classify] returns the
    single on-route segment [r] and no detour segment. *)
Theorem classify_self (r : list LatLng) :
  2 <= length r -> Forall Spec.finitePoint r ->
  classify r (Some r) = ([r], []).
Proof.
  intros Hlen Hfin.
  assert (Hnear : forall i, i < length r -> isNear (Some r) (r !!! i) = true).
  { intros i Hi.
    assert (Hl : r !! i = Some (r !!! i))
      by (by apply list_lookup_lookup_total_lt).
    apply isNear_self; [done| |by eapply list_elem_of_lookup_2].
    rewrite list.Forall_forall in Hfin. apply Hfin.
    by eapply list_elem_of_lookup_2. }
  unfold classify, classifyLoop, detour, base.
  rewrite !bool_decide_eq_true_2 by lia.
  rewrite (iter_all_near (Some r) r (length r) Hnear) by lia.
  rewrite firstn_all. unfold flush. cbn [current currentIsGreen].
  rewrite bool_decide_eq_true_2 by lia. done.
Qed.

Lemma classify_self_witness :
  let r := [(39.7, -104.9); (39.8, -104.8)]%float in
  classify r (Some r) = ([r], []).
Proof.
  apply (classify_self [(39.7, -104.9); (39.8, -104.8)]%float).
  - cbn. lia.
  - repeat constructor.
Defined.

(** C6, as first stated, fails on routes of fewer than two points: no
    segment is returned for a one-point route, nor for the empty route. *)
Lemma classify_self_short_route :
  let r := [(39.7, -104.9)]%float in
  classify r (Some r) = ([], []) /\ classify r (Some r) <> ([r], []) /\
  classify [] (Some []) = ([], []).
Proof. repeat split. discriminate. Qed.

(** No classification is attempted on degenerate input: when the detour
    has fewer than two points, or the base route is absent or has fewer
    than two points, both lists are empty. *)
Theorem classify_degenerate
    (route : list LatLng) (baseRoute : option (list LatLng)) (p q : LatLng) :
  classify [] baseRoute = ([], []) /\
  classify [p] baseRoute = ([], []) /\
  classify route None = ([], []) /\
  classify route (Some []) = ([], []) /\
  classify route (Some [q]) = ([], []).
Proof.
  unfold classify, classifyLoop, detour, base. cbn.
  repeat split; try done; by destruct (bool_decide _).
Qed.

End ClassifierProps.

(** ** Stop Deduplicator *)
Section DedupeProps.
Import Stops Spec.
Local Open Scope list_scope.

Lemma filter_all {A} (P : A -> Prop) `{!forall x, Decision (P x)} (l : list A) :
  Forall P l -> filter P l = l.
Proof.
  induction 1 as [|a l Ha _ IH]; [done|].
  by rewrite filter_cons_True, IH.
Qed.

Lemma Forall_sublist {A} (P : A -> Prop) (l1 l2 : list A) :
  l1 `sublist_of` l2 -> Forall P l2 -> Forall P l1.
Proof.
  rewrite !list.Forall_forall. intros Hsub H a Ha.
  apply H. by eapply elem_of_sublist.
Qed.

Section FirstOccurrences.
Context {A : Type} (kf : A -> string).

Lemma firstOccurrences_length (l : list A) :
  length (firstOccurrences kf l) <= length l.
Proof.
  induction l as [|s l IH]; [done|]. cbn.
  pose proof (length_filter (fun t => kf t <> kf s) (firstOccurrences kf l)).
  lia.
Qed.

Lemma firstOccurrences_sublist (l : list A) :
  firstOccurrences kf l `sublist_of` l.
Proof.
  induction l as [|s l IH]; [done|]. cbn. apply sublist_skip.
  etrans; [apply sublist_filter|done].
Qed.

Lemma firstOccurrences_NoDup (l : list A) :
  NoDup (map kf (firstOccurrences kf l)).
Proof.
  induction l as [|s l IH]; [constructor|]. cbn. constructor.
  - intros (t & Hk & Ht)%list_elem_of_fmap.
    apply list_elem_of_filter in Ht as [Hne _]. congruence.
  - eapply sublist_NoDup; [exact IH|].
    apply (fmap_sublist kf), sublist_filter.
Qed.

Lemma firstOccurrences_id (l : list A) :
  NoDup (map kf l) -> firstOccurrences kf l = l.
Proof.
  induction l as [|s l IH]; [done|]. cbn. intros [Hs Hl]%NoDup_cons.
  rewrite IH by done. f_equal.
  apply filter_all, list.Forall_forall. intros t Ht Heq. apply Hs.
  apply list_elem_of_fmap. eauto.
Qed.

Lemma firstOccurrences_first (l : list A) (s : A) :
  s ∈ l ->
  exists pre s' post,
    l = pre ++ s' :: post /\ kf s' = kf s /\
    (kf s ∉ map kf pre) /\ s' ∈ firstOccurrences kf l.
Proof.
  induction l as [|a l IH]; [by intros ?%elem_of_nil|]. intros Hin.
  destruct (decide (kf a = kf s)) as [Heq|Hne].
  - exists [], a, l. repeat split; [done| |by left]. apply not_elem_of_nil.
  - apply elem_of_cons in Hin as [->|Hin]; [done|].
    destruct (IH Hin) as (pre & s' & post & -> & Hk & Hpre & Hs').
    exists (a :: pre), s', post. repeat split; [done| |].
    + cbn. apply not_elem_of_cons. split; [congruence|done].
    + cbn. right. apply list_elem_of_filter. split; [congruence|done].
Qed.

End FirstOccurrences.

Section WithEngine.
Context (E : Engine).

Lemma key_typed (s : StopPoint) : typed s -> key E s = Normal (keyOf E s).
Proof.
  intros [Hlat Hlon]. unfold keyOf, key.
  destruct (station_id s); [done|].
  destruct Hlat as [Hlat| ->], Hlon as [Hlon| ->];
    try (destruct (lat s); try discriminate);
    try (destruct (lon s); try discriminate); done.
Qed.

(** The loop, started with any set of seen keys and any accumulated list,
    appends the first occurrences whose key was not seen. *)
Lemma dedupeLoop_spec (l : list StopPoint) (seen : gset string) (acc : list StopPoint) :
  Forall typed l ->
  dedupeLoop E l seen acc
  = Normal (acc ++ filter (fun t => keyOf E t ∉ seen)
                          (firstOccurrences (keyOf E) l)).
Proof.
  intros Hl. revert seen acc.
  induction Hl as [|s l Hs _ IH]; intros seen acc.
  - cbn. by rewrite app_nil_r.
  - cbn [dedupeLoop firstOccurrences]. rewrite (key_typed s Hs). cbn -[filter].
    destruct (decide (keyOf E s ∈ seen)) as [Hin|Hnin].
    + rewrite IH, filter_cons_False by tauto.
      rewrite list_filter_filter. do 2 f_equal.
      apply list_filter_iff. intros t. split; [|tauto].
      intros Ht. split; [done|]. congruence.
    + rewrite IH, filter_cons_True by done.
      rewrite list_filter_filter, <- app_assoc. do 3 f_equal.
      apply list_filter_iff. intros t.
      rewrite not_elem_of_union, not_elem_of_singleton. tauto.
Qed.

Lemma dedupe_firstOccurrences (l : list StopPoint) :
  Forall typed l -> dedupe E l = Normal (firstOccurrences (keyOf E) l).
Proof.
  intros Hl. unfold dedupe. rewrite dedupeLoop_spec by done. cbn. f_equal.
  apply filter_all, list.Forall_forall. set_solver.
Qed.

Lemma key_identityKey (s : StopPoint) :
  typed s -> key E s = Normal (identityKey E s).
Proof.
  intros [Hlat Hlon]. unfold identityKey, key.
  destruct (station_id s); [done|].
  destruct Hlat as [Hlat|Hlat], Hlon as [Hlon|Hlon];
    destruct (lat s); try discriminate; destruct (lon s); try discriminate;
    done.
Qed.

Lemma keyOf_identityKey (s : StopPoint) :
  typed s -> keyOf E s = identityKey E s.
Proof. intros Hs. unfold keyOf. by rewrite key_identityKey. Qed.

Lemma firstOccurrences_ext {A} (kf kf' : A -> string) (l : list A) :
  Forall (fun s => kf s = kf' s) l ->
  firstOccurrences kf l = firstOccurrences kf' l.
Proof.
  induction 1 as [|s l Hs Hl IH]; [done|]. cbn. f_equal. rewrite <- IH.
  assert (Hsub : Forall (fun t => kf t = kf' t) (firstOccurrences kf l)).
  { eapply Forall_sublist; [apply firstOccurrences_sublist|done]. }
  clear IH. induction Hsub as [|t ts Ht _ IHt]; [done|].
  rewrite !filter_cons, IHt, Ht, Hs. done.
Qed.

Lemma dedupe_identityKey (l : list StopPoint) :
  Forall typed l -> dedupe E l = Normal (firstOccurrences (identityKey E) l).
Proof.
  intros Hl. rewrite dedupe_firstOccurrences by done. f_equal.
  apply firstOccurrences_ext.
  eapply list.Forall_impl; [exact Hl|]. apply keyOf_identityKey.
Qed.

(** C8.  On stop records (position fields numbers or absent) [dedupe]
    returns the first occurrence of every identity key, in the order of the
    input, the identity key of a record being the one the specification
    describes (["id:"] and the station id, or else ["ll:"] and the rounded
    position): applying [dedupe] to its own result changes nothing, the
    result is no longer than the input, it is a subsequence of the input,
    it holds no identity key twice, and every record of the input is
    represented by the first record of the input that has its identity
    key. *)
Theorem dedupe_first_occurrence_idempotent (x : list StopPoint) :
  Forall typed x ->
  exists y,
    dedupe E x = Normal y /\
    dedupe E y = Normal y /\
    length y <= length x /\
    y `sublist_of` x /\
    y = firstOccurrences (identityKey E) x /\
    NoDup (map (identityKey E) y) /\
    (forall s, s ∈ x ->
       exists pre s' post,
         x = pre ++ s' :: post /\ identityKey E s' = identityKey E s /\
         (identityKey E s ∉ map (identityKey E) pre) /\ s' ∈ y).
Proof.
  intros Hx. exists (firstOccurrences (identityKey E) x).
  pose proof (firstOccurrences_sublist (identityKey E) x) as Hsub.
  pose proof (firstOccurrences_NoDup (identityKey E) x) as Hnd.
  split; [by apply dedupe_identityKey|]. split.
  - rewrite dedupe_identityKey by (by eapply Forall_sublist).
    by rewrite firstOccurrences_id.
  - split; [apply firstOccurrences_length|].
    split; [done|]. split; [done|]. split; [done|].
    apply firstOccurrences_first.
Qed.

Lemma dedupe_pair_same_id (s1 s2 : StopPoint) (n : float) :
  station_id s1 = Some n -> station_id s2 = Some n ->
  dedupe E [s1; s2] = Normal [s1].
Proof.
  intros H1 H2. unfold dedupe. cbn [dedupeLoop]. unfold key.
  rewrite H1, H2. cbn.
  rewrite decide_False by apply not_elem_of_empty.
  rewrite decide_True by (apply elem_of_union_l, elem_of_singleton; done).
  done.
Qed.

(** Two stops with the same station id: only the first is kept, whatever
    their coordinates are. *)
Theorem dedupe_same_station_id (s1 s2 : StopPoint) (n : float) :
  station_id s1 = Some n -> station_id s2 = Some n ->
  dedupe E [s1; s2] = Normal [s1].
Proof. apply dedupe_pair_same_id. Qed.

(** Two stops with neither a station id nor coordinates have the same
    fallback key: the second is dropped. *)
Theorem dedupe_unidentified_collide (s1 s2 : StopPoint) :
  station_id s1 = None -> lat s1 = JUndefined -> lon s1 = JUndefined ->
  station_id s2 = None -> lat s2 = JUndefined -> lon s2 = JUndefined ->
  key E s1 = Normal "ll:," /\ dedupe E [s1; s2] = Normal [s1].
Proof.
  intros H1 H2 H3 H4 H5 H6. unfold dedupe. cbn [dedupeLoop]. unfold key.
  rewrite H1, H2, H3, H4, H5, H6. cbn. split; [done|].
  rewrite decide_False by apply not_elem_of_empty.
  rewrite decide_True by (apply elem_of_union_l, elem_of_singleton; done).
  done.
Qed.

End WithEngine.

Lemma dedupe_first_occurrence_idempotent_witness :
  let other :=
    {| station_id := Some 2%float;
       lat := JNum 39.75%float; lon := JNum (-104.85)%float;
       name := JStr "Stop B"; city := JUndefined; state := JUndefined;
       price := None; address := JUndefined; gallons_purchased := None;
       cost := None; mile_on_route := None |} in
  let x := [scenarioStop "Stop A"; other; scenarioStop "Stop A dup"] in
  dedupe sampleEngine x = Normal [scenarioStop "Stop A"; other] /\
  map (identityKey sampleEngine) [scenarioStop "Stop A"; other]
  = ["id:4503599627370496p-52"; "id:4503599627370496p-51"].
Proof.
  intros other x.
  assert (Hx : Forall typed x) by (repeat constructor; by left).
  destruct (dedupe_first_occurrence_idempotent sampleEngine x Hx)
    as (y & Hd & _ & _ & _ & Hy & _).
  rewrite Hd, Hy. split; vm_compute; reflexivity.
Defined.

Lemma dedupe_same_station_id_witness :
  let s1 := scenarioStop "Stop A" in
  let s2 :=
    {| station_id := Some 1%float;
       lat := JNum 40.5%float; lon := JNum (-100.25)%float;
       name := JStr "Stop B"; city := JUndefined; state := JUndefined;
       price := None; address := JUndefined; gallons_purchased := None;
       cost := None; mile_on_route := None |} in
  dedupe sampleEngine [s1; s2] = Normal [s1].
Proof.
  cbv zeta. apply (dedupe_same_station_id sampleEngine) with (n := 1%float);
    reflexivity.
Defined.

Lemma dedupe_unidentified_collide_witness :
  let anonymous label :=
    {| station_id := None; lat := JUndefined; lon := JUndefined;
       name := JStr label; city := JUndefined; state := JUndefined;
       price := None; address := JUndefined; gallons_purchased := None;
       cost := None; mile_on_route := None |} in
  key sampleEngine (anonymous "first") = Normal "ll:," /\
  dedupe sampleEngine [anonymous "first"; anonymous "second"]
  = Normal [anonymous "first"].
Proof.
  cbv zeta. apply (dedupe_unidentified_collide sampleEngine); reflexivity.
Defined.

End DedupeProps.

(** ** API client *)
Section ApiProps.
Import Api Spec.

Lemma append_cons (c : Ascii.ascii) (a b : string) :
  String c a +:+ b = String c (a +:+ b).
Proof. reflexivity. Qed.










End ApiProps.

(** ** Request Reconciler *)
Section AppProps.
Import Stops App.
Local Open Scope list_scope.

Context (E : Engine).

Ltac eff_step :=
  cbv beta iota zeta
      delta [mbind eff_bind mret eff_ret lift write readReqId].

Ltac eff_cases :=
  unfold onSettled, afterAwait; eff_step;
  repeat match goal with
    | |- context [match ?c with Normal _ => _ | Throw _ => _ end] =>
        destruct c eqn:?; eff_step
    | |- context [if ?b then _ else _] =>
        destruct b eqn:?; eff_step
    end.

Lemma onSettled_sameRefs (myId : nat) (r : Completion JsVal) (s : AppState) :
  sameRefs s (onSettled E myId r s).
Proof. eff_cases; by repeat split. Qed.

(** The continuation of a superseded call leaves the displayed result
    as it is. *)
Lemma onSettled_stale (myId : nat) (r : Completion JsVal) (s : AppState) :
  reqIdRef s <> myId -> display (onSettled E myId r s) = display s.
Proof.
  intros Hne. apply Nat.eqb_neq in Hne.
  unfold onSettled, afterAwait. eff_step.
  destruct r as [res|e]; [|done]. eff_step.
  destruct (get res "error") as [err|e]; [|done]. eff_step.
  destruct (truthy err); eff_step; cbn [reqIdRef setError];
    rewrite Hne; done.
Qed.

(** What the continuation of the latest call displays depends on the
    result it received and on what was displayed before, nothing else. *)
Lemma onSettled_display_ext (myId : nat) (r : Completion JsVal) (s s' : AppState) :
  display s = display s' -> reqIdRef s = reqIdRef s' ->
  display (onSettled E myId r s) = display (onSettled E myId r s').
Proof.
  unfold display. intros [= Hr Hs Hm] Hid.
  unfold onSettled, afterAwait. eff_step.
  destruct r as [res|e]; [|cbn; congruence]. eff_step.
  destruct (get res "error") as [err|e]; [|cbn; congruence]. eff_step.
  destruct (truthy err); eff_step; cbn [reqIdRef setError]; rewrite <- Hid;
    (destruct (negb _); [cbn; congruence|]);
    (destruct (routeGeometry res) as [g|e]; [|cbn; congruence]);
    eff_step;
    (destruct (Geometry.toLatLngs g) as [latlngs|e]; [|cbn; congruence]);
    eff_step;
    (destruct (stopPoints res) as [pts|e]; [|cbn; congruence]);
    eff_step;
    (destruct (dedupe E pts) as [dd|e]; [|cbn; congruence]);
    eff_step;
    (destruct (get res "summary") as [sm|e]; cbn; congruence).
Qed.

(** A result read in full by the latest call is displayed in full. *)
Lemma onSettled_latest (myId : nat) (s : AppState)
    (res err g sm : JsVal) latlngs pts dd :
  reqIdRef s = myId ->
  get res "error" = Normal err ->
  routeGeometry res = Normal g ->
  Geometry.toLatLngs g = Normal latlngs ->
  stopPoints res = Normal pts ->
  dedupe E pts = Normal dd ->
  get res "summary" = Normal sm ->
  display (onSettled E myId (Normal res) s)
  = (latlngs, dd, if truthy sm then sm else JNull).
Proof.
  intros Hid He Hg Hl Hp Hd Hs.
  unfold onSettled, afterAwait. eff_step. rewrite He. eff_step.
  destruct (truthy err); eff_step; cbn [reqIdRef setError];
    rewrite Hid, Nat.eqb_refl; cbn [negb]; rewrite Hg; eff_step;
    rewrite Hl; eff_step; rewrite Hp; eff_step; rewrite Hd; eff_step;
    rewrite Hs; done.
Qed.

Lemma onSubmit_valid (s : AppState) :
  start s <> "" -> finish s <> "" ->
  reqIdRef (onSubmit s) = S (reqIdRef s) /\
  display (onSubmit s) = ([], [], JNull) /\
  pending (onSubmit s) = S (reqIdRef s) :: pending s /\
  abortRef (onSubmit s) = Some (S (reqIdRef s)).
Proof.
  intros Hs Hf. apply String.eqb_neq in Hs, Hf.
  unfold onSubmit, abortCurrent. cbn. rewrite Hs, Hf. cbn.
  by destruct (abortRef s).
Qed.

Lemma onSubmit_reqId (s : AppState) : reqIdRef s <= reqIdRef (onSubmit s).
Proof.
  unfold onSubmit, abortCurrent. cbn.
  destruct (_ || _); [cbn; lia|]. destruct (abortRef s); cbn; lia.
Qed.

Lemma onSubmit_pending (s : AppState) (t : nat) :
  t ∈ pending s -> t ∈ pending (onSubmit s).
Proof.
  unfold onSubmit, abortCurrent. cbn.
  destruct (_ || _); [done|]. destruct (abortRef s); cbn; by right.
Qed.

Lemma step_reqId_mono (s : AppState) (ev : Event) :
  reqIdRef s <= reqIdRef (step E s ev).
Proof.
  destruct ev as [v|v|v| |t r]; cbn [step]; try (cbn; lia).
  - apply onSubmit_reqId.
  - case_bool_decide; [|lia].
    destruct (onSettled_sameRefs t r (settle t s)) as (_&_&_&_&->&_). cbn. lia.
Qed.

Lemma run_cons (s : AppState) (ev : Event) (evs : list Event) :
  run E s (ev :: evs) = run E (step E s ev) evs.
Proof. reflexivity. Qed.

Lemma run_reqId_mono (s : AppState) (evs : list Event) :
  reqIdRef s <= reqIdRef (run E s evs).
Proof.
  revert s. induction evs as [|ev evs IH]; intros s; [done|].
  rewrite run_cons. etrans; [apply (step_reqId_mono s ev)|apply IH].
Qed.

Lemma step_pending_keep (s : AppState) (ev : Event) (t : nat) :
  t ∈ pending s -> settles t ev = false -> t ∈ pending (step E s ev).
Proof.
  intros Ht Hev. destruct ev as [v|v|v| |t' r]; cbn [step]; try done.
  - by apply onSubmit_pending.
  - case_bool_decide; [|done].
    destruct (onSettled_sameRefs t' r (settle t' s)) as (_&_&_&_&_&_&->).
    cbn. apply list_elem_of_filter. split; [|done].
    cbn in Hev. apply Nat.eqb_neq in Hev. congruence.
Qed.

Lemma run_pending_keep (s : AppState) (evs : list Event) (t : nat) :
  t ∈ pending s -> Forall (fun ev => settles t ev = false) evs ->
  t ∈ pending (run E s evs).
Proof.
  intros Ht Hevs. revert s Ht.
  induction Hevs as [|ev evs Hev _ IH]; intros s Ht; [done|].
  rewrite run_cons. apply IH. by apply step_pending_keep.
Qed.

(** While nothing is submitted and the latest call stays pending, the
    token and the displayed result stay as they are. *)
Lemma step_quiet (s : AppState) (ev : Event) :
  quiet (reqIdRef s) ev ->
  reqIdRef (step E s ev) = reqIdRef s /\ display (step E s ev) = display s.
Proof.
  intros [Hsub Hset]. destruct ev as [v|v|v| |t r]; try done.
  cbn [step]. case_bool_decide; [|done].
  cbn in Hset. apply Nat.eqb_neq in Hset.
  destruct (onSettled_sameRefs t r (settle t s)) as (_&_&_&_&->&_).
  split; [done|]. rewrite onSettled_stale by (cbn; congruence). done.
Qed.

Lemma run_quiet (s : AppState) (evs : list Event) :
  Forall (quiet (reqIdRef s)) evs ->
  reqIdRef (run E s evs) = reqIdRef s /\ display (run E s evs) = display s.
Proof.
  revert s. induction evs as [|ev evs IH]; intros s Hq; [done|].
  apply Forall_cons in Hq as [Hev Hevs].
  destruct (step_quiet s ev Hev) as [Hid Hd].
  rewrite run_cons. rewrite <- Hid in Hevs.
  destruct (IH _ Hevs) as [-> ->]. done.
Qed.

(** Settling a superseded call changes nothing that is displayed. *)
Lemma step_settle_stale (s : AppState) (t : nat) (r : Completion JsVal) :
  t <> reqIdRef s -> display (step E s (Settle t r)) = display s.
Proof.
  intros Hne. cbn [step]. case_bool_decide; [|done].
  rewrite onSettled_stale by (cbn; congruence). done.
Qed.

(** C1.  Request A is submitted, then, after any events, request B; B
    settles with [rb], and later A settles with [ra].  B's token is newer
    than A's, and settling A changes nothing of the displayed route, stops
    and summary, whatever happened in between and whatever [ra] is.  If
    nothing is submitted between B's submission and A's settling (and B
    settles once), the displayed result after A has settled is the one B's
    continuation wrote on the display cleared by B's submission: for a
    result read in full, the normalized route, the deduplicated stops and
    the summary of [rb].  Unless it settled earlier, A is still pending
    when it settles last, so its continuation does run. *)
Theorem stale_result_never_committed
    (evs0 mid1 mid2 mid3 : list Event) (rb ra : Completion JsVal) :
  let s0 := run E initial evs0 in
  let sA := step E s0 Submit in
  let a := reqIdRef sA in
  let s1 := run E sA mid1 in
  let sB := step E s1 Submit in
  let b := reqIdRef sB in
  let s2 := run E sB mid2 in
  let s3 := step E s2 (Settle b rb) in
  let s4 := run E s3 mid3 in
  let s5 := step E s4 (Settle a ra) in
  start s0 <> "" -> finish s0 <> "" ->
  start s1 <> "" -> finish s1 <> "" ->
  a < b /\
  display s5 = display s4 /\
  (Forall (fun ev => settles a ev = false) (mid1 ++ mid2 ++ mid3) ->
   a ∈ pending s4) /\
  (Forall (quiet b) mid2 ->
   b ∈ pending s2 /\ reqIdRef s2 = b /\
   display s3 = display (onSettled E b rb sB) /\
   (Forall (quiet b) mid3 ->
    display s5 = display s3 /\
    forall (res err g sm : JsVal) latlngs pts dd,
      rb = Normal res ->
      get res "error" = Normal err ->
      routeGeometry res = Normal g ->
      Geometry.toLatLngs g = Normal latlngs ->
      stopPoints res = Normal pts ->
      dedupe E pts = Normal dd ->
      get res "summary" = Normal sm ->
      display s5 = (latlngs, dd, if truthy sm then sm else JNull))).
Proof.
  cbv zeta. intros HsA HfA HsB HfB.
  set (s0 := run E initial evs0) in *.
  destruct (onSubmit_valid s0 HsA HfA) as (HidA & _ & HpA & _).
  set (sA := step E s0 Submit) in *.
  set (s1 := run E sA mid1) in *.
  destruct (onSubmit_valid s1 HsB HfB) as (HidB & HdB & HpB & _).
  set (sB := step E s1 Submit) in *.
  change (onSubmit s0) with sA in *. change (onSubmit s1) with sB in *.
  set (a := reqIdRef sA) in *. set (b := reqIdRef sB) in *.
  set (s2 := run E sB mid2). set (s3 := step E s2 (Settle b rb)).
  set (s4 := run E s3 mid3).
  assert (Hab : a < b).
  { pose proof (run_reqId_mono sA mid1). fold s1 in H. lia. }
  assert (Hb4 : b <= reqIdRef s4).
  { pose proof (run_reqId_mono sB mid2). pose proof (run_reqId_mono s3 mid3).
    pose proof (step_reqId_mono s2 (Settle b rb)).
    fold s2 in H. fold s3 in H1. fold s4 in H0. lia. }
  split; [done|]. split; [apply step_settle_stale; lia|]. split.
  - intros [H1 [H2 H3]%Forall_app]%Forall_app.
    apply run_pending_keep; [|done].
    apply step_pending_keep; [|cbn; apply Nat.eqb_neq; lia].
    apply run_pending_keep; [|done].
    apply step_pending_keep; [|done].
    apply run_pending_keep; [|done].
    rewrite HpA, <- HidA. by left.
  - intros Hq2.
    destruct (run_quiet sB mid2 Hq2) as [Hid2 Hd2]. fold s2 in Hid2, Hd2.
    assert (Hp2 : b ∈ pending s2).
    { apply run_pending_keep; [rewrite HpB, <- HidB; by left|].
      eapply Forall_impl; [exact Hq2|]. by intros ev [_ ?]. }
    assert (Hd3 : display s3 = display (onSettled E b rb sB)).
    { unfold s3. cbn [step]. rewrite bool_decide_eq_true_2 by done.
      apply onSettled_display_ext; [exact Hd2|exact Hid2]. }
    split; [done|]. split; [done|]. split; [done|].
    intros Hq3.
    assert (Hid3 : reqIdRef s3 = b).
    { unfold s3. cbn [step]. rewrite bool_decide_eq_true_2 by done.
      destruct (onSettled_sameRefs b rb (settle b s2)) as (_&_&_&_&->&_).
      exact Hid2. }
    rewrite <- Hid3 in Hq3.
    destruct (run_quiet s3 mid3 Hq3) as [Hid4 Hd4]. fold s4 in Hid4, Hd4.
    assert (H53 : display (step E s4 (Settle a ra)) = display s3).
    { rewrite step_settle_stale by lia. exact Hd4. }
    split; [done|].
    intros res err g sm latlngs pts dd -> He Hg Hl Hp Hd Hs.
    rewrite H53, Hd3. by eapply onSettled_latest.
Qed.

(** Request tokens: no event lowers the latest token, and every
    submission that passes validation mints the next one, makes it the
    latest, and leaves its call pending. *)
Theorem tokens_increase (s : AppState) (ev : Event) :
  reqIdRef s <= reqIdRef (step E s ev) /\
  (start s <> "" -> finish s <> "" ->
   reqIdRef (step E s Submit) = S (reqIdRef s) /\
   reqIdRef (step E s Submit) ∈ pending (step E s Submit) /\
   abortRef (step E s Submit) = Some (reqIdRef (step E s Submit))).
Proof.
  split; [apply step_reqId_mono|]. intros Hs Hf.
  destruct (onSubmit_valid s Hs Hf) as (Hid & _ & Hp & Ha).
  cbn [step]. rewrite Hid, Hp, Ha. repeat split. by left.
Qed.

(** Input validation: a submission with an empty start or finish shows
    the validation message on a cleared display and issues no request. *)
Theorem empty_input_issues_no_request (s : AppState) :
  start s = "" \/ finish s = "" ->
  error (step E s Submit) = JStr "Please enter both Start and Finish." /\
  display (step E s Submit) = ([], [], JNull) /\
  reqIdRef (step E s Submit) = reqIdRef s /\
  pending (step E s Submit) = pending s /\
  aborted (step E s Submit) = aborted s /\
  loading (step E s Submit) = loading s.
Proof.
  intros H. cbn [step]. unfold onSubmit. cbn.
  assert (Hb : String.eqb (start s) "" || String.eqb (finish s) "" = true).
  { destruct H as [-> | ->]; [done|]. apply orb_true_r. }
  rewrite Hb. done.
Qed.

End AppProps.

Section AppExamples.
Import Stops App.
Local Open Scope list_scope.

Lemma stale_result_never_committed_witness :
  let rb := Normal scenarioResponse in
  let ra := Normal (JObj [("route", JObj [("geometry", JObj [])])]) in
  let s0 := run sampleEngine initial fillForm in
  let sA := step sampleEngine s0 Submit in
  let a := reqIdRef sA in
  let s1 := run sampleEngine sA [] in
  let sB := step sampleEngine s1 Submit in
  let b := reqIdRef sB in
  let s2 := run sampleEngine sB [] in
  let s3 := step sampleEngine s2 (Settle b rb) in
  let s4 := run sampleEngine s3 [] in
  let s5 := step sampleEngine s4 (Settle a ra) in
  (start s0 <> "" /\ finish s0 <> "" /\ start s1 <> "" /\ finish s1 <> "") /\
  a < b /\ display s5 = display s4.
Proof.
  cbv zeta.
  assert (H1 : start (run sampleEngine initial fillForm) <> "")
    by (vm_compute; discriminate).
  assert (H2 : finish (run sampleEngine initial fillForm) <> "")
    by (vm_compute; discriminate).
  assert (H3 : start (run sampleEngine
                        (step sampleEngine
                           (run sampleEngine initial fillForm) Submit) [])
               <> "")
    by (vm_compute; discriminate).
  assert (H4 : finish (run sampleEngine
                         (step sampleEngine
                            (run sampleEngine initial fillForm) Submit) [])
               <> "")
    by (vm_compute; discriminate).
  pose proof (stale_result_never_committed sampleEngine fillForm [] [] []
                (Normal scenarioResponse)
                (Normal (JObj [("route", JObj [("geometry", JObj [])])]))
                H1 H2 H3 H4) as H.
  exact (conj (conj H1 (conj H2 (conj H3 H4)))
              (conj (proj1 H) (proj1 (proj2 H)))).
Defined.

(** The plan-route scenario: the displayed route is the swapped geometry
    and only the first of the two stops with station id 1 is displayed. *)
Theorem scenario_plan_route_response (E : Engine) :
  display (run E initial
             (fillForm ++ [Submit; Settle 1 (Normal scenarioResponse)]))
  = ([(JNum 39.7%float, JNum (-104.9)%float);
      (JNum 39.8%float, JNum (-104.8)%float)],
     [scenarioStop "Stop A"],
     JNull).
Proof.
  unfold run, fillForm. cbn [app fold_left step].
  rewrite bool_decide_eq_true_2 by (vm_compute; by left).
  apply (onSettled_latest E 1 _ scenarioResponse JUndefined scenarioGeometry
           JUndefined
           [(JNum 39.7%float, JNum (-104.9)%float);
            (JNum 39.8%float, JNum (-104.8)%float)]
           [scenarioStop "Stop A"; scenarioStop "Stop A dup"]
           [scenarioStop "Stop A"]);
    [reflexivity..| |reflexivity].
  apply (dedupe_pair_same_id E (scenarioStop "Stop A")
           (scenarioStop "Stop A dup") 1%float); reflexivity.
Qed.

Lemma empty_input_issues_no_request_witness :
  error (step sampleEngine initial Submit)
  = JStr "Please enter both Start and Finish." /\
  display (step sampleEngine initial Submit) = ([], [], JNull) /\
  reqIdRef (step sampleEngine initial Submit) = reqIdRef initial /\
  pending (step sampleEngine initial Submit) = pending initial /\
  aborted (step sampleEngine initial Submit) = aborted initial /\
  loading (step sampleEngine initial Submit) = loading initial.
Proof.
  exact (empty_input_issues_no_request sampleEngine initial
           (or_introl eq_refl)).
Defined.

(** Outside the form.  Were [onSubmit] run a second time while the first
    call is pending (the form does not let that happen, see
    [form_submissions_never_overlap]), and were the first call to answer
    after the second with a body that carries an [error] field, that
    [error] would be shown next to the route of the second request:
    [res.error] is read and shown before the token is compared. *)
Theorem superseded_error_field_is_shown (E : Engine) :
  let resB := JObj [("route", JObj [("geometry", scenarioGeometry)])] in
  let resA := JObj [("error", JStr "No route found")] in
  let s := run E initial
             (fillForm ++ [Submit; Submit; Settle 2 (Normal resB);
                           Settle 1 (Normal resA)]) in
  reqIdRef s = 2 /\
  error s = JStr "No route found" /\
  route s = [(JNum 39.7%float, JNum (-104.9)%float);
             (JNum 39.8%float, JNum (-104.8)%float)].
Proof. repeat split. Qed.

(** Outside the form.  Were [onSubmit] run a second time while the first
    call is pending, the first call would be aborted, and the message of
    the [AbortError] its promise is rejected with would be shown: the
    [catch] block of [onSubmit] has no test for it.  The suggestion lookup
    of [CityAutocomplete] does tell an [AbortError] from other failures:
    it leaves its error cell as it is. *)
Theorem cancelled_call_error_is_shown (E : Engine) :
  let abortError := ErrorObj "AbortError" "The user aborted a request." in
  let s := run E initial
             (fillForm ++ [Submit; Submit; Settle 1 (Throw abortError)]) in
  1 ∈ aborted s /\ 2 ∈ pending s /\
  error s = JStr "The user aborted a request." /\
  loading s = false /\
  (forall st, CityAutocomplete.error
                (CityAutocomplete.onLookupFailed E abortError st)
              = CityAutocomplete.error st).
Proof.
  cbv zeta. split; [vm_compute; by left|]. split; [vm_compute; by left|].
  split; [reflexivity|]. split; [reflexivity|]. reflexivity.
Qed.

End AppExamples.

(** * Further properties *)

(** ** Segments are stretches of the detour, coloured as classified *)
Section SegmentProps.
Import MapView Segments.
Local Open Scope list_scope.

Lemma stretchOf_take_S (d seg : list LatLng) (k : nat) :
  stretchOf (take k d) seg -> stretchOf (take (S k) d) seg.
Proof.
  intros (pre & post & Heq).
  destruct (d !! k) as [x|] eqn:Hx.
  - exists pre, (post ++ [x]).
    by rewrite (take_S_r _ _ _ Hx), Heq, <- !app_assoc.
  - exists pre, post. rewrite <- Heq.
    apply lookup_ge_None in Hx. by rewrite !take_ge by lia.
Qed.

Lemma flush_Walk near (d : list LatLng) (k : nat) (st : Loop) :
  Walk near d k st -> Walk near d k (flush st).
Proof.
  intros [[pre Hsuf] Hruns Hcol Hcur]. unfold flush.
  case_bool_decide; [|by constructor; eauto].
  destruct (currentIsGreen st) eqn:Hg;
    (constructor; cbn [current runs currentIsGreen];
     [ by exists pre
     | apply Forall_app; split; [done|]; constructor; [|done];
       exists pre, []; by rewrite app_nil_r
     | apply Forall_app; split; [done|]; constructor; [|done]; exact Hcur
     | exact Hcur ]).
Qed.

Lemma body_Walk baseRoute (d : list LatLng) (k : nat) (st : Loop) :
  k < length d ->
  Walk (isNear baseRoute) d k st ->
  Walk (isNear baseRoute) d (S k) (body baseRoute d k st).
Proof.
  intros Hk HW.
  assert (Hpt : d !! k = Some (d !!! k))
    by (by apply list_lookup_lookup_total_lt).
  pose proof (flush_Walk _ _ _ _ HW) as HF.
  destruct HW as [[pre Hsuf] Hruns Hcol Hcur].
  assert (Hup : forall rs : list (bool * list LatLng),
    Forall (fun r => stretchOf (take k d) r.2) rs ->
    Forall (fun r => stretchOf (take (S k) d) r.2) rs).
  { intros rs Hrs. eapply list.Forall_impl; [exact Hrs|].
    intros r. apply stretchOf_take_S. }
  unfold body. case_bool_decide as Hk0.
  - subst k. constructor; cbn [current runs currentIsGreen].
    + exists pre. by rewrite (take_S_r _ _ _ Hpt), Hsuf, app_assoc.
    + by apply Hup.
    + done.
    + destruct (current st) as [|c0 cur]; [by constructor|].
      destruct pre; discriminate.
  - destruct (Bool.eqb _ _) eqn:Heq.
    + apply Bool.eqb_prop in Heq.
      constructor; cbn [current runs currentIsGreen].
      * exists pre. by rewrite (take_S_r _ _ _ Hpt), Hsuf, app_assoc.
      * by apply Hup.
      * done.
      * destruct (current st) as [|c0 cur]; [by constructor|].
        cbn in Hcur |- *. rewrite ?drop_0 in Hcur |- *.
        apply Forall_app. split; [done|]. by constructor.
    + destruct HF as [_ HFruns HFcol _].
      constructor; cbn [current runs currentIsGreen].
      * exists (take (k - 1) d).
        assert (Hprev : d !! (k - 1) = Some (d !!! (k - 1)))
          by (apply list_lookup_lookup_total_lt; lia).
        rewrite (take_S_r _ _ _ Hpt).
        replace k with (S (k - 1)) at 1 by lia.
        by rewrite (take_S_r _ _ _ Hprev), <- app_assoc.
      * by apply Hup.
      * done.
      * cbn. rewrite ?drop_0. by constructor.
Qed.

Lemma iter_Walk baseRoute (d : list LatLng) (k : nat) :
  k <= length d -> Walk (isNear baseRoute) d k (iter baseRoute d k).
Proof.
  induction k as [|k IH]; intros Hk.
  - constructor; cbn; try done. by exists [].
  - rewrite iter_S. apply body_Walk; [lia|]. apply IH. lia.
Qed.

Lemma classifyLoop_Walk (route : list LatLng) baseRoute :
  Forall (fun r => stretchOf route r.2 /\ classifiedAs (isNear baseRoute) r)
    (classifyRuns route baseRoute).
Proof.
  unfold classifyRuns, classifyLoop.
  destruct (detour route) as [d|] eqn:Hd; [|by constructor].
  destruct (base baseRoute); [|by constructor].
  unfold detour in Hd. case_bool_decide; [|done]. injection Hd as <-.
  destruct (flush_Walk _ _ _ _ (iter_Walk baseRoute route (length route)
                                  ltac:(lia))) as [_ Hruns Hcol _].
  rewrite firstn_all in Hruns. apply Forall_and. by split.
Qed.

(** Every segment [classify] returns is a contiguous stretch of the detour
    route. *)
Theorem classify_segments_are_stretches
    (route : list LatLng) (baseRoute : option (list LatLng)) :
  Forall (stretchOf route)
    ((classify route baseRoute).1 ++ (classify route baseRoute).2).
Proof.
  destruct (classifyLoop_projected route baseRoute) as [Hg Hr].
  pose proof (classifyLoop_Walk route baseRoute) as HW.
  rewrite list.Forall_forall in HW.
  unfold classify. cbn [fst snd]. rewrite Hg, Hr.
  apply Forall_app; split; apply list.Forall_forall;
    intros seg ([c s] & -> & Hin)%list_elem_of_fmap;
    apply list_elem_of_filter in Hin as [_ Hin]; apply (HW _ Hin).
Qed.

(** The colours are right: after its first point (which is the boundary
    shared with the run before, or the first point of the route), every
    point of an on-route segment is near the base route and every point of
    a detour segment is not. *)
Theorem classify_segments_coloured
    (route : list LatLng) (baseRoute : option (list LatLng)) :
  Forall (fun seg => Forall (fun p => isNear baseRoute p = true) (drop 1 seg))
    (classify route baseRoute).1 /\
  Forall (fun seg => Forall (fun p => isNear baseRoute p = false) (drop 1 seg))
    (classify route baseRoute).2.
Proof.
  destruct (classifyLoop_projected route baseRoute) as [Hg Hr].
  pose proof (classifyLoop_Walk route baseRoute) as HW.
  rewrite list.Forall_forall in HW.
  unfold classify. cbn [fst snd]. rewrite Hg, Hr.
  split; apply list.Forall_forall;
    intros seg ([c s] & -> & Hin)%list_elem_of_fmap;
    apply list_elem_of_filter in Hin as [Hc Hin];
    destruct (HW _ Hin) as [_ Hcol]; unfold classifiedAs in Hcol;
    cbn in Hc, Hcol |- *; by rewrite Hc in Hcol.
Qed.

End SegmentProps.

(** ** The scan for the nearest base point *)
Section FloatOrderFacts.
Import FloatOrder.

Lemma magnitude_spec e1 m1 e2 m2 :
  match magnitude e1 m1 e2 m2 with
  | Lt => (e1 < e2)%Z \/ (e1 = e2 /\ (m1 < m2)%positive)
  | Eq => e1 = e2 /\ m1 = m2
  | Gt => (e2 < e1)%Z \/ (e1 = e2 /\ (m2 < m1)%positive)
  end.
Proof.
  unfold magnitude. destruct (Z.compare_spec e1 e2); [|lia..].
  change (Pos.compare_cont Eq m1 m2) with (Pos.compare m1 m2).
  destruct (Pos.compare_spec m1 m2); lia.
Qed.

Lemma SFcompare_finite s1 m1 e1 s2 m2 e2 :
  SFcompare (S754_finite s1 m1 e1) (S754_finite s2 m2 e2)
  = Some match s1, s2 with
         | true, false => Lt
         | false, true => Gt
         | false, false => magnitude e1 m1 e2 m2
         | true, true => CompOpp (magnitude e1 m1 e2 m2)
         end.
Proof.
  unfold magnitude. cbn. destruct s1, s2; try reflexivity;
    destruct (Z.compare e1 e2); reflexivity.
Qed.

Ltac magnitudes :=
  repeat match goal with
  | |- context [magnitude ?a ?b ?c ?d] =>
      let H := fresh in
      pose proof (magnitude_spec a b c d) as H;
      destruct (magnitude a b c d)
  | H : context [magnitude ?a ?b ?c ?d] |- _ =>
      let H := fresh in
      pose proof (magnitude_spec a b c d) as H;
      destruct (magnitude a b c d)
  end; cbn in *; try congruence; try lia.

Ltac signs sx sy sz :=
  rewrite ?SFcompare_finite; try (cbn; congruence);
  try (destruct sx; cbn; congruence);
  try (destruct sy; cbn; congruence);
  try (destruct sz; cbn; congruence);
  try (destruct sx, sy; cbn; congruence);
  try (destruct sx, sz; cbn; congruence);
  try (destruct sy, sz; cbn; congruence).

Lemma SFltb_trans x y z :
  SFltb x y = true -> SFltb y z = true -> SFltb x z = true.
Proof.
  unfold SFltb.
  destruct x as [[]|[]| |sx mx ex], y as [[]|[]| |sy my ey],
    z as [[]|[]| |sz mz ez]; signs sx sy sz.
  destruct sx, sy, sz; cbn; try congruence; magnitudes.
Qed.

Lemma SFleb_trans x y z :
  SFleb x y = true -> SFleb y z = true -> SFleb x z = true.
Proof.
  unfold SFleb.
  destruct x as [[]|[]| |sx mx ex], y as [[]|[]| |sy my ey],
    z as [[]|[]| |sz mz ez]; signs sx sy sz.
  destruct sx, sy, sz; cbn; try congruence; magnitudes.
Qed.

Lemma SFltb_irrefl x : SFltb x x = false.
Proof.
  unfold SFltb. destruct x as [[]|[]| |[] m e]; try reflexivity;
    rewrite SFcompare_finite; magnitudes.
Qed.

Lemma SFleb_total x y :
  x <> S754_nan -> y <> S754_nan -> SFltb x y = false -> SFleb y x = true.
Proof.
  unfold SFltb, SFleb.
  destruct x as [[]|[]| |sx mx ex], y as [[]|[]| |sy my ey];
    rewrite ?SFcompare_finite; try (cbn; congruence);
    try (destruct sx; cbn; congruence);
    try (destruct sy; cbn; congruence).
  intros _ _. destruct sx, sy; cbn; try congruence; magnitudes.
Qed.

Lemma ltb_trans (x y z : float) :
  (x <? y)%float = true -> (y <? z)%float = true -> (x <? z)%float = true.
Proof. rewrite !FloatAxioms.ltb_spec. apply SFltb_trans. Qed.

Lemma ltb_irrefl (x : float) : (x <? x)%float = false.
Proof. rewrite FloatAxioms.ltb_spec. apply SFltb_irrefl. Qed.

Lemma leb_trans (x y z : float) :
  (x <=? y)%float = true -> (y <=? z)%float = true -> (x <=? z)%float = true.
Proof. rewrite !FloatAxioms.leb_spec. apply SFleb_trans. Qed.

Lemma leb_total (x y : float) :
  is_nan x = false -> is_nan y = false ->
  (x <? y)%float = false -> (y <=? x)%float = true.
Proof.
  rewrite !is_nan_spec, FloatAxioms.ltb_spec, FloatAxioms.leb_spec.
  apply SFleb_total.
Qed.

Lemma leb_not_nan (x y : float) : (x <=? y)%float = true -> is_nan x = false.
Proof.
  rewrite FloatAxioms.leb_spec. intros H. apply is_nan_spec. intros Hx.
  rewrite Hx in H. discriminate.
Qed.

Lemma infinity_above_threshold :
  (infinity <=? MapView.GREEN_THRESHOLD_DEG2)%float = false.
Proof. vm_compute. reflexivity. Qed.

End FloatOrderFacts.

Section NearestProps.
Import MapView.
Local Open Scope list_scope.

(** The scan never raises the best distance found so far. *)
Lemma scan_lowers (p : LatLng) (b : list LatLng) (best : float) :
  fold_left (scanStep p) b best = best \/
  (fold_left (scanStep p) b best <? best)%float = true.
Proof.
  revert best. induction b as [|q b IH]; intros best; [by left|].
  cbn [fold_left]. unfold scanStep at 2 4.
  destruct (dist2 p q <? best)%float eqn:Hlt; [|apply IH].
  destruct (IH (dist2 p q)) as [->|Hlow]; [by right|].
  right. by apply ltb_trans with (dist2 p q).
Qed.

(** The result of the scan is the start value or one of the distances. *)
Lemma scan_attained (p : LatLng) (b : list LatLng) (best : float) :
  fold_left (scanStep p) b best = best \/
  exists q, q ∈ b /\ fold_left (scanStep p) b best = dist2 p q.
Proof.
  revert best. induction b as [|q b IH]; intros best; [by left|].
  cbn [fold_left]. unfold scanStep at 2 4.
  destruct (dist2 p q <? best)%float eqn:Hlt.
  - destruct (IH (dist2 p q)) as [->|(q' & Hin & ->)].
    + right. exists q. split; [left|done].
    + right. exists q'. split; [by right|done].
  - destruct (IH best) as [->|(q' & Hin & ->)]; [by left|].
    right. exists q'. split; [by right|done].
Qed.

(** No distance is strictly below the result of the scan. *)
Lemma scan_lower_bound (p : LatLng) (b : list LatLng) (best : float) (q : LatLng) :
  q ∈ b -> (dist2 p q <? fold_left (scanStep p) b best)%float = false.
Proof.
  revert best. induction b as [|q0 b IH]; intros best Hin.
  - by apply elem_of_nil in Hin.
  - cbn [fold_left]. apply elem_of_cons in Hin as [->|Hin]; [|by apply IH].
    set (b1 := scanStep p best q0).
    assert (Hb1 : (dist2 p q0 <? b1)%float = false).
    { subst b1. unfold scanStep.
      destruct (dist2 p q0 <? best)%float eqn:Hlt; [apply ltb_irrefl|done]. }
    destruct (scan_lowers p b b1) as [->|Hlow]; [done|].
    destruct (dist2 p q0 <? fold_left (scanStep p) b b1)%float eqn:Hc; [|done].
    by rewrite (ltb_trans _ _ _ Hc Hlow) in Hb1.
Qed.

(** The result of the scan is never NaN. *)
Lemma scan_result_not_nan (p : LatLng) (b : list LatLng) :
  is_nan (fold_left (scanStep p) b infinity) = false.
Proof.
  destruct (scan_lowers p b infinity) as [->|Hlow]; [reflexivity|].
  by apply ltb_not_nan in Hlow.
Qed.

(** [minDist2ToBase] finds the least squared distance: its result is
    [Infinity] or the squared distance to some base point, and no base point
    is at a squared distance strictly below it. *)
Theorem minDist2ToBase_is_least
    (baseRoute : option (list LatLng)) (p : LatLng) :
  (minDist2ToBase baseRoute p = infinity \/
   exists b q, base baseRoute = Some b /\ q ∈ b /\
     minDist2ToBase baseRoute p = dist2 p q) /\
  (forall b q, base baseRoute = Some b -> q ∈ b ->
     (dist2 p q <? minDist2ToBase baseRoute p)%float = false).
Proof.
  unfold minDist2ToBase. destruct (base baseRoute) as [b|]; [|by split; [left|]].
  split.
  - destruct (scan_attained p b infinity) as [->|(q & Hin & ->)]; [by left|].
    right. by exists b, q.
  - intros b' q [= <-]. apply scan_lower_bound.
Qed.

(** What "near" means: a point is classified as on the base route exactly
    when some point of the base route lies at a squared distance of at most
    the threshold from it. *)
Theorem isNear_iff_some_base_point_within_threshold
    (baseRoute : option (list LatLng)) (p : LatLng) :
  isNear baseRoute p = true <->
  exists b q, base baseRoute = Some b /\ q ∈ b /\
    (dist2 p q <=? GREEN_THRESHOLD_DEG2)%float = true.
Proof.
  unfold isNear, minDist2ToBase. split.
  - destruct (base baseRoute) as [b|];
      [|by rewrite infinity_above_threshold].
    intros Hle.
    destruct (scan_attained p b infinity) as [Heq|(q & Hin & Heq)];
      rewrite Heq in Hle.
    + by rewrite infinity_above_threshold in Hle.
    + by exists b, q.
  - intros (b & q & -> & Hin & Hle).
    apply leb_trans with (dist2 p q); [|done].
    apply leb_total.
    + by apply leb_not_nan in Hle.
    + apply scan_result_not_nan.
    + by apply scan_lower_bound.
Qed.

End NearestProps.

(** ** The reconciler's bookkeeping *)
Section ReconcilerProps.
Import App Reconciler.
Context (E : Engine).

Lemma reconciled_sameRefs (s s' : AppState) :
  sameRefs s s' -> reconciled s -> reconciled s'.
Proof.
  intros (_ & _ & _ & Ha & Hi & Hab & Hp) [H1 H2 H3 H4 H5].
  constructor; rewrite ?Ha, ?Hi, ?Hab, ?Hp; done.
Qed.

Lemma reconciled_settle (t : nat) (s : AppState) :
  reconciled s -> reconciled (settle t s).
Proof.
  intros [H1 H2 H3 H4 H5]. constructor; cbn; try done.
  - by apply NoDup_filter.
  - rewrite list.Forall_forall in H2 |- *.
    intros x [_ Hx]%list_elem_of_filter. by apply H2.
  - rewrite list.Forall_forall in H3 |- *.
    intros x [_ Hx]%list_elem_of_filter. by apply H3.
Qed.

Lemma reconciled_onSubmit (s : AppState) :
  reconciled s -> reconciled (onSubmit s).
Proof.
  intros [H1 H2 H3 H4 H5]. unfold onSubmit. cbn.
  destruct (_ || _); [by constructor|].
  rewrite list.Forall_forall in H2, H3, H5.
  unfold abortCurrent. cbn. rewrite H4.
  destruct (Nat.eqb_spec (reqIdRef s) 0) as [H0|H0]; constructor; cbn.
  - apply NoDup_cons. split; [|done]. intros Hin%H2. lia.
  - constructor; [lia|]. apply list.Forall_forall. intros t Hin%H2. lia.
  - constructor; [by left|]. apply list.Forall_forall.
    intros t Hin. specialize (H2 _ Hin). lia.
  - done.
  - apply list.Forall_forall. intros t Hin%H5. lia.
  - apply NoDup_cons. split; [|done]. intros Hin%H2. lia.
  - constructor; [lia|]. apply list.Forall_forall. intros t Hin%H2. lia.
  - constructor; [by left|]. apply list.Forall_forall.
    intros t Hin. right. destruct (H3 _ Hin) as [->|Hab]; [left|by right].
  - done.
  - constructor; [lia|]. apply list.Forall_forall. intros t Hin%H5. lia.
Qed.

Lemma reconciled_step (s : AppState) (ev : Event) :
  reconciled s -> reconciled (step E s ev).
Proof.
  intros HR. destruct ev as [v|v|v| |t r]; cbn [step].
  - by destruct HR.
  - by destruct HR.
  - by destruct HR.
  - by apply reconciled_onSubmit.
  - case_bool_decide; [|done].
    eapply reconciled_sameRefs; [apply onSettled_sameRefs|].
    by apply reconciled_settle.
Qed.

Lemma reconciled_run (s : AppState) (evs : list Event) :
  reconciled s -> reconciled (run E s evs).
Proof.
  revert s. induction evs as [|ev evs IH]; intros s HR; [done|].
  rewrite run_cons. apply IH. by apply reconciled_step.
Qed.

Lemma reconciled_initial : reconciled initial.
Proof. constructor; cbn; try done. apply NoDup_nil. done. Qed.

(** Whatever happened to the component since it was mounted: the pending
    calls have distinct tokens, minted between 1 and the latest token;
    every pending call other than the latest one has had [abort()] called on
    its controller; [abortRef] holds the latest call's controller; and
    [abort()] has not been called on the latest call's controller. *)
Theorem superseded_calls_are_aborted (evs : list Event) :
  let s := run E initial evs in
  NoDup (pending s) /\
  (forall t, t ∈ pending s ->
     1 <= t <= reqIdRef s /\ (t = reqIdRef s \/ t ∈ aborted s)) /\
  abortRef s
    = (if Nat.eqb (reqIdRef s) 0 then None else Some (reqIdRef s)) /\
  reqIdRef s ∉ aborted s.
Proof.
  intros s. destruct (reconciled_run initial evs reconciled_initial)
    as [H1 H2 H3 H4 H5].
  fold s in H1, H2, H3, H4, H5.
  rewrite list.Forall_forall in H2, H3, H5.
  repeat split; try done.
  - by apply H2.
  - by apply H2.
  - by apply H3.
  - intros Hin%H5. lia.
Qed.

End ReconcilerProps.

(** ** What the component shows when a call fails or answers badly *)
Section ResponseProps.
Import Stops App.
Context (E : Engine).

Ltac eff_run :=
  cbv beta iota zeta
      delta [mbind eff_bind mret eff_ret lift write readReqId].

Lemma step_settle_throw (s : AppState) (t : nat) (e : Thrown) :
  t ∈ pending s ->
  step E s (Settle t (Throw e))
  = setLoading false (setError (JStr (errorText E e)) (settle t s)).
Proof. intros Ht. cbn [step]. by rewrite bool_decide_eq_true_2. Qed.

Lemma settle_not_pending (s : AppState) (t : nat) : t ∉ pending (settle t s).
Proof. cbn. intros [Hne _]%list_elem_of_filter. done. Qed.

Lemma toStopPoint_nullish (v : JsVal) :
  nullish v = true ->
  toStopPoint v = Throw (EngineTypeError "read station_id").
Proof. destruct v; try discriminate; reflexivity. Qed.

Lemma coordinate_total (v : JsVal) (p : string) (i : nat) :
  nullish v = false -> exists c, coordinate v p i = Normal c.
Proof.
  intros Hv. unfold coordinate.
  destruct v; try discriminate; cbn; eauto.
  destruct (isNumber (own props p)); [eauto|].
  destruct (own props "coord"); cbn; eauto.
Qed.

Lemma toStopPoint_total (v : JsVal) :
  nullish v = false -> exists p, toStopPoint v = Normal p.
Proof.
  intros Hv. unfold toStopPoint.
  destruct (coordinate_total v "lat" 1 Hv) as [la ->].
  destruct (coordinate_total v "lon" 0 Hv) as [lo ->].
  destruct v; try discriminate; cbn; eauto.
Qed.

Lemma mapM_toStopPoint_throw (items : list JsVal) :
  Exists (fun v => nullish v = true) items ->
  mapM toStopPoint items = Throw (EngineTypeError "read station_id").
Proof.
  induction items as [|v items IH]; intros Hex; [by apply Exists_nil in Hex|].
  cbn [mapM]. destruct (nullish v) eqn:Hv.
  - by rewrite toStopPoint_nullish.
  - destruct (toStopPoint_total v Hv) as [p ->].
    apply Exists_cons in Hex as [Hex|Hex]; [congruence|].
    by rewrite IH.
Qed.

Lemma mapM_toStopPoint_thrown (items : list JsVal) (e : Thrown) :
  mapM toStopPoint items = Throw e ->
  Exists (fun v => nullish v = true) items.
Proof.
  induction items as [|v items IH]; intros H; [discriminate|].
  destruct (nullish v) eqn:Hv; [by left|]. right.
  cbn [mapM] in H. destruct (toStopPoint_total v Hv) as [p Hp].
  rewrite Hp in H. cbn in H.
  destruct (mapM toStopPoint items); [discriminate|]. by apply IH.
Qed.

(** The stop list of a response cannot be read exactly when the response is
    [null] or [undefined], or its [stops] is an array with a [null] or
    [undefined] entry. *)
Theorem stopPoints_throws_iff (res : JsVal) :
  (exists e, stopPoints res = Throw e) <->
  nullish res = true \/
  exists items, get res "stops" = Normal (JArr items) /\
                Exists (fun v => nullish v = true) items.
Proof.
  unfold stopPoints. split.
  - intros [e He]. destruct (get res "stops") as [st|e'] eqn:Hst.
    + right. destruct st; try discriminate. exists items. split; [done|].
      cbn in He. by apply mapM_toStopPoint_thrown in He.
    + left. by destruct res.
  - intros [Hres|(items & -> & Hex)].
    + destruct res; try discriminate; by eexists.
    + cbn. rewrite mapM_toStopPoint_throw by done. by eexists.
Qed.

(** A call that fails is reported by its message and changes nothing of the
    displayed result, whichever call it is: a non-2xx answer shows
    "Request failed (status): body", a 2xx body that is no JSON shows
    "Invalid JSON response: " and the first 200 characters of the body, a
    rejected fetch shows the rejection's message, and a body that parses to
    [null] shows the engine's TypeError for the read of [error].  The
    loading flag is lowered in each case. *)
Theorem failed_call_shows_its_message
    (s : AppState) (t status : nat) (text : string) (e : Thrown) :
  t ∈ pending s ->
  let after r := step E s (Settle t r) in
  let shows r msg :=
    error (after r) = JStr msg /\ display (after r) = display s /\
    loading (after r) = false /\ t ∉ pending (after r) in
  (Api.ok status = false ->
   shows (Api.planRoute E (Api.Responded status text))
         ("Request failed (" +:+ dec status +:+ "): " +:+ text)) /\
  (Api.ok status = true -> JSON_parse E text = None ->
   shows (Api.planRoute E (Api.Responded status text))
         ("Invalid JSON response: " +:+ String.substring 0 200 text)) /\
  shows (Api.planRoute E (Api.FetchRejected e)) (errorText E e) /\
  (Api.ok status = true -> JSON_parse E text = Some JNull ->
   shows (Api.planRoute E (Api.Responded status text))
         (errorText E (EngineTypeError "read error"))).
Proof.
  intros Ht after shows. subst after shows. cbv beta.
  pose proof (settle_not_pending s t) as Hnp.
  assert (Hthrow : forall e',
    error (step E s (Settle t (Throw e'))) = JStr (errorText E e') /\
    display (step E s (Settle t (Throw e'))) = display s /\
    loading (step E s (Settle t (Throw e'))) = false /\
    t ∉ pending (step E s (Settle t (Throw e')))).
  { intros e'. by rewrite step_settle_throw. }
  split; [|split; [|split]].
  - intros Hok. cbn [Api.planRoute]. rewrite Hok. apply Hthrow.
  - intros Hok Hparse. cbn [Api.planRoute]. rewrite Hok, Hparse.
    apply Hthrow.
  - apply Hthrow.
  - intros Hok Hparse. cbn [Api.planRoute]. rewrite Hok, Hparse.
    cbn [negb step]. rewrite bool_decide_eq_true_2 by done.
    unfold onSettled, afterAwait. eff_run. cbn [get]. eff_run. done.
Qed.

(** A response whose route can be read but whose stop list has a [null] or
    [undefined] entry is committed in part: the route is displayed, the
    stops and the summary keep the values the submission gave them, and the
    engine's TypeError is shown. *)
Theorem malformed_stop_commits_route_only
    (s : AppState) (t : nat) (res g : JsVal)
    (latlngs : list Geometry.LatLng) (items : list JsVal) :
  t ∈ pending s -> reqIdRef s = t ->
  routeGeometry res = Normal g ->
  Geometry.toLatLngs g = Normal latlngs ->
  get res "stops" = Normal (JArr items) ->
  Exists (fun v => nullish v = true) items ->
  let s' := step E s (Settle t (Normal res)) in
  route s' = latlngs /\ stops s' = stops s /\ summary s' = summary s /\
  error s' = JStr (errorText E (EngineTypeError "read station_id")) /\
  loading s' = false.
Proof.
  intros Ht Hid Hg Hl Hst Hex s'. subst s'.
  cbn [step]. rewrite bool_decide_eq_true_2 by done.
  assert (Hsp : stopPoints res = Throw (EngineTypeError "read station_id")).
  { unfold stopPoints. rewrite Hst. cbn. by apply mapM_toStopPoint_throw. }
  assert (Herr : exists err, get res "error" = Normal err).
  { destruct res; try discriminate; by eexists. }
  destruct Herr as [err Herr].
  unfold onSettled, afterAwait. eff_run. rewrite Herr. eff_run.
  destruct (truthy err); eff_run; cbn [reqIdRef setError settle];
    rewrite Hid, Nat.eqb_refl; cbn [negb]; rewrite Hg; eff_run;
    rewrite Hl; eff_run; rewrite Hsp; eff_run; done.
Qed.

(** A response that has no error, no route, no stop array and no summary
    (the body [{}], or any number, string or boolean) clears the display
    without a message. *)
Theorem bare_response_commits_empty_result
    (s : AppState) (t : nat) (res err rt st sm : JsVal) :
  t ∈ pending s -> reqIdRef s = t ->
  get res "error" = Normal err -> truthy err = false ->
  get res "route" = Normal rt -> nullish rt = true ->
  get res "stops" = Normal st -> isArray st = false ->
  get res "summary" = Normal sm -> truthy sm = false ->
  let s' := step E s (Settle t (Normal res)) in
  display s' = ([], [], JNull) /\ error s' = error s /\ loading s' = false.
Proof.
  intros Ht Hid He Het Hr Hrt Hs Hst Hm Hsm s'. subst s'.
  cbn [step]. rewrite bool_decide_eq_true_2 by done.
  unfold onSettled, afterAwait. eff_run. rewrite He, Het. eff_run.
  cbn [reqIdRef settle]. rewrite Hid, Nat.eqb_refl. cbn [negb].
  unfold routeGeometry. rewrite Hr. cbn [mbind completion_bind]. rewrite Hrt.
  eff_run. cbn [Geometry.toLatLngs truthy negb]. eff_run.
  unfold stopPoints. rewrite Hs. cbn [mbind completion_bind].
  destruct st; try discriminate; eff_run; cbn [dedupe dedupeLoop]; eff_run;
    rewrite Hm, Hsm; done.
Qed.

End ResponseProps.

(** ** More on the normalizer *)
Section NormalizerProps.
Import Geometry Spec.
Local Open Scope list_scope.

(** [toLatLngs] throws exactly on a payload object whose [coordinates] is
    truthy and no array (a number, a string, [true], an object); on every
    other value it returns a route. *)
Theorem toLatLngs_throws_iff (geometry : JsVal) :
  (exists e, toLatLngs geometry = Throw e) <->
  exists props, geometry = JObj props /\
    truthy (own props "coordinates") = true /\
    isArray (own props "coordinates") = false.
Proof.
  split.
  - intros [e He].
    destruct geometry as [| |b|x|s|items|props];
      try (unfold toLatLngs in He; cbn in He;
           repeat match type of He with
                  | context [if ?b then _ else _] => destruct b
                  end; discriminate).
    exists props. split; [done|].
    assert (Hfalsy : truthy (own props "coordinates") = false ->
                     toLatLngs (JObj props) = Normal []).
    { intros Hf. unfold toLatLngs. cbn. by rewrite Hf. }
    destruct (truthy (own props "coordinates")) eqn:Ht;
      [|by rewrite Hfalsy in He].
    split; [done|].
    destruct (own props "coordinates") as [| |b|x|s|coords|props'] eqn:Hc;
      try done.
    by rewrite (toLatLngs_array props coords Hc) in He.
  - intros (props & -> & Ht & Ha).
    unfold toLatLngs. cbn. rewrite Ht. cbn.
    destruct (own props "coordinates") as [| |b|x|s|coords|props'];
      try discriminate; cbn.
    + by eexists.
    + by eexists.
    + destruct s as [|c s]; cbn; by eexists.
    + destruct (own props' "0") as [| |b|x|s|[|[] ?]|]; cbn; by eexists.
Qed.

(** The normalization of a multi-part payload is the concatenation of the
    normalizations of its parts, when every part is a flat line. *)
Theorem toLatLngs_multipart_is_concatenation (lines : list JsVal) :
  isNested lines = true ->
  Forall (fun line => exists pts, line = JArr pts /\ isNested pts = false)
    lines ->
  exists routes,
    mapM (fun line => toLatLngs (JObj [("coordinates", line)])) lines
    = Normal routes /\
    toLatLngs (JObj [("coordinates", JArr lines)]) = Normal (concat routes).
Proof.
  intros Hn Hlines.
  rewrite (toLatLngs_array [("coordinates", JArr lines)] lines eq_refl).
  unfold sourcePoints. rewrite Hn. clear Hn.
  induction Hlines as [|line lines (pts & -> & Hflat) _ (routes & Hr & IH)].
  - by exists [].
  - exists (map swapped (filter (fun pt => isPoint pt = true) pts) :: routes).
    cbn [mapM]. rewrite (toLatLngs_array [("coordinates", JArr pts)] pts eq_refl).
    unfold sourcePoints at 1. rewrite Hflat.
    cbn [mbind completion_bind]. rewrite Hr. split; [reflexivity|].
    cbn [map concat elements]. rewrite filter_app, map_app.
    injection IH as ->. reflexivity.
Qed.

(** Shape detection looks at the first line only: when the first line of a
    multi-part payload is empty, the remaining lines are taken for points,
    so that each line of two or more points becomes one coordinate made of
    its first two points. *)
Theorem toLatLngs_empty_first_line (lines : list JsVal) :
  toLatLngs (JObj [("coordinates", JArr (JArr [] :: lines))])
  = Normal (map swapped (filter (fun pt => isPoint pt = true) lines)).
Proof.
  rewrite (toLatLngs_array [("coordinates", JArr (JArr [] :: lines))]
             (JArr [] :: lines) eq_refl).
  unfold sourcePoints. cbn [isNested].
  by rewrite filter_cons_False by (cbn; rewrite bool_decide_eq_true; lia).
Qed.

End NormalizerProps.

(** ** Trimming, splitting and the API key *)
Section TextProps.
Import Stdlib.Strings.Ascii Text.
Local Open Scope list_scope.

Lemma dropStart_first (p : ascii -> bool) (s : string) (c : ascii) :
  first (dropStart p s) = Some c -> p c = false.
Proof.
  induction s as [|a s IH]; [discriminate|]. cbn.
  destruct (p a) eqn:Ha; [done|]. cbn. congruence.
Qed.

Lemma dropStart_fixed (p : ascii -> bool) (s : string) :
  (forall c, first s = Some c -> p c = false) -> dropStart p s = s.
Proof.
  destruct s as [|a s]; [done|]. intros H. cbn. by rewrite (H a eq_refl).
Qed.

Lemma dropEnd_cons (p : ascii -> bool) (c : ascii) (s : string) :
  dropEnd p (String c s) = ""
  \/ exists kept, dropEnd p (String c s) = String c kept.
Proof.
  cbn. destruct (dropEnd p s); [|by eauto].
  destruct (p c); by eauto.
Qed.

Lemma dropEnd_first (p : ascii -> bool) (s : string) (c : ascii) :
  first (dropEnd p s) = Some c -> first s = Some c.
Proof.
  destruct s as [|a s]; [done|].
  destruct (dropEnd_cons p a s) as [->|[kept ->]]; [discriminate|done].
Qed.

Lemma dropEnd_final (p : ascii -> bool) (s : string) (c : ascii) :
  final (dropEnd p s) = Some c -> p c = false.
Proof.
  induction s as [|a s IH]; [discriminate|]. cbn.
  destruct (dropEnd p s) as [|b kept] eqn:Hk.
  - destruct (p a) eqn:Ha; [discriminate|]. cbn. congruence.
  - cbn. exact IH.
Qed.

Lemma dropEnd_idem (p : ascii -> bool) (s : string) :
  dropEnd p (dropEnd p s) = dropEnd p s.
Proof.
  induction s as [|a s IH]; [done|]. cbn.
  destruct (dropEnd p s) as [|b kept] eqn:Hk.
  - destruct (p a) eqn:Ha; [done|]. cbn. by rewrite Ha.
  - cbn -[dropEnd] in *. change (dropEnd p (String a (String b kept)))
      with (match dropEnd p (String b kept) with
            | "" => if p a then "" else String a ""
            | kept' => String a kept'
            end).
    by rewrite IH.
Qed.

Lemma dropStart_all (p : ascii -> bool) (s : string) :
  dropStart p s = "" <-> all p s = true.
Proof.
  induction s as [|a s IH]; [done|]. cbn.
  destruct (p a); cbn; [done|]. split; discriminate.
Qed.

Lemma dropEnd_all (p : ascii -> bool) (s : string) :
  dropEnd p s = "" <-> all p s = true.
Proof.
  induction s as [|a s IH]; [done|]. cbn.
  destruct (dropEnd p s) as [|b kept].
  - destruct (p a); cbn; [tauto|]. split; discriminate.
  - split; [discriminate|]. intros [_ Hs]%andb_prop.
    apply IH in Hs. discriminate.
Qed.

Lemma strip_idem (p : ascii -> bool) (s : string) :
  dropEnd p (dropStart p (dropEnd p (dropStart p s)))
  = dropEnd p (dropStart p s).
Proof.
  rewrite (dropStart_fixed p (dropEnd p (dropStart p s))).
  - apply dropEnd_idem.
  - intros c Hc%dropEnd_first. by apply dropStart_first in Hc.
Qed.

Lemma strip_all (p : ascii -> bool) (s : string) :
  dropEnd p (dropStart p s) = "" <-> all p s = true.
Proof.
  rewrite <- dropStart_all. split; [|by intros ->].
  intros H. apply dropEnd_all in H.
  destruct (dropStart p s) as [|a r] eqn:Hs; [done|].
  assert (Ha : p a = false) by (apply (dropStart_first p s); by rewrite Hs).
  cbn in H. by rewrite Ha in H.
Qed.

Lemma trim_idem (s : string) : trim (trim s) = trim s.
Proof. apply strip_idem. Qed.

Lemma dropStart_keeps (p q : ascii -> bool) (s : string) :
  all q s = true -> all q (dropStart p s) = true.
Proof.
  induction s as [|a s IH]; [done|]. cbn.
  destruct (p a); [|done]. intros [_ Hs]%andb_prop. by apply IH.
Qed.

Lemma dropEnd_keeps (p q : ascii -> bool) (s : string) :
  all q s = true -> all q (dropEnd p s) = true.
Proof.
  induction s as [|a s IH]; [done|]. cbn. intros [Ha Hs]%andb_prop.
  specialize (IH Hs). destruct (dropEnd p s) as [|b kept].
  - destruct (p a); cbn; [done|]. by rewrite Ha.
  - change (all q (String a (String b kept)))
      with (q a && all q (String b kept)). by rewrite Ha, IH.
Qed.

Lemma trim_keeps (q : ascii -> bool) (s : string) :
  all q s = true -> all q (trim s) = true.
Proof. intros H. by apply dropEnd_keeps, dropStart_keeps. Qed.

Lemma split_nonempty (sep : ascii) (s : string) : split sep s <> [].
Proof.
  destruct s as [|a s]; [done|]. cbn.
  destruct (Ascii.eqb a sep); [done|]. by destruct (split sep s).
Qed.

Lemma split_free (sep : ascii) (s : string) :
  Forall (fun part => all (fun c => negb (Ascii.eqb c sep)) part = true)
    (split sep s).
Proof.
  induction s as [|a s IH]; [by repeat constructor|]. cbn.
  destruct (Ascii.eqb a sep) eqn:Ha; [by constructor|].
  destruct (split sep s) as [|part rest]; [by repeat constructor; cbn; rewrite Ha|].
  apply Forall_cons in IH as [Hp Hr]. constructor; [|done].
  cbn. by rewrite Ha, Hp.
Qed.

Lemma split_whole (sep : ascii) (s : string) :
  all (fun c => negb (Ascii.eqb c sep)) s = true -> split sep s = [s].
Proof.
  induction s as [|a s IH]; [done|]. cbn. intros [Ha Hs]%andb_prop.
  apply negb_true_iff in Ha. by rewrite Ha, IH.
Qed.

Lemma split_append (sep : ascii) (a b : string) :
  all (fun c => negb (Ascii.eqb c sep)) a = true ->
  split sep (a +:+ String sep b) = a :: split sep b.
Proof.
  induction a as [|x a IH]; intros Ha.
  - change (split sep (String sep b) = "" :: split sep b).
    cbn. by rewrite Ascii.eqb_refl.
  - cbn in Ha. apply andb_prop in Ha as [Hx Ha]. apply negb_true_iff in Hx.
    rewrite append_cons. cbn [split]. by rewrite Hx, IH.
Qed.

End TextProps.

Section TilesProps.
Import Stdlib.Strings.Ascii Text Tiles.

(** The API key is used as it is configured, save for the white space
    around it and then the quotes around it.  When a key is left the tiles
    come from Geoapify with that key, which neither starts nor ends with a
    quote; when none is left (no value, or only white space around only
    quotes) the tiles come from OpenStreetMap.  The autocomplete is
    switched on exactly when the Geoapify tiles are. *)
Theorem api_key_is_unquoted (apiKeyRaw : option string) :
  (useGeoapify apiKeyRaw = true ->
   exists raw k,
     apiKeyRaw = Some raw /\ apiKey apiKeyRaw = Some k /\ k <> "" /\
     tileUrl apiKeyRaw = geoapifyTiles +:+ k /\
     (forall c, first k = Some c -> isQuote c = false) /\
     (forall c, final k = Some c -> isQuote c = false)) /\
  (useGeoapify apiKeyRaw = false ->
   tileUrl apiKeyRaw = openStreetMapTiles /\
   match apiKeyRaw with
   | Some raw => all isQuote (trim raw) = true
   | None => True
   end) /\
  (forall raw, all isQuote (trim raw) = true ->
     useGeoapify (Some raw) = false) /\
  canAutocomplete apiKeyRaw = useGeoapify apiKeyRaw.
Proof.
  split; [|split; [|split; [|done]]].
  - unfold tileUrl. intros Hu. rewrite Hu. unfold useGeoapify in Hu.
    destruct apiKeyRaw as [raw|]; [|done]. unfold apiKey in Hu |- *.
    destruct (String.eqb raw ""); [done|].
    exists raw, (stripQuotes (trim raw)). repeat split; try done.
    + intros Hk. by rewrite Hk in Hu.
    + intros c Hc%dropEnd_first. by apply dropStart_first in Hc.
    + intros c Hc. by apply dropEnd_final in Hc.
  - unfold tileUrl. intros Hu. rewrite Hu. split; [done|].
    destruct apiKeyRaw as [raw|]; [|done].
    unfold useGeoapify, apiKey in Hu.
    destruct (String.eqb raw "") eqn:Hraw.
    { apply String.eqb_eq in Hraw. by subst raw. }
    apply strip_all. unfold stripQuotes in Hu.
    destruct (dropEnd isQuote (dropStart isQuote (trim raw))); [done|].
    discriminate.
  - intros raw Hq. unfold useGeoapify, apiKey.
    destruct (String.eqb raw ""); [done|].
    apply strip_all in Hq. unfold stripQuotes. by rewrite Hq.
Qed.

End TilesProps.

(** ** Marker labels *)
Section LabelsProps.
Import Stdlib.Strings.Ascii Text Labels.
Local Open Scope list_scope.

Ltac codes :=
  unfold isLetter, isWord, isSpace, isUpper, isLower, isQuote in *;
  repeat match goal with
    | H : _ && _ = true |- _ => apply andb_prop in H as [? ?]
    | H : Nat.leb _ _ = true |- _ => apply Nat.leb_le in H
    | H : Nat.eqb _ _ = true |- _ => apply Nat.eqb_eq in H
    end.

Lemma upper_not_lower (c : ascii) : isUpper c = true -> isLower c = false.
Proof.
  intros H. codes. unfold isLower.
  destruct (Nat.leb_spec 97 (code c)); [|done]. lia.
Qed.

Lemma upper_not_space (c : ascii) : isUpper c = true -> isSpace c = false.
Proof.
  intros H. codes. unfold isSpace.
  destruct (Nat.leb_spec 9 (code c)), (Nat.leb_spec (code c) 13),
    (Nat.eqb_spec (code c) 32), (Nat.eqb_spec (code c) 160); cbn; try done; lia.
Qed.

Lemma upper_not_comma (c : ascii) :
  isUpper c = true -> Ascii.eqb c ","%char = false.
Proof.
  intros H. apply Ascii.eqb_neq. intros ->. discriminate.
Qed.

Lemma upper_isUpper (c : ascii) : isLetter c = true -> isUpper (upper c) = true.
Proof.
  unfold isLetter, upper. destruct (isLower c) eqn:Hl.
  - intros _. unfold isLower in Hl. apply andb_prop in Hl as [H1 H2].
    apply Nat.leb_le in H1, H2. unfold isUpper, code in *.
    rewrite nat_ascii_embedding by lia.
    apply andb_true_intro. split; apply Nat.leb_le; lia.
  - by rewrite orb_false_r.
Qed.

Lemma upper_fixed (c : ascii) : isUpper c = true -> upper c = c.
Proof. intros H. unfold upper. by rewrite upper_not_lower. Qed.

Lemma stateMatch_letters (w : bool) (s m : string) :
  stateMatch w s = Some m ->
  exists a b, m = String a (String b "") /\
              isLetter a = true /\ isLetter b = true.
Proof.
  revert w. induction s as [|a s IH]; intros w; [discriminate|].
  destruct s as [|b rest]; [discriminate|].
  cbn [stateMatch].
  destruct (negb w && isLetter a && isLetter b && negb (startsWithWord rest))
    eqn:Hc; [|apply IH].
  intros [= <-]. apply andb_prop in Hc as [Hc _].
  apply andb_prop in Hc as [Hc Hb]. apply andb_prop in Hc as [_ Ha].
  by exists a, b.
Qed.

Lemma parts_spec (r p : string) :
  p ∈ parts r ->
  p <> "" /\ trim p = p /\
  all (fun c => negb (Ascii.eqb c ","%char)) p = true.
Proof.
  unfold parts. intros [Hne Hin]%list_elem_of_filter.
  apply list_elem_of_fmap in Hin as (x & -> & Hx).
  split; [done|]. split; [apply trim_idem|].
  apply trim_keeps. pose proof (split_free ","%char r) as Hfree.
  rewrite list.Forall_forall in Hfree. by apply Hfree.
Qed.

(** What [formatCityState] returns for a string: the string itself, or the
    second to last part, a comma, a space and two upper-case letters. *)
Lemma formatCityState_cases (r : string) :
  formatCityState (Some r) = Some r \/
  exists city a b,
    formatCityState (Some r)
    = Some (city +:+ ", " +:+ String a (String b "")) /\
    2 <= length (parts r) /\
    city = nth (length (parts r) - 2) (parts r) "" /\
    city ∈ parts r /\ isUpper a = true /\ isUpper b = true.
Proof.
  unfold formatCityState. destruct (String.eqb r ""); [by left|]. cbv zeta.
  destruct (Nat.leb_spec 2 (length (parts r))) as [Hlen|]; [|by left].
  destruct (stateMatch false _) as [m|] eqn:Hm; [|by left]. cbn [option_map].
  destruct (negb _ && negb _) eqn:Hc; [|by left].
  right. apply stateMatch_letters in Hm as (a & b & -> & Ha & Hb).
  exists (nth (length (parts r) - 2) (parts r) ""), (upper a), (upper b).
  repeat split; try done.
  - apply list_elem_of_In, nth_In. lia.
  - by apply upper_isUpper.
  - by apply upper_isUpper.
Qed.

Lemma formatCityState_formatted (city : string) (a b : ascii) :
  city <> "" -> trim city = city ->
  all (fun c => negb (Ascii.eqb c ","%char)) city = true ->
  isUpper a = true -> isUpper b = true ->
  formatCityState (Some (city +:+ ", " +:+ String a (String b "")))
  = Some (city +:+ ", " +:+ String a (String b "")).
Proof.
  intros Hne Htrim Hfree Ha Hb.
  set (st := String a (String b "")).
  assert (Hparts : parts (city +:+ ", " +:+ st) = [city; st]).
  { unfold parts.
    change (city +:+ ", " +:+ st)
      with (city +:+ String ","%char (String " "%char st)).
    rewrite split_append by done.
    rewrite (split_whole ","%char (String " "%char st))
      by (cbn; by rewrite (upper_not_comma a), (upper_not_comma b)).
    cbn [map].
    assert (Hst : trim (String " "%char st) = st).
    { assert (Hsp : isSpace " "%char = true) by reflexivity.
      unfold trim, st. cbn [dropStart].
      rewrite Hsp, (upper_not_space a Ha). cbn [dropEnd].
      by rewrite (upper_not_space b Hb). }
    rewrite Htrim, Hst.
    rewrite filter_cons_True by done.
    by rewrite filter_cons_True by done. }
  unfold formatCityState.
  destruct (String.eqb_spec (city +:+ ", " +:+ st) "") as [Hempty|_].
  { destruct city; [done|discriminate]. }
  cbv zeta. rewrite Hparts. cbn [length Nat.leb Nat.sub nth].
  unfold st at 1. cbn [stateMatch startsWithWord negb andb].
  assert (Hla : isLetter a = true) by (unfold isLetter; by rewrite Ha).
  assert (Hlb : isLetter b = true) by (unfold isLetter; by rewrite Hb).
  rewrite Hla, Hlb. cbn [option_map toUpperCase andb].
  rewrite (upper_fixed a), (upper_fixed b) by done.
  destruct (String.eqb_spec city "") as [|_]; [done|]. reflexivity.
Qed.

Lemma concat_split (sep : ascii) (s : string) :
  String.concat (String sep "") (split sep s) = s.
Proof.
  induction s as [|c s IH]; [done|]. cbn [split].
  pose proof (split_nonempty sep s) as Hne.
  destruct (Ascii.eqb_spec c sep) as [->|_].
  - destruct (split sep s) as [|p ps]; [done|].
    change (String.concat (String sep "") ("" :: p :: ps))
      with (String sep (String.concat (String sep "") (p :: ps))).
    by rewrite IH.
  - destruct (split sep s) as [|p ps]; [done|].
    rewrite <- IH. by destruct ps.
Qed.

Lemma dropStart_decomp (p : ascii -> bool) (s : string) :
  exists before, s = before +:+ dropStart p s /\ all p before = true.
Proof.
  induction s as [|c s (before & IH & Hb)]; [by exists ""|]. cbn.
  destruct (p c) eqn:Hc; [|by exists ""].
  exists (String c before). rewrite append_cons, <- IH. cbn. by rewrite Hc.
Qed.

Lemma dropEnd_decomp (p : ascii -> bool) (s : string) :
  exists after, s = dropEnd p s +:+ after /\ all p after = true.
Proof.
  induction s as [|c s (after & IH & Ha)]; [by exists ""|]. cbn.
  destruct (dropEnd p s) as [|d kept] eqn:Hk.
  - destruct (p c) eqn:Hc.
    + exists (String c after). cbn. rewrite Hc, Ha.
      change ("" +:+ String c after) with (String c ("" +:+ after)).
      by rewrite <- IH.
    + exists after. by rewrite !append_cons, <- IH.
  - exists after. by rewrite append_cons, <- IH.
Qed.

Lemma trim_trimmedOf (s : string) : LabelSpec.trimmedOf s (trim s).
Proof.
  unfold trim. destruct (dropStart_decomp isSpace s) as (before & Hs & Hb).
  destruct (dropEnd_decomp isSpace (dropStart isSpace s))
    as (after & Hd & Ha).
  exists before, after. split; [by rewrite <- Hd|]. split; [done|].
  split; [done|]. split.
  - intros c Hc%dropEnd_first. by apply dropStart_first in Hc.
  - intros c Hc. by apply dropEnd_final in Hc.
Qed.

Lemma upper_capitalOf (c : ascii) :
  isLetter c = true -> LabelSpec.capitalOf c (upper c).
Proof.
  intros Hl. split; [by apply upper_isUpper|]. unfold upper.
  destruct (isLower c) eqn:Hlow; [|by left]. right.
  unfold isLower in Hlow. apply andb_prop in Hlow as [H1 H2].
  apply Nat.leb_le in H1, H2. unfold code in *.
  rewrite nat_ascii_embedding by lia. lia.
Qed.

Lemma stateMatch_cons (w : bool) (a b : ascii) (rest : string) :
  stateMatch w (String a (String b rest))
  = if negb w && isLetter a && isLetter b && negb (startsWithWord rest)
    then Some (String a (String b ""))
    else stateMatch (isWord a) (String b rest).
Proof. reflexivity. Qed.

(** [stateMatch] finds the first position at which a two-letter word
    stands, and fails when there is none. *)
Lemma stateMatch_first (w : bool) (s : string) :
  match stateMatch w s with
  | Some m =>
      exists i a b,
        m = String a (String b "") /\
        String.get i s = Some a /\ String.get (S i) s = Some b /\
        LabelSpec.twoLetterWordFrom w s i /\
        (forall j, j < i -> ~ LabelSpec.twoLetterWordFrom w s j)
  | None => forall i, ~ LabelSpec.twoLetterWordFrom w s i
  end.
Proof.
  revert w. induction s as [|a s IH]; intros w.
  { cbn. intros i ((x & y & Hx & _) & _). by destruct i. }
  destruct s as [|b rest].
  { cbn. intros i ((x & y & _ & Hy & _) & _). by destruct i. }
  assert (Hshift : forall i,
    LabelSpec.twoLetterWordFrom w (String a (String b rest)) (S i)
    <-> LabelSpec.twoLetterWordFrom (isWord a) (String b rest) i).
  { intros i. unfold LabelSpec.twoLetterWordFrom, LabelSpec.wordBefore,
      LabelSpec.wordAt. cbn [String.get]. by destruct i. }
  rewrite stateMatch_cons.
  destruct (negb w && isLetter a && isLetter b && negb (startsWithWord rest))
    eqn:Hc.
  - apply andb_prop in Hc as [Hc Hr]. apply andb_prop in Hc as [Hc Hb].
    apply andb_prop in Hc as [Hw Ha].
    apply negb_true_iff in Hw, Hr.
    exists 0, a, b.
    split; [done|]. split; [done|]. split; [done|]. split; [|intros j; lia].
    split; [by exists a, b|]. split; [done|].
    unfold LabelSpec.wordAt. cbn. by destruct rest.
  - assert (H0 : ~ LabelSpec.twoLetterWordFrom w (String a (String b rest)) 0).
    { intros ((x & y & [= <-] & [= <-] & Hx & Hy) & Hw & Hr).
      cbn in Hw. unfold LabelSpec.wordAt in Hr. cbn in Hr.
      rewrite Hw, Hx, Hy in Hc. cbn in Hc.
      destruct rest; cbn in Hc, Hr; [discriminate|].
      rewrite Hr in Hc. discriminate. }
    specialize (IH (isWord a)).
    destruct (stateMatch (isWord a) (String b rest)) as [m|].
    + destruct IH as (i & x & y & -> & Hx & Hy & Hi & Hleast).
      exists (S i), x, y.
      split; [done|]. split; [done|]. split; [done|].
      split; [by apply Hshift|].
      intros [|j] Hj; [done|]. rewrite Hshift. apply Hleast. lia.
    + intros [|i]; [done|]. rewrite Hshift. apply IH.
Qed.

(** What a label becomes.  The parts of a label are its comma-separated
    pieces (which joined by commas give the label back, and hold no
    comma), each without the white space around it, the empty ones left
    out.  A label with fewer than two parts is left as it is, and so is an
    absent label and a label without a comma.  A label with two parts or
    more is left as it is when no two-letter word stands in its last part;
    otherwise it becomes the second to last part, a comma, a space, and
    the two letters of the first two-letter word of the last part, in
    upper case. *)
Theorem formatCityState_shape (r : string) :
  formatCityState None = None /\
  (exists pieces,
     String.concat "," pieces = r /\ Forall LabelSpec.commaFree pieces /\
     Forall (fun p => LabelSpec.trimmedOf p (trim p)) pieces /\
     parts r = filter (fun p => p <> "") (map trim pieces)) /\
  (length (parts r) < 2 -> formatCityState (Some r) = Some r) /\
  (LabelSpec.commaFree r -> formatCityState (Some r) = Some r) /\
  (2 <= length (parts r) ->
   let last := nth (length (parts r) - 1) (parts r) "" in
   let city := nth (length (parts r) - 2) (parts r) "" in
   ((forall i, ~ LabelSpec.twoLetterWordAt last i) ->
    formatCityState (Some r) = Some r) /\
   (forall i a b,
      LabelSpec.twoLetterWordAt last i ->
      (forall j, j < i -> ~ LabelSpec.twoLetterWordAt last j) ->
      String.get i last = Some a -> String.get (S i) last = Some b ->
      exists A B,
        LabelSpec.capitalOf a A /\ LabelSpec.capitalOf b B /\
        formatCityState (Some r)
        = Some (city +:+ ", " +:+ String A (String B "")))).
Proof.
  assert (Hshort : length (parts r) < 2 -> formatCityState (Some r) = Some r).
  { intros Hlen. unfold formatCityState. destruct (String.eqb r ""); [done|].
    cbv zeta. destruct (Nat.leb_spec 2 (length (parts r))); [lia|done]. }
  split; [done|]. split; [|split; [done|split]].
  - exists (split ","%char r). split; [apply concat_split|].
    split; [apply split_free|]. split; [|done].
    apply list.Forall_forall. intros p _. apply trim_trimmedOf.
  - intros Hfree. apply Hshort. unfold parts. rewrite split_whole by done.
    cbn [map].
    pose proof (length_filter (fun p : string => p <> "") [trim r]) as Hl.
    cbn [length] in Hl. lia.
  - intros Hlen last city.
    assert (Hcity : city <> "").
    { assert (Hin : city ∈ parts r)
        by (apply list_elem_of_In, nth_In; lia).
      by apply parts_spec in Hin as (Hne & _). }
    pose proof (stateMatch_first false last) as Hfirst.
    unfold formatCityState.
    destruct (String.eqb_spec r "") as [Hr|_].
    { exfalso. rewrite Hr in Hlen. vm_compute in Hlen. lia. }
    cbv zeta. destruct (Nat.leb_spec 2 (length (parts r))) as [_|]; [|lia].
    fold last city.
    destruct (stateMatch false last) as [m|]; cbn [option_map].
    + destruct Hfirst as (i0 & a0 & b0 & -> & Ha0 & Hb0 & Hi0 & Hleast0).
      split.
      { intros Hnone. by destruct (Hnone i0). }
      intros i a b Hi Hleast Ha Hb.
      assert (i = i0) as ->.
      { destruct (Nat.lt_trichotomy i i0) as [Hlt|[Heq|Hgt]]; [|done|].
        - by destruct (Hleast0 i Hlt).
        - by destruct (Hleast i0 Hgt). }
      rewrite Ha in Ha0. rewrite Hb in Hb0.
      injection Ha0 as <-. injection Hb0 as <-.
      destruct Hi as ((x & y & Hx & Hy & Hlx & Hly) & _).
      rewrite Ha in Hx. rewrite Hb in Hy.
      injection Hx as <-. injection Hy as <-.
      exists (upper a), (upper b).
      split; [by apply upper_capitalOf|]. split; [by apply upper_capitalOf|].
      cbn [toUpperCase]. apply String.eqb_neq in Hcity. by rewrite Hcity.
    + split; [done|]. intros i a b Hi. by destruct (Hfirst i).
Qed.

(** Formatting a label twice gives what formatting it once gives. *)
Theorem formatCityState_idempotent (raw : option string) :
  formatCityState (formatCityState raw) = formatCityState raw.
Proof.
  destruct raw as [r|]; [|done].
  destruct (formatCityState_cases r)
    as [H|(city & a & b & H & _ & _ & Hin & Ha & Hb)]; rewrite H; [done|].
  apply parts_spec in Hin as (Hne & Htrim & Hfree).
  by apply formatCityState_formatted.
Qed.

End LabelsProps.

(** ** Stop markers *)
Section MarkersProps.
Import Stops Markers.
Local Open Scope list_scope.
Context (E : Engine).

Lemma imap_marker_stop (l : list StopPoint) (k : nat) :
  map stop (imap (fun i => marker (k + i)) l) = l.
Proof.
  revert k. induction l as [|s l IH]; intros k; [done|]. cbn. f_equal.
  rewrite <- (IH (S k)) at 2. f_equal. apply imap_ext. intros i x _. cbn.
  f_equal. lia.
Qed.

Lemma markers_stop (l : list StopPoint) :
  map stop (markers (Some l)) = filter (fun s => placed s = true) l.
Proof. apply (imap_marker_stop _ 0). Qed.

Lemma NoDup_keyOf_ids (l : list StopPoint) :
  NoDup (map (keyOf E) l) ->
  forall i j s1 s2 n,
    l !! i = Some s1 -> l !! j = Some s2 ->
    station_id s1 = Some n -> station_id s2 = Some n -> i = j.
Proof.
  intros Hnd i j s1 s2 n Hi Hj H1 H2.
  eapply NoDup_lookup; [exact Hnd| |].
  - rewrite list_lookup_fmap, Hi. reflexivity.
  - rewrite list_lookup_fmap, Hj. cbn. f_equal.
    unfold keyOf, Stops.key. by rewrite H1, H2.
Qed.

(** The markers drawn for a deduplicated stop list are the stops that have
    a numeric latitude and longitude, in the order of the list, each at its
    position; no two of them carry the same station id, so that the keys
    given by station ids are pairwise distinct. *)
Theorem markers_of_deduplicated_stops (x y : list StopPoint) :
  Forall typed x -> dedupe E x = Normal y ->
  map stop (markers (Some y)) = filter (fun s => placed s = true) y /\
  map stop (markers (Some y)) `sublist_of` x /\
  Forall (fun m => position m = (lat (stop m), lon (stop m)) /\
                   isNumber (position m).1 = true /\
                   isNumber (position m).2 = true)
    (markers (Some y)) /\
  (forall i j m1 m2 n,
     markers (Some y) !! i = Some m1 -> markers (Some y) !! j = Some m2 ->
     key m1 = ById n -> key m2 = ById n -> i = j).
Proof.
  intros Hx Hy. rewrite dedupe_firstOccurrences in Hy by done.
  injection Hy as <-.
  set (y := Spec.firstOccurrences (keyOf E) x).
  pose proof (markers_stop y) as Hstop.
  split; [done|]. split; [|split].
  - rewrite Hstop. etrans; [apply sublist_filter|].
    apply firstOccurrences_sublist.
  - apply list.Forall_forall. intros m Hm.
    assert (Hs : stop m ∈ filter (fun s => placed s = true) y).
    { rewrite <- Hstop. apply list_elem_of_fmap. by exists m. }
    apply list_elem_of_filter in Hs as [Hp _].
    apply andb_prop in Hp as [Hla Hlo].
    unfold markers in Hm. apply elem_of_lookup_imap in Hm as (i & s & -> & _).
    done.
  - intros i j m1 m2 n Hi Hj H1 H2.
    assert (Hnd : NoDup (map (keyOf E) (filter (fun s => placed s = true) y))).
    { eapply sublist_NoDup; [apply (firstOccurrences_NoDup (keyOf E) x)|].
      apply (fmap_sublist (keyOf E)), sublist_filter. }
    assert (Hlk : forall k m, markers (Some y) !! k = Some m ->
              filter (fun s => placed s = true) y !! k = Some (stop m)).
    { intros k m Hk. rewrite <- Hstop, list_lookup_fmap, Hk. done. }
    assert (Hid : forall k m, markers (Some y) !! k = Some m ->
              key m = ById n -> station_id (stop m) = Some n).
    { intros k m Hk Hkey. unfold markers in Hk.
      apply list_lookup_imap_Some in Hk as (s & _ & ->). cbn in Hkey |- *.
      destruct (station_id s); congruence. }
    eapply (NoDup_keyOf_ids _ Hnd); eauto.
Qed.

End MarkersProps.

(** ** The autocomplete input *)
Section SuggestProps.
Import Text Suggest Wiring.
Local Open Scope list_scope.
Context (E : Engine) (apiKeyRaw : option string).

Lemma run_snoc (s : Widget) (evs : list Event) (ev : Event) :
  run E apiKeyRaw s (evs ++ [ev])
  = step E apiKeyRaw (run E apiKeyRaw s evs) ev.
Proof. unfold run. by rewrite fold_left_app. Qed.

Lemma reachable_ind (P : Widget -> Prop) (s : Widget) :
  P s -> (forall s' ev, P s' -> P (step E apiKeyRaw s' ev)) ->
  forall evs, P (run E apiKeyRaw s evs).
Proof.
  intros H0 Hstep evs. induction evs as [|ev evs IH] using rev_ind; [done|].
  rewrite run_snoc. by apply Hstep.
Qed.

Lemma abortActive_same (s : Widget) :
  inflight (abortActive s) = inflight s /\
  controllers (abortActive s) = controllers s /\
  acRef (abortActive s) = acRef s /\
  timers (abortActive s) = timers s /\
  cells (abortActive s) = cells s.
Proof. unfold abortActive. destruct (acRef s) eqn:?; by repeat split. Qed.

Lemma abortActive_cells (f : Cells -> Cells) (s : Widget) :
  aborted (abortActive (setCells f s)) = aborted (abortActive s).
Proof. unfold abortActive. cbn. by destruct (acRef s). Qed.

Lemma clearDebounce_same (s : Widget) :
  inflight (clearDebounce s) = inflight s /\
  controllers (clearDebounce s) = controllers s /\
  acRef (clearDebounce s) = acRef s /\
  aborted (clearDebounce s) = aborted s /\
  value (clearDebounce s) = value s.
Proof. unfold clearDebounce. destruct (debRef s) eqn:?; by repeat split. Qed.

Lemma clearDebounce_timers (s : Widget) :
  timers s = [] -> timers (clearDebounce s) = [].
Proof. unfold clearDebounce. destruct (debRef s); cbn; by intros ->. Qed.

Lemma clearDebounce_setValue (v : string) (s : Widget) :
  clearDebounce (setValue v s) = setValue v (clearDebounce s).
Proof. unfold clearDebounce. cbn. by destruct (debRef s). Qed.

Lemma wired_cells (f : Cells -> Cells) (s : Widget) :
  wired s -> wired (setCells f s).
Proof. by intros [H1 H2 H3 H4]. Qed.

Lemma wired_callOnChange (l : JsVal) (s : Widget) :
  wired s -> wired (callOnChange l s).
Proof. by intros [H1 H2 H3 H4]. Qed.

Lemma wired_abortActive (s : Widget) : wired s -> wired (abortActive s).
Proof.
  intros [H1 H2 H3 H4]. unfold abortActive.
  destruct (acRef s) as [c|] eqn:Hac; [|by constructor; rewrite ?Hac].
  constructor; cbn; rewrite ?Hac; try done.
  eapply list.Forall_impl; [exact H3|]. cbn.
  intros l (Hr & [Ha|Ha] & Hq); (split; [done|]); (split; [|done]).
  - by left.
  - right. by right.
Qed.

(** After [acRef.current?.abort()] every lookup in flight is aborted. *)
Lemma abortActive_all (s : Widget) :
  wired s -> Forall (fun l => l.1 ∈ aborted (abortActive s)) (inflight s).
Proof.
  intros [_ _ H3 _]. eapply list.Forall_impl; [exact H3|]. cbn.
  intros l (_ & [Ha|Ha] & _); unfold abortActive.
  - rewrite Ha. cbn. by left.
  - destruct (acRef s); cbn; [by right|done].
Qed.

Lemma timers_cleared (s : Widget) :
  wired s -> cleanup s = true \/ timers s = [] ->
  timers (clearDebounce s) = [].
Proof.
  intros [H1 _ _ _] Hc. unfold clearDebounce.
  destruct H1 as [H1|(id & H1 & Hd & _)].
  - destruct (debRef s); [|done]. cbn. by rewrite H1.
  - rewrite Hd. cbn. rewrite H1. cbn. by rewrite decide_False by tauto.
Qed.

Lemma wired_effect (s : Widget) :
  timers s = [] -> NoDup (map fst (inflight s)) ->
  Forall (fun l => 1 <= l.1 <= controllers s /\
                   (acRef s = Some l.1 \/ l.1 ∈ aborted s) /\
                   2 <= String.length l.2 /\ trim l.2 = l.2) (inflight s) ->
  acRef s = (if Nat.eqb (controllers s) 0 then None
             else Some (controllers s)) ->
  wired (effect apiKeyRaw s).
Proof.
  intros Ht Hnd Hl Ha. assert (Hw : wired s) by (constructor; auto).
  unfold effect. destruct (negb _); [constructor; cbn; auto|].
  destruct (Nat.ltb_spec (String.length (trim (value s))) 2) as [Hlen|Hlen].
  - assert (Hw' : wired (abortActive
             (setCells (fun c => setError JNull (setLoading false
                                   (setOpen false (setItems [] c)))) s)))
      by by apply wired_abortActive, wired_cells.
    destruct Hw' as [H1 H2 H3 H4]. constructor; try done.
    left. cbn. by rewrite (proj1 (proj2 (proj2 (proj2 (abortActive_same _))))).
  - assert (Hcl : timers (clearDebounce s) = [])
      by (apply timers_cleared; auto).
    destruct (clearDebounce_same s) as (Hi & Hc & Hac & Hab & Hv).
    constructor; cbn; rewrite ?Hi, ?Hc, ?Hac, ?Hab, ?Hv, ?Hcl; try done.
    right. by eexists.
Qed.

Lemma wired_render (v : string) (s : Widget) :
  wired s -> wired (render apiKeyRaw v s).
Proof.
  intros Hw. unfold render. destruct (String.eqb v (value s)); [done|].
  assert (Ht : timers (if cleanup s then clearDebounce s else s) = []).
  { destruct (cleanup s) eqn:Hc; [apply timers_cleared; auto|].
    destruct Hw as [[H1|(id & _ & _ & Hc' & _)] _ _ _]; [done|congruence]. }
  assert (Hsame : inflight (if cleanup s then clearDebounce s else s)
                  = inflight s /\
                  controllers (if cleanup s then clearDebounce s else s)
                  = controllers s /\
                  acRef (if cleanup s then clearDebounce s else s) = acRef s /\
                  aborted (if cleanup s then clearDebounce s else s)
                  = aborted s).
  { destruct (cleanup s); [|done].
    destruct (clearDebounce_same s) as (? & ? & ? & ? & ?). done. }
  destruct Hsame as (Hi & Hc & Hac & Hab). destruct Hw as [_ H2 H3 H4].
  apply wired_effect; cbn; rewrite ?Hi, ?Hc, ?Hac, ?Hab; done.
Qed.

Lemma wired_onTimer (id : nat) (s : Widget) :
  wired s -> timers s = [(id, trim (value s))] ->
  2 <= String.length (trim (value s)) ->
  wired (onTimer (trim (value s)) (clearTimeout id s)).
Proof.
  intros Hw Ht Hlen. unfold onTimer. apply wired_cells.
  assert (Hw1 : wired (clearTimeout id s)).
  { destruct Hw as [H1 H2 H3 H4]. constructor; try done. left. cbn.
    rewrite Ht. cbn. by rewrite decide_False by tauto. }
  destruct (abortActive_same (clearTimeout id s)) as (Hi & _ & _ & Ht1 & _).
  assert (Ht0 : timers (clearTimeout id s) = []).
  { cbn. rewrite Ht. cbn. by rewrite decide_False by tauto. }
  rewrite Ht0 in Ht1.
  pose proof (abortActive_all _ Hw1) as Hall.
  destruct (wired_abortActive _ Hw1) as [_ H2 H3 H4].
  set (s1 := abortActive (clearTimeout id s)) in *.
  rewrite <- Hi in Hall.
  rewrite list.Forall_forall in H3, Hall.
  constructor; cbn.
  - left. exact Ht1.
  - apply NoDup_cons. split; [|done].
    intros (l & Hl & Hin)%list_elem_of_fmap. apply H3 in Hin. lia.
  - constructor.
    + cbn. split; [lia|]. split; [by left|]. split; [done|apply trim_idem].
    + apply list.Forall_forall. intros l Hin.
      destruct (H3 _ Hin) as (Hr & _ & Hq). split; [lia|].
      split; [right; by apply Hall|done].
  - done.
Qed.

Lemma wired_settled (c : nat) (s : Widget) : wired s -> wired (settled c s).
Proof.
  intros [H1 H2 H3 H4]. constructor; cbn; try done.
  - clear H3. induction (inflight s) as [|l ls IH]; [done|].
    cbn in H2. apply NoDup_cons in H2 as [Hl Hls].
    rewrite filter_cons. destruct (decide (l.1 <> c)); [|by apply IH].
    cbn. apply NoDup_cons. split; [|by apply IH].
    intros (l' & Heq & Hin)%list_elem_of_fmap.
    apply list_elem_of_filter in Hin as [_ Hin].
    apply Hl, list_elem_of_fmap. by exists l'.
  - rewrite list.Forall_forall in H3 |- *.
    intros l [_ Hin]%list_elem_of_filter. by apply H3.
Qed.

Lemma wired_step (s : Widget) (ev : Event) :
  wired s -> wired (step E apiKeyRaw s ev).
Proof.
  intros Hw. destruct ev as [v|id|c out|k|idx|idx| |]; cbn [step].
  - by apply wired_render.
  - destruct (list_find _ _) as [[i [id' q]]|] eqn:Hf; [|done].
    apply list_find_Some in Hf as (Hi & Hid & _). cbn in Hid. subst id'.
    destruct Hw as [[H1|(id0 & H1 & Hd & Hc & Hlen)] H2 H3 H4].
    { rewrite H1 in Hi. by destruct i. }
    rewrite H1 in Hi. destruct i as [|i]; [|by destruct i].
    cbn in Hi. injection Hi as <- <-. apply wired_onTimer; [|done..].
    constructor; try done. right. by exists id0.
  - case_bool_decide; [|done]. by apply wired_cells, wired_settled.
  - destruct (Tiles.canAutocomplete apiKeyRaw); [|done].
    destruct (onKeyDown k (cells s)) as [[c [label|]] p];
      [apply wired_callOnChange|]; by apply wired_cells.
  - destruct (_ && _); [by apply wired_cells|done].
  - destruct (_ && _); [by apply wired_callOnChange, wired_cells|done].
  - destruct (_ && _); [by apply wired_cells|done].
  - destruct (Tiles.canAutocomplete apiKeyRaw); [by apply wired_cells|done].
Qed.

Lemma wired_mounted : wired (mounted apiKeyRaw).
Proof. apply wired_effect; cbn; by try constructor. Qed.

(** The debounce: whatever happened since the component was mounted, at
    most one timer is set; it is the one [debRef] names, and the query its
    callback holds is the trimmed value the component was last rendered
    with, which has at least two characters.  So a lookup is only ever
    started for the trimmed current value. *)
Theorem one_timer_for_the_current_value (evs : list Event) :
  let s := run E apiKeyRaw (mounted apiKeyRaw) evs in
  (timers s = [] \/
   exists id, timers s = [(id, trim (value s))] /\ debRef s = Some id /\
              2 <= String.length (trim (value s))) /\
  (forall id q, (id, q) ∈ timers s ->
     exists c, inflight (step E apiKeyRaw s (TimerFires id))
               = (c, trim (value s)) :: inflight s /\
               (c ∉ map fst (inflight s)) /\
               timers (step E apiKeyRaw s (TimerFires id)) = []).
Proof.
  intros s.
  assert (Hw : wired s) by (apply reachable_ind;
                            [apply wired_mounted | apply wired_step]).
  pose proof Hw as [H1 H2 H3 H4]. split.
  - destruct H1 as [H1|(id & H1 & Hd & _ & Hl)]; [by left|].
    right. by exists id.
  - intros id q Hin. destruct H1 as [H1|(id0 & H1 & Hd & Hc & Hl)].
    { rewrite H1 in Hin. by apply elem_of_nil in Hin. }
    rewrite H1 in Hin. apply list_elem_of_singleton in Hin. injection Hin as -> ->.
    cbn [step]. rewrite H1. cbn. rewrite decide_True by done. cbn.
    exists (S (controllers s)).
    destruct (abortActive_same (clearTimeout id0 s))
      as (Hi & Hc' & _ & Ht & _).
    assert (Ht0 : timers (clearTimeout id0 s) = []).
    { cbn. rewrite H1. cbn. by rewrite decide_False by tauto. }
    rewrite Ht0 in Ht. rewrite Hi, Hc', Ht. cbn.
    split; [done|]. split; [|done].
    rewrite list.Forall_forall in H3.
    intros (l & Hl' & Hin)%list_elem_of_fmap. apply H3 in Hin. lia.
Qed.

(** The lookups: whatever happened since the component was mounted, the
    lookups in flight have distinct controllers and each was started for a
    trimmed query of at least two characters; every lookup in flight other
    than the one of the active controller has been aborted; and rendering
    the component with a value whose trimmed text has fewer than two
    characters aborts every lookup in flight, sets no timer and empties
    and closes the list. *)
Theorem stale_lookups_are_aborted (evs : list Event) (v : string) :
  let s := run E apiKeyRaw (mounted apiKeyRaw) evs in
  NoDup (map fst (inflight s)) /\
  (forall c q, (c, q) ∈ inflight s ->
     (acRef s = Some c \/ c ∈ aborted s) /\
     2 <= String.length q /\ trim q = q) /\
  (Tiles.canAutocomplete apiKeyRaw = true ->
   v <> value s -> String.length (trim v) < 2 ->
   let s' := step E apiKeyRaw s (Render v) in
   (forall c q, (c, q) ∈ inflight s' -> c ∈ aborted s') /\
   inflight s' = inflight s /\ timers s' = [] /\
   items (cells s') = [] /\ open (cells s') = false).
Proof.
  intros s.
  assert (Hw : wired s) by (apply reachable_ind;
                            [apply wired_mounted | apply wired_step]).
  pose proof Hw as [H1 H2 H3 H4]. split; [done|]. split.
  - rewrite list.Forall_forall in H3. intros c q Hin.
    destruct (H3 _ Hin) as (_ & Ha & Hq). done.
  - intros Hcan Hv Hlen s'. subst s'. cbn [step]. unfold render.
    destruct (String.eqb_spec v (value s)) as [|_]; [done|].
    set (s1 := setValue v (if cleanup s then clearDebounce s else s)).
    assert (Ht : timers s1 = []).
    { subst s1. cbn. destruct (cleanup s) eqn:Hc; [apply timers_cleared; auto|].
      destruct H1 as [H1|(id & _ & _ & Hc' & _)]; [done|congruence]. }
    assert (Hsame : inflight s1 = inflight s /\ acRef s1 = acRef s /\
                    aborted s1 = aborted s /\
                    controllers s1 = controllers s).
    { subst s1. cbn. destruct (cleanup s); [|done].
      destruct (clearDebounce_same s) as (? & ? & ? & ? & ?). done. }
    destruct Hsame as (Hi & Hac & Hab & Hco).
    unfold effect. rewrite Hcan. cbn [negb].
    change (value s1) with v.
    destruct (Nat.ltb_spec (String.length (trim v)) 2) as [_|]; [|lia].
    assert (Hall : Forall (fun l => l.1 ∈ aborted (abortActive s1))
                     (inflight s1)).
    { apply abortActive_all. constructor.
      - by left.
      - by rewrite Hi.
      - by rewrite Hi, Hac, Hab, Hco.
      - by rewrite Hac, Hco. }
    rewrite list.Forall_forall in Hall.
    destruct (abortActive_same
                (setCells (fun c => setError JNull (setLoading false
                                      (setOpen false (setItems [] c)))) s1))
      as (Hi' & _ & _ & Ht' & Hce').
    cbn [setCleanup inflight timers cells aborted].
    rewrite Hi', Ht', Hce'. cbn [setCells inflight timers cells].
    rewrite Ht, Hi. split; [|done].
    intros c q Hin. rewrite <- Hi in Hin. rewrite abortActive_cells.
    apply (Hall _ Hin).
Qed.

Lemma tidy_onSettled (out : Api.FetchOutcome) (c : Cells) :
  tidy c -> tidy (onSettled E out c).
Proof.
  intros [Ho Hi]. unfold onSettled.
  destruct (_ ≫= _) as [unique|e].
  - constructor; cbn.
    + intros Hlen. by destruct unique.
    + intros Hne. destruct unique; [done|]. cbn. lia.
  - destruct (String.eqb _ _); by constructor.
Qed.

Lemma tidy_onKeyDown (k : Key) (c : Cells) :
  tidy c -> tidy (onKeyDown k c).1.1.
Proof.
  intros [Ho Hi]. unfold onKeyDown.
  destruct (negb (open c) || _) eqn:Hg; [by constructor|].
  apply orb_false_elim in Hg as [Hopen Hn]. apply negb_false_iff in Hopen.
  apply Z.eqb_neq in Hn. specialize (Hi (Ho Hopen)).
  set (n := Z.of_nat (length (items c))) in *.
  assert (Hn0 : (0 <= n)%Z) by (subst n; lia).
  destruct k; cbn.
  - constructor; cbn; [done|]. intros _. fold n.
    pose proof (Z.rem_bound_pos (activeIndex c + 1) n). lia.
  - constructor; cbn; [done|]. intros _. fold n.
    destruct (decide (activeIndex c - 1 + n = -1)%Z) as [Heq|Hne].
    + assert (Hn1 : n = 1%Z) by lia. rewrite Heq, Hn1.
      replace (Z.rem (-1) 1) with 0%Z by reflexivity. lia.
    + pose proof (Z.rem_bound_pos (activeIndex c - 1 + n) n). lia.
  - destruct (_ && _); cbn; constructor; cbn; try done. intros _. fold n. lia.
  - constructor; cbn; [done|]. intros _. fold n. lia.
  - by constructor.
Qed.

Lemma tidy_effect (s : Widget) :
  tidy (cells s) -> tidy (cells (effect apiKeyRaw s)).
Proof.
  intros Ht. unfold effect. destruct (negb _); [done|].
  destruct (Nat.ltb _ _).
  - cbn. rewrite (proj2 (proj2 (proj2 (proj2 (abortActive_same _))))).
    by constructor.
  - cbn. unfold clearDebounce. by destruct (debRef s).
Qed.

Lemma tidy_step (s : Widget) (ev : Event) :
  tidy (cells s) -> tidy (cells (step E apiKeyRaw s ev)).
Proof.
  intros Ht. pose proof Ht as [Ho Hi].
  destruct ev as [v|id|c out|k|idx|idx| |]; cbn [step].
  - unfold render. destruct (String.eqb v (value s)); [done|].
    apply tidy_effect. cbn. destruct (cleanup s); [|done].
    unfold clearDebounce. by destruct (debRef s).
  - destruct (list_find _ _) as [[i [id' q]]|]; [|done].
    unfold onTimer. cbn.
    rewrite (proj2 (proj2 (proj2 (proj2 (abortActive_same _))))). cbn.
    by constructor.
  - case_bool_decide; [|done]. cbn. by apply tidy_onSettled.
  - destruct (Tiles.canAutocomplete apiKeyRaw); [|done].
    pose proof (tidy_onKeyDown k (cells s) Ht) as Hk.
    by destruct (onKeyDown k (cells s)) as [[c [label|]] p].
  - destruct (open (cells s) && _) eqn:Hg; [|done]. cbn.
    apply andb_prop in Hg as [_ Hlt%Nat.ltb_lt].
    constructor; cbn; [done|]. intros _. lia.
  - destruct (open (cells s) && _) eqn:Hg; [|done]. cbn.
    apply andb_prop in Hg as [_ Hlt%Nat.ltb_lt].
    constructor; cbn; [done|]. intros _. lia.
  - destruct (_ && Nat.ltb _ _) eqn:Hg; [|done]. cbn.
    apply andb_prop in Hg as [_ Hlt%Nat.ltb_lt].
    constructor; cbn; [|done]. intros _ Hnil. rewrite Hnil in Hlt. cbn in Hlt. lia.
  - destruct (Tiles.canAutocomplete apiKeyRaw); [|done]. cbn.
    constructor; cbn; [done|]. intros Hne. specialize (Hi Hne). lia.
Qed.

Lemma tidy_mounted : tidy (cells (mounted apiKeyRaw)).
Proof. apply tidy_effect. by constructor. Qed.

(** The list: whatever happened since the component was mounted, an open
    list has items (so the row "No results", which is rendered in an open
    list without items, is never shown), the highlighted index is -1 or
    the index of an item, and the only key that changes the input is
    Enter, which puts there the label of the highlighted item, closes the
    list and keeps the form from being submitted. *)
Theorem suggestion_list_is_tidy (evs : list Event) :
  let c := cells (run E apiKeyRaw (mounted apiKeyRaw) evs) in
  (open c = true -> items c <> []) /\
  (items c <> [] ->
   (-1 <= activeIndex c < Z.of_nat (length (items c)))%Z) /\
  (forall k c' label prevented,
     onKeyDown k c = (c', Some label, prevented) ->
     k = Enter /\ (0 <= activeIndex c)%Z /\
     items c !! Z.to_nat (activeIndex c) = Some label /\
     open c' = false /\ prevented = true).
Proof.
  intros c.
  assert (Ht : tidy c).
  { subst c. apply (reachable_ind (fun s => tidy (cells s)));
      [apply tidy_mounted | apply tidy_step]. }
  destruct Ht as [Ho Hi]. split; [done|]. split; [done|].
  intros k c' label p. unfold onKeyDown.
  destruct (negb (open c) || _); [discriminate|].
  destruct k; try discriminate.
  destruct (Z.leb_spec 0 (activeIndex c)) as [H0|]; [|discriminate].
  destruct (Z.ltb_spec (activeIndex c) (Z.of_nat (length (items c))))
    as [Hn|]; [|discriminate].
  cbn. intros [= <- <- <-]. repeat split; try done.
  destruct (lookup_lt_is_Some_2 (items c) (Z.to_nat (activeIndex c)))
    as [x Hx]; [lia|].
  rewrite Hx. f_equal. symmetry. by apply nth_lookup_Some.
Qed.

(** Typing restarts the debounce and nothing else: a render with a new
    value whose trimmed text has two characters or more clears the timer
    that was set, sets one timer for the trimmed new value, and touches
    neither the list nor the lookups in flight, none of which is aborted
    before the timer fires. *)
Theorem typing_restarts_the_debounce (evs : list Event) (v : string) :
  let s := run E apiKeyRaw (mounted apiKeyRaw) evs in
  Tiles.canAutocomplete apiKeyRaw = true ->
  v <> value s -> 2 <= String.length (trim v) ->
  let s' := step E apiKeyRaw s (Render v) in
  timers s' = [(S (timerIds s), trim v)] /\
  debRef s' = Some (S (timerIds s)) /\
  inflight s' = inflight s /\ aborted s' = aborted s /\
  acRef s' = acRef s /\ cells s' = cells s.
Proof.
  intros s Hcan Hv Hlen s'. subst s'.
  assert (Hw : wired s) by (apply reachable_ind;
                            [apply wired_mounted | apply wired_step]).
  cbn [step]. unfold render.
  destruct (String.eqb_spec v (value s)) as [|_]; [done|].
  set (s1 := setValue v (if cleanup s then clearDebounce s else s)).
  assert (Ht : timers (clearDebounce s1) = []).
  { subst s1. rewrite clearDebounce_setValue. cbn [timers setValue].
    apply clearDebounce_timers. destruct (cleanup s) eqn:Hc.
    - apply timers_cleared; auto.
    - by destruct Hw as [[H1|(id & _ & _ & Hc' & _)] _ _ _]; [|congruence]. }
  assert (Hsame : timerIds (clearDebounce s1) = timerIds s /\
                  inflight (clearDebounce s1) = inflight s /\
                  aborted (clearDebounce s1) = aborted s /\
                  acRef (clearDebounce s1) = acRef s /\
                  cells (clearDebounce s1) = cells s).
  { assert (Hcd : forall x, timerIds (clearDebounce x) = timerIds x /\
                            inflight (clearDebounce x) = inflight x /\
                            aborted (clearDebounce x) = aborted x /\
                            acRef (clearDebounce x) = acRef x /\
                            cells (clearDebounce x) = cells x).
    { intros x. unfold clearDebounce. by destruct (debRef x). }
    subst s1. rewrite clearDebounce_setValue. cbn.
    destruct (Hcd (if cleanup s then clearDebounce s else s))
      as (-> & -> & -> & -> & ->).
    destruct (cleanup s); [apply Hcd|done]. }
  destruct Hsame as (Hid & Hi & Hab & Hac & Hce).
  unfold effect. rewrite Hcan. cbn [negb]. change (value s1) with v.
  destruct (Nat.ltb_spec (String.length (trim v)) 2) as [|_]; [lia|].
  cbn. by rewrite Ht, Hid, Hi, Hab, Hac, Hce.
Qed.

(** The arrow keys walk the open list in a cycle: from an item the down
    arrow goes to the next one and from the last one to the first, the up
    arrow goes to the one before and from the first one to the last, and
    each undoes the other.  With no item highlighted the down arrow goes to
    the first item, and the up arrow to the second to last one (to the only
    item of a list of one). *)
Theorem arrow_keys_cycle (c : Cells) :
  open c = true -> items c <> [] ->
  let n := Z.of_nat (length (items c)) in
  let down c := (onKeyDown ArrowDown c).1.1 in
  let up c := (onKeyDown ArrowUp c).1.1 in
  ((0 <= activeIndex c < n)%Z ->
   activeIndex (down c)
   = (if Z.eqb (activeIndex c) (n - 1) then 0 else activeIndex c + 1)%Z /\
   activeIndex (up c)
   = (if Z.eqb (activeIndex c) 0 then n - 1 else activeIndex c - 1)%Z /\
   up (down c) = c /\ down (up c) = c) /\
  (activeIndex c = (-1)%Z ->
   activeIndex (down c) = 0%Z /\
   activeIndex (up c) = (if Z.eqb n 1 then 0 else n - 2)%Z).
Proof.
  intros Hopen Hne n down up.
  assert (Hn : (0 < n)%Z) by (subst n; destruct (items c); [done|cbn; lia]).
  assert (Hkey : forall i,
    (onKeyDown ArrowDown (setActiveIndex i c)).1.1
    = setActiveIndex (Z.rem (i + 1) n) c /\
    (onKeyDown ArrowUp (setActiveIndex i c)).1.1
    = setActiveIndex (Z.rem (i - 1 + n) n) c).
  { intros i. unfold onKeyDown. cbn [open items setActiveIndex activeIndex].
    fold n. rewrite Hopen. destruct (Z.eqb_spec n 0) as [|_]; [lia|].
    by cbn. }
  assert (Hc : setActiveIndex (activeIndex c) c = c) by by destruct c.
  assert (Hd : forall i, (0 <= i < n)%Z ->
    Z.rem (i + 1) n = (if Z.eqb i (n - 1) then 0 else i + 1)%Z).
  { intros i Hi. destruct (Z.eqb_spec i (n - 1)) as [->|].
    - replace (n - 1 + 1)%Z with n by lia. apply Z.rem_same. lia.
    - apply Z.rem_small. lia. }
  assert (Hu : forall i, (0 <= i < n)%Z ->
    Z.rem (i - 1 + n) n = (if Z.eqb i 0 then n - 1 else i - 1)%Z).
  { intros i Hi. destruct (Z.eqb_spec i 0) as [->|].
    - replace (0 - 1 + n)%Z with (n - 1)%Z by lia. apply Z.rem_small. lia.
    - rewrite Z.rem_mod_nonneg by lia.
      replace (i - 1 + n)%Z with (i - 1 + 1 * n)%Z by lia.
      rewrite Z_mod_plus_full. apply Z.mod_small. lia. }
  subst down up. cbv beta.
  destruct (Hkey (activeIndex c)) as [Hdn Hup]. rewrite Hc in Hdn, Hup.
  rewrite Hdn, Hup. cbn [activeIndex setActiveIndex]. split.
  - intros Hi. rewrite (Hd _ Hi), (Hu _ Hi).
    split; [done|]. split; [done|].
    rewrite (proj2 (Hkey _)), (proj1 (Hkey _)). split.
    + etrans; [|exact Hc]. f_equal.
      destruct (Z.eqb_spec (activeIndex c) (n - 1)).
      * rewrite Hu by lia. cbn. lia.
      * rewrite Hu by lia.
        destruct (Z.eqb_spec (activeIndex c + 1) 0); lia.
    + etrans; [|exact Hc]. f_equal.
      destruct (Z.eqb_spec (activeIndex c) 0).
      * rewrite Hd by lia. rewrite Z.eqb_refl. lia.
      * rewrite Hd by lia.
        destruct (Z.eqb_spec (activeIndex c - 1) (n - 1)); lia.
  - intros Hi. rewrite Hi. split.
    + apply Z.rem_0_l. lia.
    + destruct (Z.eqb_spec n 1) as [Hn1|]; [by rewrite Hn1|].
      replace (-1 - 1 + n)%Z with (n - 2)%Z by lia. apply Z.rem_small. lia.
Qed.

(** Without a usable API key the component is a plain input: it sets no
    timer, starts no lookup, never opens a list and never changes its
    value by itself. *)
Theorem no_key_no_lookup (evs : list Event) :
  Tiles.canAutocomplete apiKeyRaw = false ->
  let s := run E apiKeyRaw (mounted apiKeyRaw) evs in
  timers s = [] /\ inflight s = [] /\ cells s = closed /\ changes s = [].
Proof.
  intros Hcan s. subst s.
  apply (reachable_ind (fun s => (timers s = [] /\ inflight s = [] /\
                                  cells s = closed /\ changes s = []) /\
                                 cleanup s = false /\ debRef s = None)).
  - unfold mounted, effect. by rewrite Hcan.
  - intros s ev ((Ht & Hi & Hc & Hch) & Hcl & Hd).
    destruct ev as [v|id|c out|k|idx|idx| |]; cbn [step];
      rewrite ?Hcan, ?Ht, ?Hi, ?Hc; cbn; try done.
    unfold render. destruct (String.eqb v (value s)); [done|].
    unfold effect. rewrite Hcan, Hcl. cbn. done.
Qed.

Lemma orElse_text (a b : JsVal) :
  textOrAbsent a -> textOrAbsent b ->
  orElse (orElse a b) (JStr "") = JStr (firstText a b).
Proof.
  unfold orElse, firstText.
  destruct a as [| | | |x| |], b as [| | | |y| |]; try done; cbn; intros _ _;
    repeat match goal with
      | |- context [String.eqb ?z ""] =>
          destruct (String.eqb_spec z "") as [->|]; cbn
      end; try done; congruence.
Qed.

Lemma labelOf_plain (r : JsVal) :
  plainResult r -> labelOf E r = Normal (JStr (labelText r)).
Proof.
  intros (props & -> & Hf).
  apply Forall_cons in Hf as [Hc Hf]. apply Forall_cons in Hf as [Hn Hf].
  apply Forall_cons in Hf as [Hsc Hf]. apply Forall_cons in Hf as [Hst Hf].
  apply Forall_cons in Hf as [Hfo _].
  unfold labelOf, labelText. cbn [get mbind completion_bind].
  rewrite (orElse_text _ _ Hc Hn), (orElse_text _ _ Hsc Hst).
  set (city := firstText (own props "city") (own props "name")).
  set (state := firstText (own props "state_code") (own props "state")).
  rewrite !filter_cons, filter_nil. cbn [truthy].
  destruct (String.eqb_spec city "") as [Hcity|Hcity],
    (String.eqb_spec state "") as [Hstate|Hstate]; cbn [negb];
    repeat case_decide; try done;
    cbn [mapM toStr mbind completion_bind mret completion_ret String.concat].
  - unfold orElse. cbn. revert Hfo.
    destruct (own props "formatted") as [| | | |x| |]; try done; cbn.
    intros _. by destruct (String.eqb_spec x "") as [->|].
  - apply String.eqb_neq in Hstate. unfold orElse. cbn.
    rewrite Hstate. cbn. by rewrite Hstate.
  - apply String.eqb_neq in Hcity. unfold orElse. cbn.
    rewrite Hcity. cbn. by rewrite Hcity.
  - assert (He : String.eqb (city +:+ ", " +:+ state) "" = false).
    { apply String.eqb_neq. destruct city; [done|discriminate]. }
    unfold orElse. cbn. rewrite He. cbn. by rewrite He.
Qed.

Lemma mapM_labelOf_plain (results : list JsVal) :
  Forall plainResult results ->
  mapM (labelOf E) results = Normal (map (fun r => JStr (labelText r)) results).
Proof.
  induction 1 as [|r results Hr _ IH]; [done|].
  cbn [mapM]. by rewrite labelOf_plain, IH.
Qed.

Lemma existsb_sameValueZero (x : string) (kept : list string) :
  existsb (sameValueZero (JStr x)) (map JStr kept) = true <-> x ∈ kept.
Proof.
  induction kept as [|k kept IH]; cbn.
  - split; [discriminate|by intros ?%elem_of_nil].
  - rewrite orb_true_iff, IH, String.eqb_eq, elem_of_cons. done.
Qed.

Lemma uniqueFrom_strings (kept l : list string) :
  uniqueFrom (map JStr kept) (map JStr l)
  = map JStr (kept ++ filter (fun x => x ∉ kept)
                        (Spec.firstOccurrences id l)).
Proof.
  revert kept. induction l as [|x l IH]; intros kept.
  - cbn. by rewrite app_nil_r.
  - cbn [map uniqueFrom Spec.firstOccurrences].
    destruct (existsb _ _) eqn:Hex.
    + apply existsb_sameValueZero in Hex.
      rewrite IH, filter_cons_False by tauto.
      rewrite list_filter_filter. do 2 f_equal.
      apply list_filter_iff. intros t. split; [|tauto].
      intros Ht. split; [done|]. unfold id. congruence.
    + assert (Hnin : x ∉ kept).
      { intros Hin%existsb_sameValueZero. congruence. }
      change (map JStr kept ++ [JStr x]) with (map JStr kept ++ map JStr [x]).
      rewrite <- map_app, IH, filter_cons_True by done.
      rewrite list_filter_filter, <- app_assoc. do 3 f_equal.
      apply list_filter_iff. intros t. unfold id.
      rewrite not_elem_of_app, list_elem_of_singleton. tauto.
Qed.

(** For results as the service documents them, the suggestions are the
    labels of the results ("city, state", or the one of the two that is
    there, or else the formatted address), without the empty ones, each
    once, in the order in which they first occur. *)
Theorem suggestions_of_plain_results (data : JsVal) (results : list JsVal) :
  get data "results" = Normal (JArr results) ->
  Forall plainResult results ->
  exists labels,
    suggestions E data = Normal (map JStr labels) /\
    labels = Spec.firstOccurrences id
               (filter (fun l => l <> "") (map labelText results)) /\
    NoDup labels /\ Forall (fun l => l <> "") labels /\
    length labels <= length results /\
    (forall r, r ∈ results -> labelText r <> "" -> labelText r ∈ labels).
Proof.
  intros Hres Hplain.
  set (texts := filter (fun l => l <> "") (map labelText results)).
  exists (Spec.firstOccurrences id texts).
  assert (Hsub : Spec.firstOccurrences id texts `sublist_of` texts)
    by apply firstOccurrences_sublist.
  split; [|split; [done|split; [|split; [|split]]]].
  - unfold suggestions.
    assert (Hd : nullish data = false) by by destruct data.
    rewrite Hd, Hres. cbn [mbind completion_bind].
    rewrite mapM_labelOf_plain by done. cbn [mbind completion_bind]. f_equal.
    assert (Hf : filter (fun l => truthy l = true)
                   (map (fun r => JStr (labelText r)) results)
                 = map JStr texts).
    { subst texts. clear. induction results as [|r rs IH]; [done|].
      cbn [map]. rewrite !filter_cons, IH. cbn [truthy].
      destruct (String.eqb_spec (labelText r) "") as [He|He]; cbn [negb].
      - rewrite decide_False by done. by rewrite decide_False by tauto.
      - rewrite decide_True by done. by rewrite decide_True by done. }
    rewrite Hf. change (@nil JsVal) with (map JStr []).
    rewrite (uniqueFrom_strings [] texts). cbn [app]. f_equal.
    apply filter_all, list.Forall_forall. intros t _. apply not_elem_of_nil.
  - pose proof (firstOccurrences_NoDup id texts) as Hnd.
    by rewrite map_id in Hnd.
  - eapply Forall_sublist; [exact Hsub|]. subst texts.
    apply list.Forall_forall. by intros l [Hl _]%list_elem_of_filter.
  - etrans; [apply firstOccurrences_length|]. subst texts.
    etrans; [apply length_filter|]. by rewrite length_map.
  - intros r Hr Hne.
    assert (Hin : labelText r ∈ texts).
    { subst texts. apply list_elem_of_filter. split; [done|].
      apply list_elem_of_fmap. by exists r. }
    destruct (firstOccurrences_first id texts _ Hin)
      as (pre & t & post & _ & Heq & _ & Ht).
    unfold id in Heq. by subst t.
Qed.

End SuggestProps.

(** ** Submissions through the form *)
Section FormProps.
Import App Reconciler Form.
Context (E : Engine).

Lemma session_snoc (evs : list Event) (ev : Event) :
  session E (evs ++ [ev]) = throughForm E (session E evs) ev.
Proof. unfold session. by rewrite fold_left_app. Qed.

Lemma session_reconciled (evs : list Event) : reconciled (session E evs).
Proof.
  induction evs as [|ev evs IH] using rev_ind; [apply reconciled_initial|].
  rewrite session_snoc. unfold throughForm.
  destruct (enabled _ ev); [by apply reconciled_step|done].
Qed.

Lemma onSettled_loading (t : nat) (r : Completion JsVal) (s : AppState) :
  loading (onSettled E t r s) = false.
Proof. unfold onSettled. by destruct (afterAwait E t r s). Qed.

Lemma session_single (evs : list Event) :
  pending (session E evs)
  = if loading (session E evs) then [reqIdRef (session E evs)] else [].
Proof.
  induction evs as [|ev evs IH] using rev_ind; [done|].
  rewrite session_snoc. set (s := session E evs) in *.
  unfold throughForm. destruct (enabled s ev) eqn:Hen; [|done].
  destruct ev as [v|v|v| |t r]; cbn [step]; try done.
  - cbn in Hen. apply negb_true_iff in Hen. rewrite Hen in IH.
    unfold onSubmit. cbn. destruct (_ || _); cbn; [by rewrite Hen|].
    unfold abortCurrent. cbn. destruct (abortRef s); cbn; by rewrite IH.
  - case_bool_decide as Hin; [|done].
    destruct (onSettled_sameRefs E t r (settle t s)) as (_&_&_&_&_&_&->).
    rewrite onSettled_loading. cbn.
    destruct (loading s); rewrite IH in Hin |- *; [|by apply elem_of_nil in Hin].
    apply list_elem_of_singleton in Hin. subst t. cbn.
    by rewrite decide_False by tauto.
Qed.

(** Through the form requests never overlap: the submit button is disabled
    while a request is loading, so at every moment of a session either
    nothing is loading and no call is pending, or the one pending call is
    the latest one.  Every call that settles is then the latest call, no
    pending call has been aborted, and a second submission while the first
    is loading changes nothing. *)
Theorem form_submissions_never_overlap (evs : list Event) :
  let s := session E evs in
  pending s = (if loading s then [reqIdRef s] else []) /\
  (forall t, t ∈ pending s -> t = reqIdRef s /\ t ∉ aborted s) /\
  (loading s = true -> throughForm E s Submit = s).
Proof.
  intros s. pose proof (session_single evs) as Hp. fold s in Hp.
  destruct (session_reconciled evs) as [_ _ _ _ Hal]. fold s in Hal.
  rewrite list.Forall_forall in Hal.
  split; [done|]. split.
  - intros t Hin. rewrite Hp in Hin.
    destruct (loading s); [|by apply elem_of_nil in Hin].
    apply list_elem_of_singleton in Hin. subst t. split; [done|].
    intros Hab%Hal. lia.
  - intros Hl. unfold throughForm. cbn. by rewrite Hl.
Qed.






End FormProps.

(** ** Examples *)
Section FurtherExamples.
Import Stdlib.Strings.Ascii.
Local Open Scope list_scope.



Lemma formatCityState_shape_witness :
  let r := " 12 Main St ,  Denver , co 80202 " in
  Labels.parts r = ["12 Main St"; "Denver"; "co 80202"] /\
  LabelSpec.twoLetterWordAt "co 80202" 0 /\
  Labels.formatCityState (Some r) = Some "Denver, CO" /\
  Labels.formatCityState (Some "Denver, Colorado")
  = Some "Denver, Colorado".
Proof.
  intros r.
  assert (Hword : LabelSpec.twoLetterWordAt "co 80202" 0).
  { split; [|split; reflexivity].
    exists "c"%char, "o"%char. repeat split. }
  split; [reflexivity|]. split; [exact Hword|]. split; [|reflexivity].
  destruct (formatCityState_shape r) as (_ & _ & _ & _ & Hlong).
  destruct (Hlong ltac:(vm_compute; lia)) as [_ Hfound].
  destruct (Hfound 0 "c"%char "o"%char Hword
              ltac:(intros j Hj; lia) eq_refl eq_refl)
    as (A & B & [HA HA'] & [HB HB'] & ->).
  assert (Hcode : forall c C : Ascii.ascii,
            Text.code C = Text.code c -> C = c).
  { intros c C Heq. rewrite <- (Ascii.ascii_nat_embedding C),
      <- (Ascii.ascii_nat_embedding c). unfold Text.code in Heq.
    by rewrite Heq. }
  assert (A = "C"%char) as ->.
  { destruct HA' as [->|HA']; [discriminate|].
    apply Hcode. change (Text.code "c"%char) with 99 in HA'.
    change (Text.code "C"%char) with 67. lia. }
  assert (B = "O"%char) as ->.
  { destruct HB' as [->|HB']; [discriminate|].
    apply Hcode. change (Text.code "o"%char) with 111 in HB'.
    change (Text.code "O"%char) with 79. lia. }
  reflexivity.
Defined.

Lemma failed_call_shows_its_message_witness :
  let s := App.run sampleEngine App.initial (fillForm ++ [App.Submit]) in
  App.error
    (App.step sampleEngine s
       (App.Settle 1 (Api.planRoute sampleEngine
                        (Api.Responded 500 "internal error"))))
  = JStr "Request failed (500): internal error".
Proof.
  intros s.
  assert (Hp : 1 ∈ App.pending s) by (vm_compute; by left).
  destruct (failed_call_shows_its_message sampleEngine s 1 500
              "internal error" (ErrorObj "TypeError" "Failed to fetch") Hp)
    as [Hfail _].
  destruct (Hfail eq_refl) as [He _]. exact He.
Defined.

Lemma malformed_stop_commits_route_only_witness :
  let s := App.run sampleEngine App.initial (fillForm ++ [App.Submit]) in
  let res := JObj [("route", JObj [("geometry", scenarioGeometry)]);
                   ("stops", JArr [scenarioStopJson "Stop A"; JNull])] in
  let s' := App.step sampleEngine s (App.Settle 1 (Normal res)) in
  App.route s' = [(JNum 39.7%float, JNum (-104.9)%float);
                  (JNum 39.8%float, JNum (-104.8)%float)] /\
  App.stops s' = [] /\ App.summary s' = JNull /\
  App.error s' = JStr "TypeError: read station_id" /\
  App.loading s' = false.
Proof.
  intros s res.
  assert (Hp : 1 ∈ App.pending s) by (vm_compute; by left).
  assert (Hex : Exists (fun v => nullish v = true)
                  [scenarioStopJson "Stop A"; JNull])
    by (right; left; reflexivity).
  exact (malformed_stop_commits_route_only sampleEngine s 1 res
           scenarioGeometry _ _ Hp eq_refl eq_refl eq_refl eq_refl Hex).
Defined.

Lemma bare_response_commits_empty_result_witness :
  let s := App.run sampleEngine App.initial (fillForm ++ [App.Submit]) in
  let s' := App.step sampleEngine s (App.Settle 1 (Normal (JObj []))) in
  App.display s' = ([], [], JNull) /\ App.error s' = JNull /\
  App.loading s' = false.
Proof.
  intros s.
  assert (Hp : 1 ∈ App.pending s) by (vm_compute; by left).
  exact (bare_response_commits_empty_result sampleEngine s 1 (JObj [])
           JUndefined JUndefined JUndefined JUndefined
           Hp eq_refl eq_refl eq_refl eq_refl eq_refl eq_refl eq_refl
           eq_refl eq_refl).
Defined.

Lemma toLatLngs_multipart_is_concatenation_witness :
  exists routes,
    mapM (fun line => Geometry.toLatLngs (JObj [("coordinates", line)]))
      [JArr [JArr [JNum 1%float; JNum 2%float]];
       JArr [JArr [JNum 3%float; JNum 4%float];
             JArr [JNum 5%float; JNum 6%float]]]
    = Normal routes /\
    Geometry.toLatLngs
      (JObj [("coordinates",
              JArr [JArr [JArr [JNum 1%float; JNum 2%float]];
                    JArr [JArr [JNum 3%float; JNum 4%float];
                          JArr [JNum 5%float; JNum 6%float]]])])
    = Normal (concat routes).
Proof.
  apply toLatLngs_multipart_is_concatenation; [reflexivity|].
  repeat constructor; by eexists.
Defined.

Lemma markers_of_deduplicated_stops_witness :
  let y := [scenarioStop "Stop A"] in
  map Markers.stop (Markers.markers (Some y)) = y /\
  length (Markers.markers (Some y)) = 1.
Proof.
  intros y.
  assert (Ht : Forall Stops.typed [scenarioStop "Stop A";
                                   scenarioStop "Stop A dup"])
    by (repeat constructor; by left).
  destruct (markers_of_deduplicated_stops sampleEngine
              [scenarioStop "Stop A"; scenarioStop "Stop A dup"] y Ht
              (dedupe_pair_same_id sampleEngine (scenarioStop "Stop A")
                 (scenarioStop "Stop A dup") 1%float eq_refl eq_refl))
    as (Hstop & _).
  split; [exact Hstop|reflexivity].
Defined.

Lemma arrow_keys_cycle_witness :
  let c := {| Suggest.open := true; Suggest.loading := false;
              Suggest.error := JNull;
              Suggest.items := [JStr "Denver, CO"; JStr "Dearborn, MI";
                                JStr "Decatur, IL"];
              Suggest.activeIndex := 2 |} in
  Suggest.activeIndex (Suggest.onKeyDown Suggest.ArrowDown c).1.1 = 0%Z /\
  Suggest.activeIndex (Suggest.onKeyDown Suggest.ArrowUp c).1.1 = 1%Z.
Proof.
  intros c.
  destruct (arrow_keys_cycle c eq_refl ltac:(discriminate)) as [Hin _].
  destruct (Hin ltac:(cbn; lia)) as (Hd & Hu & _).
  split; [exact Hd|exact Hu].
Defined.

Lemma no_key_no_lookup_witness :
  let s := Suggest.run sampleEngine None (Suggest.mounted None)
             [Suggest.Render "de"; Suggest.Focus;
              Suggest.KeyDown Suggest.ArrowDown; Suggest.Render "den"] in
  Suggest.timers s = [] /\ Suggest.inflight s = [] /\
  Suggest.cells s = Suggest.closed /\ Suggest.changes s = [].
Proof. exact (no_key_no_lookup sampleEngine None _ eq_refl). Defined.

Lemma typing_restarts_the_debounce_witness :
  let s := Suggest.run sampleEngine (Some "key")
             (Suggest.mounted (Some "key")) [Suggest.Render "de"] in
  Suggest.timers
    (Suggest.step sampleEngine (Some "key") s (Suggest.Render " den "))
  = [(2, "den")].
Proof.
  intros s.
  destruct (typing_restarts_the_debounce sampleEngine (Some "key")
              [Suggest.Render "de"] " den " eq_refl
              ltac:(discriminate) ltac:(vm_compute; lia)) as [Ht _].
  exact Ht.
Defined.

Lemma suggestions_of_plain_results_witness :
  let denver := JObj [("city", JStr "Denver"); ("state_code", JStr "CO")] in
  let data := JObj [("results",
                     JArr [denver; JObj [("name", JStr "Dearborn")];
                           denver; JObj []])] in
  Suggest.suggestions sampleEngine data
  = Normal [JStr "Denver, CO"; JStr "Dearborn"].
Proof.
  intros denver data.
  assert (Hplain : Forall Wiring.plainResult
                     [denver; JObj [("name", JStr "Dearborn")]; denver;
                      JObj []]).
  { repeat constructor; eexists; (split; [reflexivity|]);
      repeat constructor. }
  destruct (suggestions_of_plain_results sampleEngine data _ eq_refl Hplain)
    as (labels & Hs & -> & _).
  exact Hs.
Defined.

End FurtherExamples.
